(** * discord/http.py: routes, rate-limit buckets and the request loop

    A shallow embedding of [discord/http.py]: [Route] and its bucket key,
    [json_or_text], [MaybeUnlock], [HTTPClient.request] and
    [HTTPClient.static_login].

    Python values are modelled by the inductive [pyval]; a [dict] with string
    keys that is only read by key is an association list in insertion order.
    A coroutine is a tree of the operations it awaits ([prog]); the tree is
    run either alone against a scripted environment ([exec]) or interleaved
    with other coroutines by a timed event loop ([step]). *)

From Stdlib Require Import ZArith QArith List String Ascii Bool Lia.
From Stdlib Require Import DecimalString DecimalZ.
Import ListNotations.

Local Open Scope Z_scope.
Local Open Scope string_scope.

(** ** Strings *)

Module Str.

Fixpoint mem (c : ascii) (s : string) : bool :=
  match s with
  | EmptyString => false
  | String d s' => Ascii.eqb c d || mem c s'
  end.

Definition lower_char (c : ascii) : ascii :=
  let n := nat_of_ascii c in
  if (Nat.leb 65 n && Nat.leb n 90)%bool then ascii_of_nat (n + 32) else c.

Fixpoint lower (s : string) : string :=
  match s with
  | EmptyString => EmptyString
  | String c s' => String (lower_char c) (lower s')
  end.

(** [split c s]: the pieces of [s] between occurrences of [c], as
    [s.split(c)] gives them. *)
Fixpoint split (c : ascii) (s : string) : list string :=
  match s with
  | EmptyString => [EmptyString]
  | String d s' =>
      if Ascii.eqb d c then EmptyString :: split c s'
      else match split c s' with
           | [] => [String d EmptyString]
           | w :: ws => String d w :: ws
           end
  end.

Definition is_digit (c : ascii) : bool :=
  let n := nat_of_ascii c in (Nat.leb 48 n && Nat.leb n 57)%bool.

Definition is_alpha (c : ascii) : bool :=
  let n := nat_of_ascii c in
  ((Nat.leb 65 n && Nat.leb n 90) || (Nat.leb 97 n && Nat.leb n 122))%bool.

Definition hex_digit (n : nat) : ascii :=
  if Nat.ltb n 10 then ascii_of_nat (48 + n) else ascii_of_nat (55 + n).

(** [urllib.parse.quote(s, safe)]: every byte that is not a letter, a digit,
    one of [_.-~] or a byte of [safe] becomes [%XX] with upper-case digits. *)
Fixpoint quote (safe : string) (s : string) : string :=
  match s with
  | EmptyString => EmptyString
  | String c s' =>
      if (is_alpha c || is_digit c || mem c "_.-~" || mem c safe)%bool
      then String c (quote safe s')
      else let n := nat_of_ascii c in
           String "%" (String (hex_digit (n / 16)) (String (hex_digit (n mod 16))
                  (quote safe s')))
  end.

(** [str(n)] for a Python [int]. *)
Definition of_Z (n : Z) : string := NilZero.string_of_int (Z.to_int n).

End Str.

(** ** Python values and dictionaries *)

Definition dict (V : Type) : Type := list (string * V).

Module Dict.
Section Ops.
Context {V : Type}.

Fixpoint get (k : string) (d : dict V) : option V :=
  match d with
  | [] => None
  | (k', v) :: d' => if String.eqb k k' then Some v else get k d'
  end.

(** [d[k] = v]: the value of an existing key is replaced in place, a new key
    goes to the end. *)
Fixpoint set (k : string) (v : V) (d : dict V) : dict V :=
  match d with
  | [] => [(k, v)]
  | (k', v') :: d' =>
      if String.eqb k k' then (k, v) :: d' else (k', v') :: set k v d'
  end.

Definition is_empty (d : dict V) : bool :=
  match d with [] => true | _ => false end.

End Ops.
End Dict.

#[warnings="-register-all"]
Inductive pyval : Type :=
| PNone
| PInt (n : Z)
| PStr (s : string)
| PObj (repr : string) (attrs : dict pyval).

(** [d.get(k)]: [None] when the key is absent. *)
Definition py_get (k : string) (d : dict pyval) : pyval :=
  match Dict.get k d with Some v => v | None => PNone end.

(** [v.name]; [None] stands for [AttributeError].  Only objects carry the
    attributes the module reads ([id], [guild]). *)
Definition py_getattr (v : pyval) (name : string) : option pyval :=
  match v with
  | PObj _ attrs => Dict.get name attrs
  | _ => None
  end.

(** [format(v, '')], which is [str(v)]; an object carries its own text. *)
Definition py_str (v : pyval) : string :=
  match v with
  | PNone => "None"
  | PInt n => Str.of_Z n
  | PStr s => s
  | PObj repr _ => repr
  end.

(** ** [str.format] with keyword arguments, on the replacement fields the
    path templates of the module use: a keyword name followed by attribute
    accesses. *)

Module Format.

Fixpoint attrs_of (v : pyval) (names : list string) : option pyval :=
  match names with
  | [] => Some v
  | a :: names' =>
      match py_getattr v a with
      | Some v' => attrs_of v' names'
      | None => None
      end
  end.

Definition render_field (kw : dict pyval) (field : string) : option string :=
  match Str.split "." field with
  | [] => None
  | name :: attrs =>
      match name with
      | EmptyString => None
      | String c _ =>
          if Str.is_digit c then None
          else match Dict.get name kw with
               | Some v => option_map py_str (attrs_of v attrs)
               | None => None
               end
      end
  end.

Inductive mode : Type := Lit | Field (acc : string).

Fixpoint scan (kw : dict pyval) (t : string) (m : mode) : option string :=
  match t, m with
  | EmptyString, Lit => Some EmptyString
  | EmptyString, Field _ => None
  | String c t', Lit =>
      if Ascii.eqb c "{" then
        match t' with
        | String "{" t'' => option_map (String "{") (scan kw t'' Lit)
        | _ => scan kw t' (Field EmptyString)
        end
      else if Ascii.eqb c "}" then
        match t' with
        | String "}" t'' => option_map (String "}") (scan kw t'' Lit)
        | _ => None
        end
      else option_map (String c) (scan kw t' Lit)
  | String c t', Field acc =>
      if Ascii.eqb c "}" then
        match render_field kw acc, scan kw t' Lit with
        | Some s, Some rest => Some (s ++ rest)
        | _, _ => None
        end
      else if Str.mem c "{!:[]" then None
      else scan kw t' (Field (acc ++ String c EmptyString))
  end.

Definition format (t : string) (kw : dict pyval) : option string :=
  scan kw t Lit.

End Format.

(** ** class Route *)

Module Route.

Record t : Type := mk {
  path : string;
  method : string;
  url : string;
  channel : pyval;
  channel_id : pyval;
  guild_id : pyval
}.

Definition BASE : string := "https://discordapp.com/api/v7".

(** [{k: _uriquote(v) if isinstance(v, str) else v for k, v in ...}] *)
Definition quote_values (parameters : dict pyval) : dict pyval :=
  map (fun kv => (fst kv,
                  match snd kv with
                  | PStr s => PStr (Str.quote "/" s)
                  | v => v
                  end)) parameters.

(** The assignment under [try: ... except: pass]. *)
Definition with_channel_id (parameters : dict pyval) : dict pyval :=
  match py_getattr (py_get "channel" parameters) "id" with
  | Some i => Dict.set "channel_id" i parameters
  | None => parameters
  end.

Section Init.

(** [str.format], a builtin: [None] when it raises. *)
Variable str_format : string -> dict pyval -> option string.

(** [Route.__init__]; [None] when the call raises (out of [url.format]). *)
Definition init (method path : string) (parameters : dict pyval) : option t :=
  let url := BASE ++ path in
  let parameters := with_channel_id parameters in
  match (if Dict.is_empty parameters then Some url
         else str_format url (quote_values parameters)) with
  | Some url' =>
      Some {| path := path; method := method; url := url';
              channel := py_get "channel" parameters;
              channel_id := py_get "channel_id" parameters;
              guild_id := py_get "guild_id" parameters |}
  | None => None
  end.

End Init.

(** The [bucket] property. *)
Definition bucket (r : t) : string :=
  method r ++ ":" ++ py_str (channel_id r) ++ ":" ++ py_str (guild_id r)
    ++ ":" ++ path r.

(** The bucket key in the words of the specification: an absent major
    parameter contributes the empty string. *)
Definition or_empty (v : pyval) : string :=
  match v with PNone => EmptyString | _ => py_str v end.

Definition spec_bucket_key (r : t) : string :=
  method r ++ ":" ++ or_empty (channel_id r) ++ ":" ++ or_empty (guild_id r)
    ++ ":" ++ path r.

(** A major parameter that is absent or an integer (a snowflake). *)
Definition plain_id (v : pyval) : bool :=
  match v with PNone | PInt _ => true | _ => false end.

End Route.

(** ** Responses, decoded bodies and exceptions *)

(** What [json.loads] returns; a body that is not JSON is the [str] [JStr].
    A number is the [int] or the [float] that [json.loads] made of the
    literal, by its value: the two are not told apart, and the [inf] and
    [nan] of a float are not represented. *)
#[warnings="-register-all"]
Inductive json : Type :=
| JNull
| JBool (b : bool)
| JNum (q : Q)
| JStr (s : string)
| JArr (items : list json)
| JObj (fields : dict json).

(** An [aiohttp] response once its body has been read. *)
Record response : Type := mkResponse {
  status : Z;
  headers : list (string * string);
  body : string
}.

(** Response headers are a case-insensitive multi-dictionary: the first
    value of the name is the one read. *)
Fixpoint hdr_get (name : string) (hs : list (string * string)) : option string :=
  match hs with
  | [] => None
  | (k, v) :: hs' =>
      if String.eqb (Str.lower k) (Str.lower name) then Some v
      else hdr_get name hs'
  end.

Inductive exn : Type :=
| HTTPException (r : response) (data : json)
| Forbidden (r : response) (data : json)
| NotFound (r : response) (data : json)
| LoginFailure (msg : string) (cause : exn)
| KeyError (key : string)
| TypeError
| ValueError
| OverflowError
| AttributeError
| UnboundLocalError
| ClientError (msg : string).   (* raised by the transport ([aiohttp]) *)

Inductive result (A : Type) : Type :=
| Ok (a : A)
| Raise (e : exn).
Arguments Ok {A} a.
Arguments Raise {A} e.

(** Truth value of a decoded JSON value under [if]. *)
Definition py_truthy (v : json) : bool :=
  match v with
  | JNull => false
  | JBool b => b
  | JNum q => negb (Qeq_bool q 0)
  | JStr s => negb (String.eqb s EmptyString)
  | JArr items => match items with [] => false | _ => true end
  | JObj fields => match fields with [] => false | _ => true end
  end.

(** [data[key]] *)
Definition subscript (data : json) (key : string) : result json :=
  match data with
  | JObj fields =>
      match Dict.get key fields with
      | Some v => Ok v
      | None => Raise (KeyError key)
      end
  | _ => Raise TypeError
  end.

(** [data.get(key, False)] *)
Definition get_or_false (data : json) (key : string) : result json :=
  match data with
  | JObj fields =>
      match Dict.get key fields with
      | Some v => Ok v
      | None => Ok (JBool false)
      end
  | _ => Raise AttributeError
  end.

(** ** Python floats: IEEE 754 binary64, rounding to nearest, ties to even *)

Module Float.

(** [num / den] rounded to an integer, ties to even; [den] is positive. *)
Definition round_half_even (num den : Z) : Z :=
  let f := num / den in
  let rem := num mod den in
  if Z.ltb (2 * rem) den then f
  else if Z.ltb den (2 * rem) then f + 1
  else if Z.even f then f else f + 1.

(** [2 ^ k <= a / b], for positive [a] and [b]. *)
Definition above (a b k : Z) : bool :=
  if Z.leb 0 k then Z.leb (b * 2 ^ k) a else Z.leb b (a * 2 ^ (- k)).

(** The double nearest to [q]: 53 significant bits, and no bit below
    [2 ^ -1074]; the exponent is not bounded above here. *)
Definition nearest (q : Q) : Q :=
  let a := Z.abs (Qnum q) in
  let b := Zpos (Qden q) in
  if Z.eqb a 0 then 0%Q
  else
    let e0 := Z.log2 a - Z.log2 b in
    let e := if above a b e0 then e0 else e0 - 1 in
    let p := Z.max (e - 52) (-1074) in
    let m := if Z.leb 0 p then round_half_even a (b * 2 ^ p)
             else round_half_even (a * 2 ^ (- p)) b in
    let m := Z.sgn (Qnum q) * m in
    if Z.leb 0 p then inject_Z (m * 2 ^ p)
    else Qred (Qmake m (Z.to_pos (2 ^ (- p)))).

(** The largest double is [2^1024 - 2^971]; a number from
    [2^1024 - 2^970] on rounds beyond it. *)
Definition too_large (q : Q) : bool :=
  Qle_bool (inject_Z (2 ^ 1024 - 2 ^ 970)) (Qmake (Z.abs (Qnum q)) (Qden q)).

(** The operand of a float operation: a [float] as it is, an [int]
    converted.  A number beyond the doubles is an [int], and its conversion
    raises [OverflowError], for which [None] stands. *)
Definition of_number (q : Q) : option Q :=
  if too_large q then None else Some (nearest q).

(** [x / y] for a double [x] and a double [y] of magnitude at least 1. *)
Definition div (x y : Q) : Q := nearest (x / y).

End Float.

(** [v / 1000.0], a float division: the operand is converted to a float,
    which raises [OverflowError] for an [int] that is too large, and the
    quotient is rounded to a float; a [bool] is an [int], and anything else
    that [json.loads] returns raises [TypeError]. *)
Definition div_1000 (v : json) : result Q :=
  match v with
  | JNum q =>
      match Float.of_number q with
      | Some x => Ok (Float.div x 1000)
      | None => Raise OverflowError
      end
  | JBool b => Ok (Float.div (if b then 1 else 0) 1000)
  | _ => Raise TypeError
  end.

(** ** The operations a coroutine of this module awaits or calls on shared
    state, as a tree: every constructor but [Ret] is one operation together
    with what runs after it. *)

(** Keyword arguments handed to [session.request]. *)
Record send_kwargs : Type := mkSend {
  sk_headers : dict string;
  sk_proxy : option string;
  sk_proxy_auth : option string;
  sk_other : dict string
}.

Inductive prog (A : Type) : Type :=
| Ret (a : A)
| LocksGet (bucket : string) (k : option nat -> prog A)   (* self._locks.get(bucket) *)
| NewLock (k : nat -> prog A)                             (* asyncio.Lock(loop=self.loop) *)
| LocksSet (bucket : string) (lock : nat) (k : prog A)    (* self._locks[bucket] = lock *)
| GlobalIsSet (k : bool -> prog A)                        (* self._global_over.is_set() *)
| GlobalWait (k : prog A)                                 (* yield from self._global_over.wait() *)
| GlobalClear (k : prog A)                                (* self._global_over.clear() *)
| GlobalSet (k : prog A)                                  (* self._global_over.set() *)
| Acquire (lock : nat) (k : prog A)                       (* yield from lock *)
| Release (lock : nat) (k : prog A)                       (* lock.release() *)
| CallLater (delay : Q) (lock : nat) (k : prog A)         (* self.loop.call_later(delay, lock.release) *)
| SessionRequest (method url : string) (kw : send_kwargs)
    (k : result response -> prog A)                       (* yield from self._session.request(...) *)
| Sleep (d : Q) (k : prog A)                              (* yield from asyncio.sleep(d) *)
| RespRelease (r : response) (k : prog A).                (* yield from r.release() *)

Arguments Ret {A} a.
Arguments LocksGet {A} bucket k.
Arguments NewLock {A} k.
Arguments LocksSet {A} bucket lock k.
Arguments GlobalIsSet {A} k.
Arguments GlobalWait {A} k.
Arguments GlobalClear {A} k.
Arguments GlobalSet {A} k.
Arguments Acquire {A} lock k.
Arguments Release {A} lock k.
Arguments CallLater {A} delay lock k.
Arguments SessionRequest {A} method url kw k.
Arguments Sleep {A} d k.
Arguments RespRelease {A} r k.

Fixpoint bind {A B : Type} (p : prog A) (f : A -> prog B) : prog B :=
  match p with
  | Ret a => f a
  | LocksGet b k => LocksGet b (fun x => bind (k x) f)
  | NewLock k => NewLock (fun x => bind (k x) f)
  | LocksSet b l k => LocksSet b l (bind k f)
  | GlobalIsSet k => GlobalIsSet (fun x => bind (k x) f)
  | GlobalWait k => GlobalWait (bind k f)
  | GlobalClear k => GlobalClear (bind k f)
  | GlobalSet k => GlobalSet (bind k f)
  | Acquire l k => Acquire l (bind k f)
  | Release l k => Release l (bind k f)
  | CallLater d l k => CallLater d l (bind k f)
  | SessionRequest m u kw k => SessionRequest m u kw (fun x => bind (k x) f)
  | Sleep d k => Sleep d (bind k f)
  | RespRelease r k => RespRelease r (bind k f)
  end.

Declare Scope prog_scope.
Delimit Scope prog_scope with prog.
Notation "x <- p ;; q" := (bind p (fun x => q))
  (at level 61, p at next level, right associativity) : prog_scope.
Notation "' pat <- p ;; q" := (bind p (fun x => match x with pat => q end))
  (at level 61, pat pattern, p at next level, right associativity) : prog_scope.
Notation "p ;;; q" := (bind p (fun _ => q))
  (at level 61, right associativity) : prog_scope.

(** ** class MaybeUnlock *)

Module MaybeUnlock.

Record t : Type := mk { lock : nat; _unlock : bool }.

Definition init (lock : nat) : t := {| lock := lock; _unlock := true |}.

Definition defer (self : t) : t := {| lock := lock self; _unlock := false |}.

(** [__exit__] *)
Definition exit (self : t) : prog unit :=
  if _unlock self then Release (lock self) (Ret tt) else Ret tt.

End MaybeUnlock.

(** ** class HTTPClient *)

Module HTTPClient.

(** The attributes of the client that [request] and [static_login] read or
    assign.  [_locks] and [_global_over] are shared between coroutines and
    are reached through the operations of [prog]. *)
Record t : Type := mk {
  token : option string;
  bot_token : bool;
  _ack_token : option string;
  proxy : option string;
  proxy_auth : option string
}.

(** [HTTPClient.__init__] *)
Definition init (proxy proxy_auth : option string) : t :=
  {| token := None; bot_token := false; _ack_token := None;
     proxy := proxy; proxy_auth := proxy_auth |}.

(** The keyword arguments of [request]: [json=], [reason=] ([None] when the
    keyword is missing or is [None]: no header either way) and the ones
    handed on untouched ([data=], [params=]). *)
Record kwargs : Type := mkKwargs {
  kw_json : option json;
  kw_reason : option string;
  kw_other : dict string
}.

Definition no_kwargs : kwargs :=
  {| kw_json := None; kw_reason := None; kw_other := [] |}.

Definition USER_AGENT : string :=
  "Mozilla/5.0 (Windows NT 10.0; WOW64) AppleWebKit/537.36 (KHTML, like Gecko) discord/0.0.179 Chrome/58.0.3029.110 Discord Canary/1.7.9 Safari/537.36".

Definition SUPER_PROPERTIES : string :=
  "eyJvcyI6IldpbmRvd3MiLCJicm93c2VyIjoiRGlzY29yZCBDbGllbnQiLCJyZWxlYXNlX2NoYW5uZWwiOiJjYW5hcnkiLCJjbGllbnRfdmVyc2lvbiI6IjAuMC4xNzkiLCJvc192ZXJzaW9uIjoiMTAuMC4xNTA2MyJ9".

Definition CHANNELS : string := "https://canary.discordapp.com/channels/".

(** The names bound at module level. *)
Definition module_globals : list string :=
  ["aiohttp"; "asyncio"; "json"; "sys"; "logging"; "weakref"; "datetime";
   "_uriquote"; "log"; "HTTPException"; "Forbidden"; "NotFound";
   "LoginFailure"; "GatewayNotFound"; "__version__"; "utils"; "json_or_text";
   "Route"; "MaybeUnlock"; "HTTPClient"].

(** The local names of [request] when the headers are built.  Only
    [channel] is read there; the others stand for their objects. *)
Definition request_locals (route : Route.t) : dict pyval :=
  [("self", PObj "<HTTPClient>" []);
   ("route", PObj "<Route>" []);
   ("header_bypass_delay", PNone);
   ("kwargs", PObj "<dict>" []);
   ("bucket", PStr (Route.bucket route));
   ("method", PStr (Route.method route));
   ("url", PStr (Route.url route));
   ("channel", Route.channel route);
   ("lock", PObj "<Lock>" [])].

(** Reading a name: locals, then module globals; [None] is [NameError]. *)
Definition name_lookup (locals : dict pyval) (name : string) : option pyval :=
  match Dict.get name locals with
  | Some v => Some v
  | None =>
      if existsb (String.eqb name) module_globals
      then Some (PObj name []) else None
  end.

Definition obind {A B : Type} (o : option A) (f : A -> option B) : option B :=
  match o with Some a => f a | None => None end.

Definition base_headers (referer : string) : dict string :=
  [("User-Agent", USER_AGENT); ("referer", referer);
   ("x-super-properties", SUPER_PROPERTIES)].

(** The first f-string: [channel.guild.id] and [channel.id]. *)
Definition channel_referer (locals : dict pyval) : option string :=
  obind (name_lookup locals "channel") (fun channel =>
  obind (py_getattr channel "guild") (fun guild =>
  obind (py_getattr guild "id") (fun gid =>
  obind (py_getattr channel "id") (fun cid =>
  Some (CHANNELS ++ py_str gid ++ "/" ++ py_str cid))))).

(** The second f-string: [guild.id]. *)
Definition guild_referer (locals : dict pyval) : option string :=
  obind (name_lookup locals "guild") (fun guild =>
  obind (py_getattr guild "id") (fun gid =>
  Some (CHANNELS ++ py_str gid))).

(** The nested [try]/[except] that builds [headers]: a bare [except]
    catches whatever the f-string raised. *)
Definition header_creation (locals : dict pyval) : dict string :=
  match channel_referer locals with
  | Some referer => base_headers referer
  | None =>
      match guild_referer locals with
      | Some referer => base_headers referer
      | None => base_headers (CHANNELS ++ "@me")
      end
  end.

Inductive ctl : Type :=
| Return (data : json)
| Continue (data : json)   (* [continue]; [data] stays bound after the loop *)
| Throw (e : exn).

Definition range (n : nat) : list Z := map Z.of_nat (seq 0 n).

Section Request.

(** [json.loads]; [None] when it raises. *)
Variable json_loads : string -> option json.
(** [utils._parse_ratelimit_header] and [utils.to_json], which are not among
    the sources: the first gives the delay until the bucket resets, in
    seconds, or raises (it reads headers of the response). *)
Variable _parse_ratelimit_header : response -> result Q.
Variable to_json : json -> string.

(** [json_or_text]; the body has been read with the response. *)
Definition json_or_text (r : response) : result json :=
  let text := body r in
  match hdr_get "content-type" (headers r) with
  | None => Raise (KeyError "content-type")
  | Some ct =>
      if String.eqb ct "application/json" then
        match json_loads text with
        | Some v => Ok v
        | None => Raise ValueError
        end
      else Ok (JStr text)
  end.

(** Everything [request] does before it waits: headers and keyword
    arguments of [session.request]. *)
Definition send_kwargs_of (self : t) (route : Route.t) (kw : kwargs) : send_kwargs :=
  let headers := header_creation (request_locals route) in
  let headers :=
    match token self with
    | Some tok =>
        Dict.set "Authorization" (if bot_token self then "Bot " ++ tok else tok) headers
    | None => headers
    end in
  let '(headers, other) :=
    match kw_json kw with
    | Some j => (Dict.set "Content-Type" "application/json" headers,
                 Dict.set "data" (to_json j) (kw_other kw))
    | None => (headers, kw_other kw)
    end in
  let headers :=
    match kw_reason kw with
    | Some reason =>
        if String.eqb reason EmptyString then headers
        else Dict.set "X-Audit-Log-Reason" (Str.quote "/ " reason) headers
    | None => headers
    end in
  {| sk_headers := headers; sk_proxy := proxy self;
     sk_proxy_auth := proxy_auth self; sk_other := other |}.

Section Loop.

Variable header_bypass_delay : option Q.
Variables (method url : string) (kw : send_kwargs).

(** [remaining == '0' and r.status != 429] *)
Definition bucket_exhausted (r : response) : bool :=
  (match hdr_get "X-Ratelimit-Remaining" (headers r) with
   | Some remaining => String.eqb remaining "0"
   | None => false
   end && negb (Z.eqb (status r) 429))%bool.

(** [delta], when computing it does not raise. *)
Definition release_delay (r : response) : result Q :=
  match header_bypass_delay with
  | None => _parse_ratelimit_header r
  | Some d => Ok d
  end.

(** The rate limit header check of an attempt: [maybe_lock] after it, or
    the exception of [utils._parse_ratelimit_header], raised before
    anything is deferred. *)
Definition ratelimit_check (r : response) (maybe_lock : MaybeUnlock.t)
  : prog (result MaybeUnlock.t) :=
  if bucket_exhausted r then
    match release_delay r with
    | Raise e => Ret (Raise e)
    | Ok delta =>
        let maybe_lock' := MaybeUnlock.defer maybe_lock in
        CallLater delta (MaybeUnlock.lock maybe_lock) (Ret (Ok maybe_lock'))
    end
  else Ret (Ok maybe_lock).

(** The handling of a 429: sleep [retry_after], around it the global flag
    when the body says [global]. *)
Definition rate_limited (data : json) (maybe_lock : MaybeUnlock.t)
  : prog (MaybeUnlock.t * ctl) :=
  match (match subscript data "retry_after" with
         | Ok v => div_1000 v
         | Raise e => Raise e
         end) with
  | Raise e => Ret (maybe_lock, Throw e)
  | Ok retry_after =>
    match get_or_false data "global" with
    | Raise e => Ret (maybe_lock, Throw e)
    | Ok g =>
      let is_global := py_truthy g in
      ((if is_global then GlobalClear (Ret tt) else Ret tt) ;;;
       Sleep retry_after (Ret tt) ;;;
       (if is_global then GlobalSet (Ret tt) else Ret tt) ;;;
       Ret (maybe_lock, Continue data))%prog
    end
  end.

(** What the status of the response decides, once the body is decoded. *)
Definition status_dispatch (tries : Z) (r : response) (data : json)
    (maybe_lock : MaybeUnlock.t) : prog (MaybeUnlock.t * ctl) :=
  if (Z.leb 200 (status r) && Z.ltb (status r) 300)%bool then
    Ret (maybe_lock, Return data)
  else if Z.eqb (status r) 429 then rate_limited data maybe_lock
  else if (Z.eqb (status r) 500 || Z.eqb (status r) 502)%bool then
    Sleep (inject_Z (1 + tries * 2)) (Ret (maybe_lock, Continue data))
  else if Z.eqb (status r) 403 then Ret (maybe_lock, Throw (Forbidden r data))
  else if Z.eqb (status r) 404 then Ret (maybe_lock, Throw (NotFound r data))
  else Ret (maybe_lock, Throw (HTTPException r data)).

(** The body of [try:] for the response [r] of attempt [tries]. *)
Definition try_block (tries : Z) (r : response) (maybe_lock : MaybeUnlock.t)
  : prog (MaybeUnlock.t * ctl) :=
  match json_or_text r with
  | Raise e => Ret (maybe_lock, Throw e)
  | Ok data =>
    (checked <- ratelimit_check r maybe_lock ;;
     match checked with
     | Raise e => Ret (maybe_lock, Throw e)
     | Ok maybe_lock => status_dispatch tries r data maybe_lock
     end)%prog
  end.

(** [for tries in range(5): ...] followed by the [raise] after the loop;
    [last] is the pair of locals [r], [data] of the previous iteration. *)
Fixpoint attempts (tries_range : list Z) (maybe_lock : MaybeUnlock.t)
    (last : option (response * json)) : prog (MaybeUnlock.t * result json) :=
  match tries_range with
  | [] =>
      Ret (maybe_lock,
           Raise (match last with
                  | Some (r, data) => HTTPException r data
                  | None => UnboundLocalError
                  end))
  | tries :: rest =>
      SessionRequest method url kw (fun reply =>
        match reply with
        | Raise e => Ret (maybe_lock, Raise e)
        | Ok r =>
            (x <- try_block tries r maybe_lock ;;
             RespRelease r
               (match snd x with
                | Return data => Ret (fst x, Ok data)
                | Throw e => Ret (fst x, Raise e)
                | Continue data => attempts rest (fst x) (Some (r, data))
                end))%prog
        end)
  end.

End Loop.

(** [HTTPClient.request] *)
Definition request (self : t) (route : Route.t) (header_bypass_delay : option Q)
    (kw : kwargs) : prog (result json) :=
  let bucket := Route.bucket route in
  let method := Route.method route in
  let url := Route.url route in
  (lock <- LocksGet bucket (fun l =>
             match l with
             | Some lock => Ret lock
             | None => NewLock (fun lock => LocksSet bucket lock (Ret lock))
             end) ;;
   let skw := send_kwargs_of self route kw in
   GlobalIsSet (fun is_set =>
     (if is_set then Ret tt else GlobalWait (Ret tt)) ;;;
     Acquire lock (
       x <- attempts header_bypass_delay method url skw (range 5)
              (MaybeUnlock.init lock) None ;;
       MaybeUnlock.exit (fst x) ;;;
       Ret (snd x))))%prog.

(** [HTTPClient._token] *)
Definition _token (self : t) (token : option string) (bot : bool) : t :=
  {| token := token; bot_token := bot; _ack_token := None;
     proxy := proxy self; proxy_auth := proxy_auth self |}.

(** [discord/errors.py] is not among the sources: whether [Forbidden] and
    [NotFound] derive from [HTTPException] is left open. *)
Variables Forbidden_derives NotFound_derives : bool.

(** [isinstance(e, HTTPException)] *)
Definition is_HTTPException (e : exn) : bool :=
  match e with
  | HTTPException _ _ => true
  | Forbidden _ _ => Forbidden_derives
  | NotFound _ _ => NotFound_derives
  | _ => false
  end.

(** [e.response.status] for an exception built from a response. *)
Definition response_status (e : exn) : option Z :=
  match e with
  | HTTPException r _ | Forbidden r _ | NotFound r _ => Some (status r)
  | _ => None
  end.

(** [e.response.status == code] *)
Definition status_is (e : exn) (code : Z) : bool :=
  match response_status e with
  | Some s => Z.eqb s code
  | None => false
  end.

Definition users_me : Route.t :=
  {| Route.path := "/users/@me"; Route.method := "GET";
     Route.url := Route.BASE ++ "/users/@me";
     Route.channel := PNone; Route.channel_id := PNone;
     Route.guild_id := PNone |}.

(** [HTTPClient.static_login]: the client after the call and what the call
    returns or raises. *)
Definition static_login (self : t) (token : string) (bot : bool)
  : prog (t * result json) :=
  let old_token := HTTPClient.token self in
  let old_bot := bot_token self in
  let self := _token self (Some token) bot in
  (out <- request self users_me None no_kwargs ;;
   match out with
   | Ok data => Ret (self, Ok data)
   | Raise e =>
       if is_HTTPException e then
         let self := _token self old_token old_bot in
         if status_is e 401 then
           Ret (self, Raise (LoginFailure "Improper token has been passed." e))
         else Ret (self, Raise e)
       else Ret (self, Raise e)
   end)%prog.

End Request.

End HTTPClient.

(** ** One coroutine run on its own

    [exec] runs a tree against a scripted environment and records every
    operation in order.  The environment says what the lock table holds for
    the bucket, which lock is created, whether the global flag is set, and
    what the transport answers to the n-th [session.request]. *)

Inductive event : Type :=
| EvLocksGet (bucket : string) (found : option nat)
| EvNewLock (lock : nat)
| EvLocksSet (bucket : string) (lock : nat)
| EvGlobalIsSet (is_set : bool)
| EvGlobalWait
| EvGlobalClear
| EvGlobalSet
| EvAcquire (lock : nat)
| EvRelease (lock : nat)
| EvCallLater (delay : Q) (lock : nat)
| EvRequest (method url : string) (kw : send_kwargs) (reply : result response)
| EvSleep (d : Q)
| EvRespRelease (r : response).

Record env : Type := mkEnv {
  e_lock : option nat;
  e_fresh : nat;
  e_flag : bool;
  e_replies : nat -> result response
}.

Record run (A : Type) : Type := mkRun {
  trace : list event;
  value : A;
  sent : nat          (* how many requests have been sent so far *)
}.
Arguments mkRun {A} trace value sent.
Arguments trace {A} r.
Arguments value {A} r.
Arguments sent {A} r.

Definition logged {A : Type} (ev : event) (r : run A) : run A :=
  mkRun (ev :: trace r) (value r) (sent r).

Fixpoint exec {A : Type} (e : env) (n : nat) (p : prog A) : run A :=
  match p with
  | Ret a => mkRun [] a n
  | LocksGet b k => logged (EvLocksGet b (e_lock e)) (exec e n (k (e_lock e)))
  | NewLock k => logged (EvNewLock (e_fresh e)) (exec e n (k (e_fresh e)))
  | LocksSet b l k => logged (EvLocksSet b l) (exec e n k)
  | GlobalIsSet k => logged (EvGlobalIsSet (e_flag e)) (exec e n (k (e_flag e)))
  | GlobalWait k => logged EvGlobalWait (exec e n k)
  | GlobalClear k => logged EvGlobalClear (exec e n k)
  | GlobalSet k => logged EvGlobalSet (exec e n k)
  | Acquire l k => logged (EvAcquire l) (exec e n k)
  | Release l k => logged (EvRelease l) (exec e n k)
  | CallLater d l k => logged (EvCallLater d l) (exec e n k)
  | SessionRequest m u kw k =>
      logged (EvRequest m u kw (e_replies e n)) (exec e (S n) (k (e_replies e n)))
  | Sleep d k => logged (EvSleep d) (exec e n k)
  | RespRelease r k => logged (EvRespRelease r) (exec e n k)
  end.

(** The lock the request works with under [e]. *)
Definition lock_of (e : env) : nat :=
  match e_lock e with Some l => l | None => e_fresh e end.

Definition is_request (ev : event) : bool :=
  match ev with EvRequest _ _ _ _ => true | _ => false end.

Definition is_release (ev : event) : bool :=
  match ev with EvRelease _ => true | _ => false end.

Definition is_call_later (ev : event) : bool :=
  match ev with EvCallLater _ _ => true | _ => false end.

(** ** The event loop: coroutines interleaved under a clock

    A coroutine runs without interruption until it has to wait: for the
    global flag, for a lock that is held, for the transport, or for a sleep.
    [settle] runs it that far against the shared state.  The lock table is
    kept as it is written; an entry whose lock nothing refers to any more
    holds an unlocked lock, which is what a new lock would be. *)

Module Loop.

Record task : Type := mkTask {
  t_bucket : string;
  t_code : prog (result json);
  t_wake : Q                 (* when the pending sleep ends *)
}.

Record world : Type := mkWorld {
  now : Q;
  global_over : bool;        (* self._global_over *)
  locks : dict nat;          (* self._locks *)
  fresh : nat;
  locked : list nat;         (* the locks that are held *)
  timers : list (Q * nat);   (* pending call_later(delay, lock.release) *)
  tasks : list task
}.

Definition initial : world :=
  {| now := 0; global_over := true; locks := []; fresh := O; locked := [];
     timers := []; tasks := [] |}.

Definition is_locked (l : nat) (w : world) : bool :=
  existsb (Nat.eqb l) (locked w).

Definition set_global (b : bool) (w : world) : world :=
  {| now := now w; global_over := b; locks := locks w; fresh := fresh w;
     locked := locked w; timers := timers w; tasks := tasks w |}.

Definition set_locks (d : dict nat) (w : world) : world :=
  {| now := now w; global_over := global_over w; locks := d; fresh := fresh w;
     locked := locked w; timers := timers w; tasks := tasks w |}.

Definition bump_fresh (w : world) : world :=
  {| now := now w; global_over := global_over w; locks := locks w;
     fresh := S (fresh w); locked := locked w; timers := timers w;
     tasks := tasks w |}.

Definition set_locked (ls : list nat) (w : world) : world :=
  {| now := now w; global_over := global_over w; locks := locks w;
     fresh := fresh w; locked := ls; timers := timers w; tasks := tasks w |}.

Definition set_timers (ts : list (Q * nat)) (w : world) : world :=
  {| now := now w; global_over := global_over w; locks := locks w;
     fresh := fresh w; locked := locked w; timers := ts; tasks := tasks w |}.

Definition set_tasks (ts : list task) (w : world) : world :=
  {| now := now w; global_over := global_over w; locks := locks w;
     fresh := fresh w; locked := locked w; timers := timers w; tasks := ts |}.

Definition set_now (t : Q) (w : world) : world :=
  {| now := t; global_over := global_over w; locks := locks w;
     fresh := fresh w; locked := locked w; timers := timers w;
     tasks := tasks w |}.

Definition acquire (l : nat) (w : world) : world :=
  set_locked (l :: locked w) w.

(** [lock.release()]; on a lock that is not held [asyncio] raises
    [RuntimeError] and the lock stays free. *)
Definition release (l : nat) (w : world) : world :=
  set_locked (filter (fun x => negb (Nat.eqb x l)) (locked w)) w.

Fixpoint settle {A : Type} (w : world) (p : prog A) : world * prog A :=
  match p with
  | Ret _ => (w, p)
  | LocksGet b k => settle w (k (Dict.get b (locks w)))
  | NewLock k => settle (bump_fresh w) (k (fresh w))
  | LocksSet b l k => settle (set_locks (Dict.set b l (locks w)) w) k
  | GlobalIsSet k => settle w (k (global_over w))
  | GlobalWait k => if global_over w then settle w k else (w, p)
  | GlobalClear k => settle (set_global false w) k
  | GlobalSet k => settle (set_global true w) k
  | Acquire l k => if is_locked l w then (w, p) else settle (acquire l w) k
  | Release l k => settle (release l w) k
  | CallLater d l k => settle (set_timers (timers w ++ [((now w + d)%Q, l)]) w) k
  | SessionRequest _ _ _ _ => (w, p)
  | Sleep _ _ => (w, p)
  | RespRelease _ k => settle w k
  end.

(** What a suspended coroutine waits for. *)
Definition in_flight {A : Type} (p : prog A) : bool :=
  match p with SessionRequest _ _ _ _ => true | _ => false end.

Definition at_global_wait {A : Type} (p : prog A) : bool :=
  match p with GlobalWait _ => true | _ => false end.

Definition wake_time {A : Type} (w : world) (p : prog A) : Q :=
  match p with Sleep d _ => (now w + d)%Q | _ => 0%Q end.

Definition suspended (bucket : string) (w : world) (p : prog (result json)) : task :=
  {| t_bucket := bucket; t_code := p; t_wake := wake_time w p |}.

Fixpoint replace_nth {A : Type} (i : nat) (x : A) (l : list A) : list A :=
  match l, i with
  | [], _ => []
  | _ :: l', O => x :: l'
  | y :: l', S i' => y :: replace_nth i' x l'
  end.

Fixpoint remove_nth {A : Type} (i : nat) (l : list A) : list A :=
  match l, i with
  | [], _ => []
  | _ :: l', O => l'
  | y :: l', S i' => y :: remove_nth i' l'
  end.

Inductive action : Type :=
| Spawn (self : HTTPClient.t) (route : Route.t) (bypass : option Q)
    (kw : HTTPClient.kwargs)          (* a caller starts request(...) *)
| Resume (i : nat)                    (* the loop runs coroutine i again *)
| Reply (i : nat) (reply : result response)   (* the transport answers i *)
| Fire (j : nat)                      (* timer j is due and runs *)
| Tick (t : Q).                       (* time passes until t *)

Section Step.

Variable json_loads : string -> option json.
Variable _parse_ratelimit_header : response -> result Q.
Variable to_json : json -> string.

Definition continue_task (i : nat) (t : task) (w : world)
    (p : prog (result json)) : world :=
  let '(w', p') := settle w p in
  set_tasks (replace_nth i (suspended (t_bucket t) w' p') (tasks w')) w'.

(** No deadline lies strictly before [t]. *)
Definition nothing_due_before (t : Q) (w : world) : bool :=
  (forallb (fun tk => match t_code tk with
                      | Sleep _ _ => Qle_bool t (t_wake tk)
                      | _ => true
                      end) (tasks w)
   && forallb (fun tm => Qle_bool t (fst tm)) (timers w))%bool.

Definition step (a : action) (w : world) : option world :=
  match a with
  | Spawn self route bypass kw =>
      let '(w', p') :=
        settle w (HTTPClient.request json_loads _parse_ratelimit_header to_json
                    self route bypass kw) in
      Some (set_tasks (tasks w' ++ [suspended (Route.bucket route) w' p']) w')
  | Resume i =>
      match nth_error (tasks w) i with
      | Some t =>
          match t_code t with
          | Sleep _ k =>
              if Qle_bool (t_wake t) (now w) then Some (continue_task i t w k)
              else None
          | GlobalWait k =>
              if global_over w then Some (continue_task i t w k) else None
          | Acquire l k =>
              if is_locked l w then None
              else Some (continue_task i t (acquire l w) k)
          | _ => None
          end
      | None => None
      end
  | Reply i reply =>
      match nth_error (tasks w) i with
      | Some t =>
          match t_code t with
          | SessionRequest _ _ _ k => Some (continue_task i t w (k reply))
          | _ => None
          end
      | None => None
      end
  | Fire j =>
      match nth_error (timers w) j with
      | Some (due, l) =>
          if Qle_bool due (now w)
          then Some (release l (set_timers (remove_nth j (timers w)) w))
          else None
      | None => None
      end
  | Tick t =>
      if (Qle_bool (now w) t && nothing_due_before t w)%bool
      then Some (set_now t w) else None
  end.

Fixpoint steps (acts : list action) (w : world) : option world :=
  match acts with
  | [] => Some w
  | a :: acts' =>
      match step a w with
      | Some w' => steps acts' w'
      | None => None
      end
  end.

End Step.

(** What each coroutine of [w] is waiting for. *)
Inductive waiting : Type :=
| Done (out : result json)
| ForFlag
| ForLock (lock : nat)
| InFlight
| Asleep (until : Q)
| Ready.

Definition state_of (t : task) : waiting :=
  match t_code t with
  | Ret out => Done out
  | GlobalWait _ => ForFlag
  | Acquire l _ => ForLock l
  | SessionRequest _ _ _ _ => InFlight
  | Sleep _ _ => Asleep (t_wake t)
  | _ => Ready
  end.

Definition picture (w : world) : list (string * waiting) :=
  map (fun t => (t_bucket t, state_of t)) (tasks w).

(** The coroutines of [w] whose request on [bucket] is with the transport. *)
Definition in_flight_on (bucket : string) (w : world) : nat :=
  List.length (filter (fun t => (String.eqb (t_bucket t) bucket
                                 && in_flight (t_code t))%bool) (tasks w)).

End Loop.

(** ** Stand-ins for the library functions, to run the model on inputs *)

Module Sample.

Definition dq : string := String (ascii_of_nat 34) EmptyString.

(** The text of a JSON object with integer and boolean members. *)
Definition body_rate_limited : string :=
  "{" ++ dq ++ "retry_after" ++ dq ++ ": 500}".

Definition body_rate_limited_global : string :=
  "{" ++ dq ++ "retry_after" ++ dq ++ ": 5000, " ++ dq ++ "global" ++ dq ++ ": true}".

Definition body_user : string :=
  "{" ++ dq ++ "id" ++ dq ++ ": 80351110224678912}".

(** [json.loads] on the bodies above; anything else does not parse. *)
Definition json_loads (text : string) : option json :=
  if String.eqb text body_rate_limited then
    Some (JObj [("retry_after", JNum 500)])
  else if String.eqb text body_rate_limited_global then
    Some (JObj [("retry_after", JNum 5000); ("global", JBool true)])
  else if String.eqb text body_user then
    Some (JObj [("id", JNum 80351110224678912)])
  else None.

(** The header [name] read as a number of seconds; a missing header
    raises [KeyError] and one that is no number [ValueError]. *)
Definition seconds_of (name : string) (r : response) : result Z :=
  match hdr_get name (headers r) with
  | Some s =>
      match NilZero.int_of_string s with
      | Some d => Ok (Z.of_int d)
      | None => Raise ValueError
      end
  | None => Raise (KeyError name)
  end.

(** The reset time minus the date of the response; the date is read
    first. *)
Definition _parse_ratelimit_header (r : response) : result Q :=
  match seconds_of "Date" r with
  | Raise e => Raise e
  | Ok now =>
      match seconds_of "X-Ratelimit-Reset" r with
      | Raise e => Raise e
      | Ok reset => Ok (inject_Z (reset - now))
      end
  end.

Definition to_json (v : json) : string :=
  match v with
  | JNull => "null"
  | JBool true => "true"
  | JBool false => "false"
  | _ => "{}"
  end.

Definition json_headers : list (string * string) :=
  [("Content-Type", "application/json")].

Definition html_headers : list (string * string) :=
  [("Content-Type", "text/html")].

Definition client : HTTPClient.t := HTTPClient.init None None.

Definition request := HTTPClient.request json_loads _parse_ratelimit_header to_json.

Definition static_login :=
  HTTPClient.static_login json_loads _parse_ratelimit_header to_json true true.

Definition step := Loop.step json_loads _parse_ratelimit_header to_json.
Definition steps := Loop.steps json_loads _parse_ratelimit_header to_json.

(** Every request is answered by [r]. *)
Definition always (r : result response) : env :=
  {| e_lock := None; e_fresh := O; e_flag := true; e_replies := fun _ => r |}.

(** The requests are answered by [rs] in turn, then by [r]. *)
Definition script (rs : list (result response)) (r : result response) : env :=
  {| e_lock := None; e_fresh := O; e_flag := true;
     e_replies := fun n => nth n rs r |}.

End Sample.

(** ** Reading a run *)

Section Reading.

Local Open Scope list_scope.

Definition count_requests (tr : list event) : nat :=
  List.length (filter is_request tr).

Definition exit_events (maybe_lock : MaybeUnlock.t) : list event :=
  if MaybeUnlock._unlock maybe_lock
  then [EvRelease (MaybeUnlock.lock maybe_lock)] else [].

(** What [request] does before the loop. *)
Definition entry_events (e : env) (bucket : string) : list event :=
  EvLocksGet bucket (e_lock e)
  :: match e_lock e with
     | Some _ => []
     | None => [EvNewLock (e_fresh e); EvLocksSet bucket (e_fresh e)]
     end
  ++ EvGlobalIsSet (e_flag e)
  :: (if e_flag e then [] else [EvGlobalWait])
  ++ [EvAcquire (lock_of e)].

(** The events around the sleep of a 429. *)
Definition global_window (is_global : bool) (d : Q) : list event :=
  (if is_global then [EvGlobalClear] else [])
  ++ EvSleep d :: (if is_global then [EvGlobalSet] else []).

(** [data.get('global', False)] under [if]. *)
Definition is_global (fields : dict json) : bool :=
  match Dict.get "global" fields with
  | Some v => py_truthy v
  | None => false
  end.

(** What attempt [i] of a request decides, from the body of its [try:]. *)
Definition attempt_decides (e : env) (i : nat) (m u : string) (skw : send_kwargs)
    (R : run (result json)) (r : response) (pre : list event)
    (T : run (MaybeUnlock.t * HTTPClient.ctl)) : Prop :=
  match snd (value T) with
  | HTTPClient.Return d =>
      trace R = pre ++ EvRequest m u skw (Ok r) :: trace T
                  ++ EvRespRelease r :: exit_events (fst (value T))
      /\ value R = Ok d /\ sent R = S i
  | HTTPClient.Throw x =>
      trace R = pre ++ EvRequest m u skw (Ok r) :: trace T
                  ++ EvRespRelease r :: exit_events (fst (value T))
      /\ value R = Raise x /\ sent R = S i
  | HTTPClient.Continue d =>
      exists post,
        trace R = pre ++ EvRequest m u skw (Ok r) :: trace T
                    ++ EvRespRelease r :: post
        /\ ((i < 4)%nat ->
            (S i < sent R)%nat
            /\ exists tl, post = EvRequest m u skw (e_replies e (S i)) :: tl)
        /\ (i = 4%nat ->
            value R = Raise (HTTPException r d) /\ sent R = 5%nat
            /\ post = exit_events (fst (value T)))
  end.

(** [maybe_lock] after the rate limit header check of [r], when the check
    does not raise. *)
Definition after_check (r : response) (mu : MaybeUnlock.t) : MaybeUnlock.t :=
  if HTTPClient.bucket_exhausted r then MaybeUnlock.defer mu else mu.

(** The errors [request] raises out of a status. *)
Definition api_error (x : exn) : bool :=
  match x with
  | HTTPException _ _ | Forbidden _ _ | NotFound _ _ => true
  | _ => false
  end.

(** The [referer] a route gets. *)
Definition referer (route : Route.t) : string :=
  match py_getattr (Route.channel route) "guild" with
  | Some guild =>
      match py_getattr guild "id", py_getattr (Route.channel route) "id" with
      | Some gid, Some cid =>
          (HTTPClient.CHANNELS ++ py_str gid ++ "/" ++ py_str cid)%string
      | _, _ => (HTTPClient.CHANNELS ++ "@me")%string
      end
  | None => (HTTPClient.CHANNELS ++ "@me")%string
  end.

Definition login_failure (cause : exn) : exn :=
  LoginFailure "Improper token has been passed." cause.

End Reading.

(** What the loop expects of a response. *)
Module Shape.
Section Defs.

Variable json_loads : string -> option json.
Variable _parse_ratelimit_header : response -> result Q.

(** What the rate limit header check of a response schedules. *)
Definition defer_events (bypass : option Q) (r : response) (lock : nat) : list event :=
  if HTTPClient.bucket_exhausted r then
    match HTTPClient.release_delay _parse_ratelimit_header bypass r with
    | Ok delta => [EvCallLater delta lock]
    | Raise _ => []
    end
  else [].

(** The rate limit header check of [r] does not raise: the bucket is not
    exhausted, or the caller gave a delay, or
    [utils._parse_ratelimit_header] returns one. *)
Definition delay_known (bypass : option Q) (r : response) : bool :=
  (negb (HTTPClient.bucket_exhausted r)
   || match HTTPClient.release_delay _parse_ratelimit_header bypass r with
      | Ok _ => true
      | Raise _ => false
      end)%bool.

(** The responses the loop is written for: the body decodes, the delay of
    an exhausted bucket is known, and the body of a 429 is an object whose
    [retry_after] can be divided. *)
Definition in_shape (bypass : option Q) (r : response) : Prop :=
  exists data,
    HTTPClient.json_or_text json_loads r = Ok data
    /\ delay_known bypass r = true
    /\ (status r = 429 ->
        exists fields v q,
          data = JObj fields /\ Dict.get "retry_after" fields = Some v
          /\ div_1000 v = Ok q).

End Defs.
End Shape.

(** ** Sample runs *)

Module Runs.

Import Sample.

Definition ok_exhausted : response :=
  mkResponse 200 (("X-Ratelimit-Remaining", "0") :: html_headers) "ok".

Definition rate_limited_500 : response :=
  mkResponse 429 json_headers body_rate_limited.

Definition user_200 : response := mkResponse 200 json_headers body_user.

Definition bad_gateway : response := mkResponse 502 html_headers "Bad Gateway".

Definition unauthorized : response := mkResponse 401 html_headers "401: Unauthorized".

(** A response without body and without content type, its bucket
    exhausted. *)
Definition no_content : response :=
  mkResponse 204 [("X-Ratelimit-Remaining", "0")] EmptyString.

(** The body of [rate_limited_500] under a content type with a charset. *)
Definition rate_limited_charset : response :=
  mkResponse 429 [("Content-Type", "application/json; charset=utf-8")]
    body_rate_limited.

(** A bare 502. *)
Definition bad_gateway_bare : response := mkResponse 502 [] EmptyString.

Definition connection_lost : exn := ClientError "Cannot connect to host".

Definition me : Route.t := HTTPClient.users_me.

Definition run_of (bypass : option Q) (e : env) : run (result json) :=
  exec e 0 (request client me bypass HTTPClient.no_kwargs).

Definition sent_to_me (reply : result response) : event :=
  EvRequest "GET" "https://discordapp.com/api/v7/users/@me"
    (HTTPClient.send_kwargs_of to_json client me HTTPClient.no_kwargs) reply.

End Runs.

Module Concurrent.

Import Sample.

Definition channel : pyval :=
  PObj "<TextChannel>" [("id", PInt 111); ("guild", PObj "<Guild>" [("id", PInt 7)])].

(** The route of [add_reaction], which is sent with
    [header_bypass_delay=0.25]. *)
Definition add_reaction : option Route.t :=
  Route.init Format.format "PUT"
    "/channels/{channel.id}/messages/{message_id}/reactions/{emoji}/@me"
    [("channel", channel); ("message_id", PInt 222); ("emoji", PStr "ok")].

Definition reaction : Route.t :=
  Eval vm_compute in
    match add_reaction with Some r => r | None => HTTPClient.users_me end.

Definition exhausted_bad_gateway : response :=
  mkResponse 502 (("X-Ratelimit-Remaining", "0") :: html_headers) "Bad Gateway".

Definition global_limit : response :=
  mkResponse 429 json_headers body_rate_limited_global.

Definition react : Loop.action :=
  Loop.Spawn client reaction (Some (1 # 4)) HTTPClient.no_kwargs.

Definition get_me : Loop.action :=
  Loop.Spawn client HTTPClient.users_me None HTTPClient.no_kwargs.

(** Two reactions on one channel; the first is answered 502 with an
    exhausted bucket. *)
Definition overlap : list Loop.action :=
  [react; react;
   Loop.Reply 0 (Ok exhausted_bad_gateway);
   Loop.Tick (1 # 4); Loop.Fire 0; Loop.Resume 1;
   Loop.Tick 1; Loop.Resume 0].

(** A reaction and a request on another bucket; the second is answered 502
    and backs off, then the first is told of a global rate limit. *)
Definition window : list Loop.action :=
  [react; get_me;
   Loop.Reply 1 (Ok Runs.bad_gateway);
   Loop.Reply 0 (Ok global_limit);
   Loop.Tick 1].

Definition look (acts : list Loop.action) : option (bool * list (string * Loop.waiting)) :=
  option_map (fun w => (Loop.global_over w, Loop.picture w))
    (steps acts Loop.initial).

End Concurrent.

(** ** Reading a run: the lock, the responses, the flag *)

Section Events.

Local Open Scope list_scope.

Definition is_acquire (ev : event) : bool :=
  match ev with EvAcquire _ => true | _ => false end.

Definition touches_flag (ev : event) : bool :=
  match ev with EvGlobalClear | EvGlobalSet => true | _ => false end.

(** The responses the transport gave to a run, in order. *)
Fixpoint received (tr : list event) : list response :=
  match tr with
  | [] => []
  | EvRequest _ _ _ (Ok r) :: tr' => r :: received tr'
  | _ :: tr' => received tr'
  end.

(** The responses a run released, in order. *)
Fixpoint released (tr : list event) : list response :=
  match tr with
  | [] => []
  | EvRespRelease r :: tr' => r :: released tr'
  | _ :: tr' => released tr'
  end.

(** The events of the body of [try:]: it sends nothing, takes and releases
    no lock and releases no response. *)
Definition inner (ev : event) : bool :=
  match ev with
  | EvCallLater _ _ | EvGlobalClear | EvSleep _ | EvGlobalSet => true
  | _ => false
  end.

(** The operations that read the global flag or wait for it. *)
Definition reads_flag (ev : event) : bool :=
  match ev with EvGlobalIsSet _ | EvGlobalWait => true | _ => false end.

(** The operations of the lock lookup at the head of [request]. *)
Definition looks_up_lock (ev : event) : bool :=
  match ev with
  | EvLocksGet _ _ | EvNewLock _ | EvLocksSet _ _ => true
  | _ => false
  end.

(** No operation of [p], whatever its operations are answered, reads the
    global flag or waits for it. *)
Fixpoint past_flag {A : Type} (p : prog A) : Prop :=
  match p with
  | Ret _ => True
  | LocksGet _ k => forall found, past_flag (k found)
  | NewLock k => forall lock, past_flag (k lock)
  | LocksSet _ _ k => past_flag k
  | GlobalIsSet _ => False
  | GlobalWait _ => False
  | GlobalClear k => past_flag k
  | GlobalSet k => past_flag k
  | Acquire _ k => past_flag k
  | Release _ k => past_flag k
  | CallLater _ _ k => past_flag k
  | SessionRequest _ _ _ k => forall reply, past_flag (k reply)
  | Sleep _ k => past_flag k
  | RespRelease _ k => past_flag k
  end.

(** [json_or_text] returns for the response. *)
Definition decodes (json_loads : string -> option json) (r : response) : bool :=
  match HTTPClient.json_or_text json_loads r with
  | Ok _ => true
  | Raise _ => false
  end.

(** The exception of the last [if]/[elif]/[else] of the loop. *)
Definition error_of_status (r : response) (data : json) : exn :=
  if Z.eqb (status r) 403 then Forbidden r data
  else if Z.eqb (status r) 404 then NotFound r data
  else HTTPException r data.

(** A parameter as [url.format] writes it into the URL. *)
Definition in_url (v : pyval) : string :=
  match v with
  | PStr s => Str.quote "/" s
  | _ => py_str v
  end.

(** What [quote] writes: letters, digits, the marks it never escapes, the
    characters of [safe], and the percent sign of an escape. *)
Definition unreserved (safe : string) (c : ascii) : bool :=
  (Str.is_alpha c || Str.is_digit c || Str.mem c "_.-~" || Str.mem c safe
   || Ascii.eqb c "%")%bool.

(** [payload] holds the items of [options] under the keys of [valid_keys]
    and nothing else. *)
Definition restricted (valid_keys : list string) (options payload : dict json) : Prop :=
  forall k,
    Dict.get k payload
    = if existsb (String.eqb k) valid_keys then Dict.get k options else None.

End Events.

(** ** The methods of [HTTPClient] that are built on [request] or on the
    session *)

Module Endpoints.

(** What a method hands to [self.request]: the route, [header_bypass_delay]
    and the other keyword arguments. *)
Record call : Type := mkCall {
  c_route : Route.t;
  c_bypass : option Q;
  c_kwargs : HTTPClient.kwargs
}.

(** [Route(method, path, **parameters)] *)
Definition Route_ (method path : string) (parameters : dict pyval) : option Route.t :=
  Route.init Format.format method path parameters.

(** [Route(method, path)]: without parameters the URL is not formatted. *)
Definition plain (method path : string) : Route.t :=
  {| Route.path := path; Route.method := method;
     Route.url := Route.BASE ++ path;
     Route.channel := PNone; Route.channel_id := PNone;
     Route.guild_id := PNone |}.

(** [r.url = url] *)
Definition set_url (r : Route.t) (url : string) : Route.t :=
  {| Route.path := Route.path r; Route.method := Route.method r;
     Route.url := url;
     Route.channel := Route.channel r; Route.channel_id := Route.channel_id r;
     Route.guild_id := Route.guild_id r |}.

Definition json_kwargs (payload : json) (reason : option string) : HTTPClient.kwargs :=
  {| HTTPClient.kw_json := Some payload; HTTPClient.kw_reason := reason;
     HTTPClient.kw_other := [] |}.

(** [{k: v for k, v in options.items() if k in valid_keys}] *)
Definition only_keys (valid_keys : list string) (options : dict json) : dict json :=
  filter (fun kv => existsb (String.eqb (fst kv)) valid_keys) options.

(** [HTTPClient.edit_group] *)
Definition edit_group (channel : pyval) (options : dict json) : option call :=
  let valid_keys := ["name"; "icon"] in
  let payload := only_keys valid_keys options in
  match Route_ "PATCH" "/channels/{channel.id}" [("channel", channel)] with
  | Some r => Some (mkCall r None (json_kwargs (JObj payload) None))
  | None => None
  end.

(** [HTTPClient.edit_channel] *)
Definition edit_channel (channel : pyval) (reason : option string)
    (options : dict json) : option call :=
  match Route_ "PATCH" "/channels/{channel.id}" [("channel", channel)] with
  | Some r =>
      let valid_keys := ["name"; "parent_id"; "topic"; "bitrate"; "nsfw";
                         "user_limit"; "position"; "permission_overwrites"] in
      let payload := only_keys valid_keys options in
      Some (mkCall r None (json_kwargs (JObj payload) reason))
  | None => None
  end.

(** [HTTPClient.edit_guild] *)
Definition edit_guild (guild_id : pyval) (reason : option string)
    (fields : dict json) : option call :=
  let valid_keys := ["name"; "region"; "icon"; "afk_timeout"; "owner_id";
                     "afk_channel_id"; "splash"; "verification_level";
                     "system_channel_id"] in
  let payload := only_keys valid_keys fields in
  match Route_ "PATCH" "/guilds/{guild_id}" [("guild_id", guild_id)] with
  | Some r => Some (mkCall r None (json_kwargs (JObj payload) reason))
  | None => None
  end.

(** [HTTPClient.edit_role] *)
Definition edit_role (guild_id role_id : pyval) (reason : option string)
    (fields : dict json) : option call :=
  match Route_ "PATCH" "/guilds/{guild_id}/roles/{role_id}"
          [("guild_id", guild_id); ("role_id", role_id)] with
  | Some r =>
      let valid_keys := ["name"; "permissions"; "color"; "hoist"; "mentionable"] in
      let payload := only_keys valid_keys fields in
      Some (mkCall r None (json_kwargs (JObj payload) reason))
  | None => None
  end.

(** The payload of [send_message]: a field is there when its argument is
    true under [if]. *)
Definition message_payload (content tts embed nonce : json) : dict json :=
  let payload := [] in
  let payload := if py_truthy content then Dict.set "content" content payload
                 else payload in
  let payload := if py_truthy tts then Dict.set "tts" (JBool true) payload
                 else payload in
  let payload := if py_truthy embed then Dict.set "embed" embed payload
                 else payload in
  let payload := if py_truthy nonce then Dict.set "nonce" nonce payload
                 else payload in
  payload.

(** [HTTPClient.send_message] *)
Definition send_message (channel : pyval) (content tts embed nonce : json)
  : option call :=
  match Route_ "POST" "/channels/{channel.id}/messages" [("channel", channel)] with
  | Some r =>
      Some (mkCall r None
              (json_kwargs (JObj (message_payload content tts embed nonce)) None))
  | None => None
  end.

(** [HTTPClient.kick]: [reason] is [None] or a [str]. *)
Definition kick (user_id guild_id : pyval) (reason : option string) : option call :=
  match Route_ "DELETE" "/guilds/{guild_id}/members/{user_id}"
          [("guild_id", guild_id); ("user_id", user_id)] with
  | Some r =>
      let r :=
        match reason with
        | Some reason =>
            if String.eqb reason EmptyString then r
            else set_url r (Route.url r ++ "?reason=" ++ Str.quote "/" reason)
        | None => r
        end in
      Some (mkCall r None HTTPClient.no_kwargs)
  | None => None
  end.

(** [HTTPClient.get_invite] *)
Definition get_invite (invite_id : pyval) : option call :=
  match Route_ "GET" "/invite/{invite_id}" [("invite_id", invite_id)] with
  | Some r => Some (mkCall r None HTTPClient.no_kwargs)
  | None => None
  end.

(** A field of an [aiohttp.FormData]. *)
Record form_field : Type := mkField {
  f_name : string;
  f_value : string;
  f_filename : option string;
  f_content_type : option string
}.

(** [for index, (buffer, filename) in enumerate(files): ...], from [index]
    on. *)
Fixpoint numbered_files (index : nat) (files : list (string * string))
  : list form_field :=
  match files with
  | [] => []
  | (buffer, filename) :: files' =>
      mkField ("file" ++ Str.of_Z (Z.of_nat index)) buffer (Some filename)
        (Some "application/octet-stream")
      :: numbered_files (S index) files'
  end.

(** The payload of [send_files]. *)
Definition files_payload (content tts embed nonce : json) : dict json :=
  let payload := [("tts", tts)] in
  let payload := if py_truthy content then Dict.set "content" content payload
                 else payload in
  let payload := if py_truthy embed then Dict.set "embed" embed payload
                 else payload in
  let payload := if py_truthy nonce then Dict.set "nonce" nonce payload
                 else payload in
  payload.

(** What a call of [get_gateway] or [get_bot_gateway] ends with. *)
Inductive outcome (A : Type) : Type :=
| Returns (a : A)
| Raises (e : exn)
| RaisesGatewayNotFound (cause : exn).   (* raise GatewayNotFound() from e *)
Arguments Returns {A} a.
Arguments Raises {A} e.
Arguments RaisesGatewayNotFound {A} cause.

Section Calls.

Variable json_loads : string -> option json.
Variable _parse_ratelimit_header : response -> result Q.
Variable to_json : json -> string.

(** The form [send_files] builds and hands to [request] as [data=]; a file
    is a pair of its content and its name. *)
Definition files_form (files : list (string * string))
    (content tts embed nonce : json) : list form_field :=
  mkField "payload_json" (to_json (JObj (files_payload content tts embed nonce)))
    None None
  :: match files with
     | [fp] => [mkField "file" (fst fp) (Some (snd fp))
                  (Some "application/octet-stream")]
     | _ => numbered_files 0 files
     end.

(** [self.request(route, header_bypass_delay=..., **kwargs)] *)
Definition send (self : HTTPClient.t) (c : call) : prog (result json) :=
  HTTPClient.request json_loads _parse_ratelimit_header to_json
    self (c_route c) (c_bypass c) (c_kwargs c).

(** [session.get(url)] is [session.request('GET', url)]: the client adds no
    header and no proxy. *)
Definition bare : send_kwargs :=
  {| sk_headers := []; sk_proxy := None; sk_proxy_auth := None; sk_other := [] |}.

(** [HTTPClient.get_attachment]; [resp.read()] gives the body. *)
Definition get_attachment (self : HTTPClient.t) (url : string)
  : prog (result string) :=
  SessionRequest "GET" url bare (fun reply =>
    match reply with
    | Raise e => Ret (Raise e)
    | Ok resp =>
        RespRelease resp
          (Ret (if Z.eqb (status resp) 200 then Ok (body resp)
                else if Z.eqb (status resp) 404 then
                  Raise (NotFound resp (JStr "attachment not found"))
                else if Z.eqb (status resp) 403 then
                  Raise (Forbidden resp (JStr "cannot retrieve attachment"))
                else Raise (HTTPException resp (JStr "failed to get attachment"))))
    end).

Variables Forbidden_derives NotFound_derives : bool.

(** [str] of a decoded value that is not a [str], a builtin. *)
Variable py_repr : json -> string.

(** [format(v, '')] for a decoded value. *)
Definition json_str (v : json) : string :=
  match v with JStr s => s | _ => py_repr v end.

(** [value.format(url, encoding, v)] for the [value] that [zlib] chooses. *)
Definition gateway_format (zlib : bool) (url : json) (encoding v : pyval) : string :=
  if zlib then
    json_str url ++ "?encoding=" ++ py_str encoding ++ "&v=" ++ py_str v
      ++ "&compress=zlib-stream"
  else json_str url ++ "?encoding=" ++ py_str encoding ++ "&v=" ++ py_str v.

(** The handler [except HTTPException as e: raise GatewayNotFound() from e]
    around [data = yield from self.request(route)], and what follows the
    [try] on [data]. *)
Definition handled {A : Type} (k : json -> outcome A) (out : result json)
  : outcome A :=
  match out with
  | Ok data => k data
  | Raise e =>
      if HTTPClient.is_HTTPException Forbidden_derives NotFound_derives e
      then RaisesGatewayNotFound e
      else Raises e
  end.

Definition gateway_data {A : Type} (self : HTTPClient.t) (route : Route.t)
    (k : json -> outcome A) : prog (outcome A) :=
  (out <- HTTPClient.request json_loads _parse_ratelimit_header to_json
            self route None HTTPClient.no_kwargs ;;
   Ret (handled k out))%prog.

(** [HTTPClient.get_gateway] *)
Definition get_gateway (self : HTTPClient.t) (encoding v : pyval) (zlib : bool)
  : prog (outcome string) :=
  gateway_data self (plain "GET" "/gateway") (fun data =>
    match subscript data "url" with
    | Ok url => Returns (gateway_format zlib url encoding v)
    | Raise e => Raises e
    end).

(** [HTTPClient.get_bot_gateway] *)
Definition get_bot_gateway (self : HTTPClient.t) (encoding v : pyval) (zlib : bool)
  : prog (outcome (json * string)) :=
  gateway_data self (plain "GET" "/gateway/bot") (fun data =>
    match subscript data "shards" with
    | Ok shards =>
        match subscript data "url" with
        | Ok url => Returns (shards, gateway_format zlib url encoding v)
        | Raise e => Raises e
        end
    | Raise e => Raises e
    end).

End Calls.

End Endpoints.

(** ** The part of [request] under the lock *)

Section Held.

Variable json_loads : string -> option json.
Variable _parse_ratelimit_header : response -> result Q.
Variable to_json : json -> string.

(** What [request] does once it holds [lock]: the loop inside
    [with MaybeUnlock(lock) as maybe_lock]. *)
Definition with_lock (self : HTTPClient.t) (route : Route.t)
    (header_bypass_delay : option Q) (kw : HTTPClient.kwargs) (lock : nat)
  : prog (result json) :=
  (x <- HTTPClient.attempts json_loads _parse_ratelimit_header
          header_bypass_delay (Route.method route) (Route.url route)
          (HTTPClient.send_kwargs_of to_json self route kw) (HTTPClient.range 5)
          (MaybeUnlock.init lock) None ;;
   MaybeUnlock.exit (fst x) ;;;
   Ret (snd x))%prog.

(** A new call is made. *)
Definition is_spawn (a : Loop.action) : bool :=
  match a with Loop.Spawn _ _ _ _ => true | _ => false end.

(** The lock a call on [bucket] works with in the world [w]. *)
Definition lock_for (bucket : string) (w : Loop.world) : nat :=
  match Dict.get bucket (Loop.locks w) with
  | Some l => l
  | None => Loop.fresh w
  end.

End Held.

(** ** Sample calls of the other methods *)

Module Calls.

Import Sample.

Definition body_gateway : string :=
  "{" ++ dq ++ "url" ++ dq ++ ": " ++ dq ++ "wss://gateway.discord.gg" ++ dq ++ "}".

Definition body_bot_gateway : string :=
  "{" ++ dq ++ "url" ++ dq ++ ": " ++ dq ++ "wss://gateway.discord.gg" ++ dq
    ++ ", " ++ dq ++ "shards" ++ dq ++ ": 2}".

(** [json.loads] on the bodies above and on those of [Sample]. *)
Definition json_loads (text : string) : option json :=
  if String.eqb text body_gateway then
    Some (JObj [("url", JStr "wss://gateway.discord.gg")])
  else if String.eqb text body_bot_gateway then
    Some (JObj [("url", JStr "wss://gateway.discord.gg"); ("shards", JNum 2)])
  else Sample.json_loads text.

(** [str] of the constants. *)
Definition py_repr (v : json) : string :=
  match v with
  | JNull => "None"
  | JBool true => "True"
  | JBool false => "False"
  | _ => "..."
  end.

Definition gateway : response := mkResponse 200 json_headers body_gateway.

(** A page served in place of the answer. *)
Definition ok_text : response := mkResponse 200 html_headers "ok".

Definition bot_gateway : response := mkResponse 200 json_headers body_bot_gateway.

Definition get_gateway :=
  Endpoints.get_gateway json_loads _parse_ratelimit_header to_json true true py_repr.

Definition get_bot_gateway :=
  Endpoints.get_bot_gateway json_loads _parse_ratelimit_header to_json true true
    py_repr.

Definition options : dict json :=
  [("name", JStr "general"); ("type", JNum 0); ("topic", JStr "welcome")].

(** Two calls of [add_reaction] on one channel, the first answered by
    [reply]. *)
Definition two_reactions (reply : response) : list Loop.action :=
  [Concurrent.react; Concurrent.react; Loop.Reply 0 (Ok reply)].

End Calls.

(** * Properties *)

Example route_users_me :
  option_map Route.bucket (Route.init Format.format "GET" "/users/@me" [])
  = Some "GET:None:None:/users/@me".
Proof. reflexivity. Qed.

Example route_channel_messages :
  let ch := PObj "<TextChannel>" [("id", PInt 111); ("guild", PObj "<Guild>" [("id", PInt 7)])] in
  option_map (fun r => (Route.url r, Route.bucket r))
    (Route.init Format.format "POST" "/channels/{channel.id}/messages/{message_id}"
       [("channel", ch); ("message_id", PStr "a b")])
  = Some ("https://discordapp.com/api/v7/channels/111/messages/a%20b",
          "POST:111:None:/channels/{channel.id}/messages/{message_id}").
Proof. reflexivity. Qed.

Example users_me_is_the_route :
  forall f, Route.init f "GET" "/users/@me" [] = Some HTTPClient.users_me.
Proof. reflexivity. Qed.

(** ** Bucket keys *)

Section BucketKeys.

Lemma append_cancel_l (a x y : string) : a ++ x = a ++ y -> x = y.
Proof.
  induction a as [|c a IH]; simpl; intros H; [exact H|].
  injection H as H. auto.
Qed.

(** Two texts without [c], each followed by [c], split a string the same
    way. *)
Lemma split_at_first (c : ascii) (a b x y : string) :
  Str.mem c a = false -> Str.mem c b = false ->
  a ++ String c x = b ++ String c y -> a = b /\ x = y.
Proof.
  revert b. induction a as [|d a IH]; intros [|d' b]; simpl; intros Ha Hb H.
  - injection H as H. auto.
  - injection H as Hc _. subst d'. rewrite Ascii.eqb_refl in Hb. discriminate.
  - injection H as Hc _. subst d. rewrite Ascii.eqb_refl in Ha. discriminate.
  - injection H as Hd H. subst d'.
    apply orb_false_elim in Ha as [_ Ha]. apply orb_false_elim in Hb as [_ Hb].
    destruct (IH b Ha Hb H) as [-> ->]. auto.
Qed.

Lemma digits_only (c : ascii) (d : Decimal.uint) :
  Str.is_digit c = false -> Str.mem c (NilEmpty.string_of_uint d) = false.
Proof.
  intros Hc. induction d; simpl; auto; rewrite IHd, orb_false_r;
    match goal with
    | |- Ascii.eqb c ?k = false =>
        destruct (Ascii.eqb_spec c k); [subst; discriminate | reflexivity]
    end.
Qed.

Lemma of_Z_chars (c : ascii) (n : Z) :
  Str.is_digit c = false -> Ascii.eqb c "-" = false ->
  Str.mem c (Str.of_Z n) = false.
Proof.
  intros Hd Hm. unfold Str.of_Z.
  destruct n as [|p|p]; simpl.
  - destruct (Ascii.eqb_spec c "0"); [subst; discriminate | reflexivity].
  - unfold NilZero.string_of_uint.
    destruct (Pos.to_uint p) eqn:E; try (rewrite <- E; apply digits_only; assumption).
    now apply DecimalPos.Unsigned.to_uint_nonnil in E.
  - rewrite Hm. simpl. unfold NilZero.string_of_uint.
    destruct (Pos.to_uint p) eqn:E; try (rewrite <- E; apply digits_only; assumption).
    now apply DecimalPos.Unsigned.to_uint_nonnil in E.
Qed.

Lemma of_Z_inj (a b : Z) : Str.of_Z a = Str.of_Z b -> a = b.
Proof.
  unfold Str.of_Z. intros H.
  assert (Hn : forall z, Z.to_int z <> Decimal.Pos Decimal.Nil
                         /\ Z.to_int z <> Decimal.Neg Decimal.Nil).
  { intros [|p|p]; simpl; split; try discriminate; intros E; injection E as E;
      now apply DecimalPos.Unsigned.to_uint_nonnil in E. }
  apply (f_equal NilZero.int_of_string) in H.
  rewrite !NilZero.isi in H by apply Hn.
  injection H as H. apply (f_equal Z.of_int) in H.
  now rewrite !DecimalZ.of_to in H.
Qed.

Lemma plain_id_no_colon (v : pyval) :
  Route.plain_id v = true -> Str.mem ":" (py_str v) = false.
Proof.
  destruct v; simpl; try discriminate; intros _; [reflexivity|].
  apply of_Z_chars; reflexivity.
Qed.

Lemma plain_id_inj (v v' : pyval) :
  Route.plain_id v = true -> Route.plain_id v' = true ->
  py_str v = py_str v' -> v = v'.
Proof.
  destruct v, v'; simpl; try discriminate; intros _ _ H; auto.
  - pose proof (of_Z_chars "N" n eq_refl eq_refl) as Hn.
    rewrite <- H in Hn. discriminate.
  - pose proof (of_Z_chars "N" n eq_refl eq_refl) as Hn.
    rewrite H in Hn. discriminate.
  - f_equal. now apply of_Z_inj.
Qed.

Lemma get_set_same {V : Type} (k : string) (v : V) (d : dict V) :
  Dict.get k (Dict.set k v d) = Some v.
Proof.
  induction d as [|[k' v'] d IH]; simpl.
  - now rewrite String.eqb_refl.
  - destruct (String.eqb k k') eqn:E; simpl; rewrite ?String.eqb_refl, ?E; auto.
Qed.

Lemma get_set_other {V : Type} (k k0 : string) (v : V) (d : dict V) :
  String.eqb k0 k = false ->
  Dict.get k0 (Dict.set k v d) = Dict.get k0 d.
Proof.
  intros Hk. induction d as [|[k' v'] d IH]; simpl.
  - now rewrite Hk.
  - destruct (String.eqb k k') eqn:E; simpl.
    + apply String.eqb_eq in E. subst k'. now rewrite Hk.
    + now rewrite IH.
Qed.

(** What [Route.__init__] stores, when it returns. *)
Lemma init_fields f method path ps r :
  Route.init f method path ps = Some r ->
  Route.method r = method /\ Route.path r = path
  /\ Route.channel_id r =
       match py_getattr (py_get "channel" ps) "id" with
       | Some i => i
       | None => py_get "channel_id" ps
       end
  /\ Route.guild_id r = py_get "guild_id" ps.
Proof.
  unfold Route.init. intros H.
  destruct (if Dict.is_empty (Route.with_channel_id ps) then _ else _); [|discriminate].
  injection H as <-. simpl. repeat split.
  - unfold Route.with_channel_id.
    destruct (py_getattr (py_get "channel" ps) "id"); [|reflexivity].
    unfold py_get. now rewrite get_set_same.
  - unfold Route.with_channel_id.
    destruct (py_getattr (py_get "channel" ps) "id"); [|reflexivity].
    unfold py_get. now rewrite get_set_other.
Qed.

End BucketKeys.

(** C1, as the code has it.  The bucket key of a constructed route is
    [method:channel_id:guild_id:path] over the path template as given, where
    [channel_id] is the [id] of the [channel] parameter when it has one and
    the [channel_id] parameter otherwise, [guild_id] is the [guild_id]
    parameter, and an absent one is written [None] (not left empty).  Routes
    of one method and template with the same two major parameters have the
    same key whatever else they were built from; when the major parameters
    are integers or absent, routes that differ in one of them have different
    keys. *)
Theorem bucket_of_major_parameters :
  forall f method path ps r,
    Route.init f method path ps = Some r ->
    Route.bucket r
      = method ++ ":" ++ py_str (Route.channel_id r) ++ ":"
          ++ py_str (Route.guild_id r) ++ ":" ++ path
    /\ Route.channel_id r =
         match py_getattr (py_get "channel" ps) "id" with
         | Some i => i
         | None => py_get "channel_id" ps
         end
    /\ Route.guild_id r = py_get "guild_id" ps
    /\ py_str PNone = "None"
    /\ (forall f' ps' r',
          Route.init f' method path ps' = Some r' ->
          Route.channel_id r' = Route.channel_id r ->
          Route.guild_id r' = Route.guild_id r ->
          Route.bucket r' = Route.bucket r)
    /\ (forall f' ps' r',
          Route.init f' method path ps' = Some r' ->
          Route.plain_id (Route.channel_id r) = true ->
          Route.plain_id (Route.guild_id r) = true ->
          Route.plain_id (Route.channel_id r') = true ->
          Route.plain_id (Route.guild_id r') = true ->
          Route.channel_id r' <> Route.channel_id r
          \/ Route.guild_id r' <> Route.guild_id r ->
          Route.bucket r' <> Route.bucket r).
Proof.
  intros f method path ps r H.
  destruct (init_fields _ _ _ _ _ H) as (Hm & Hp & Hc & Hg).
  split; [unfold Route.bucket; now rewrite Hm, Hp|].
  split; [exact Hc|]. split; [exact Hg|]. split; [reflexivity|]. split.
  - intros f' ps' r' H' Ec Eg.
    destruct (init_fields _ _ _ _ _ H') as (Hm' & Hp' & _ & _).
    unfold Route.bucket. now rewrite Hm, Hp, Hm', Hp', Ec, Eg.
  - intros f' ps' r' H' P1 P2 P3 P4 Hne E.
    destruct (init_fields _ _ _ _ _ H') as (Hm' & Hp' & _ & _).
    unfold Route.bucket in E. rewrite Hm, Hp, Hm', Hp' in E.
    apply append_cancel_l in E.
    change (":" ++ ?x) with (String ":" x) in E.
    injection E as E.
    apply split_at_first in E; try now apply plain_id_no_colon.
    destruct E as [E1 E2].
    apply split_at_first in E2; try now apply plain_id_no_colon.
    destruct E2 as [E2 _].
    apply plain_id_inj in E1; auto. apply plain_id_inj in E2; auto.
    destruct Hne as [Hne|Hne]; contradiction.
Qed.

Lemma bucket_of_major_parameters_witness :
  let ch := PObj "<TextChannel>" [("id", PInt 111)] in
  let ps := [("channel", ch); ("message_id", PInt 5)] in
  let path := "/channels/{channel.id}/messages/{message_id}" in
  exists r, Route.init Format.format "DELETE" path ps = Some r
    /\ Route.bucket r = "DELETE:111:None:/channels/{channel.id}/messages/{message_id}".
Proof.
  simpl.
  eexists. split; [reflexivity|].
  match goal with
  | |- Route.bucket ?r = _ =>
      pose proof (bucket_of_major_parameters Format.format "DELETE"
        "/channels/{channel.id}/messages/{message_id}"
        [("channel", PObj "<TextChannel>" [("id", PInt 111)]); ("message_id", PInt 5)]
        r eq_refl) as [Hb _]
  end.
  rewrite Hb. reflexivity.
Defined.

(** C1 as stated fails: a route without major parameters has the key
    [GET:None:None:/users/@me], not the one with empty fields; and two routes
    of one method and template whose major parameters are strings with a
    colon differ in both parameters and share a key. *)
Lemma bucket_key_as_specified_fails :
  (exists r, Route.init Format.format "GET" "/users/@me" [] = Some r
     /\ Route.spec_bucket_key r = "GET:::/users/@me"
     /\ Route.bucket r <> Route.spec_bucket_key r)
  /\ (exists r1 r2,
        Route.init Format.format "GET" "/channels/{channel_id}/pins"
          [("channel_id", PStr "1:2"); ("guild_id", PStr "3")] = Some r1
        /\ Route.init Format.format "GET" "/channels/{channel_id}/pins"
          [("channel_id", PStr "1"); ("guild_id", PStr "2:3")] = Some r2
        /\ Route.channel_id r1 <> Route.channel_id r2
        /\ Route.guild_id r1 <> Route.guild_id r2
        /\ Route.bucket r1 = Route.bucket r2).
Proof.
  split.
  - eexists. split; [reflexivity|]. split; [reflexivity|]. discriminate.
  - do 2 eexists. split; [reflexivity|]. split; [reflexivity|].
    split; [discriminate|]. split; [discriminate|]. reflexivity.
Qed.

(** ** Runs of the request loop *)

Local Open Scope list_scope.

Section RequestRuns.

Variable json_loads : string -> option json.
Variable _parse_ratelimit_header : response -> result Q.
Variable to_json : json -> string.

Local Abbreviation json_or_text := (HTTPClient.json_or_text json_loads).
Local Abbreviation request := (HTTPClient.request json_loads _parse_ratelimit_header to_json).
Local Abbreviation send_kwargs_of := (HTTPClient.send_kwargs_of to_json).
Local Abbreviation ratelimit_check := (HTTPClient.ratelimit_check _parse_ratelimit_header).
Local Abbreviation try_block := (HTTPClient.try_block json_loads _parse_ratelimit_header).
Local Abbreviation attempts := (HTTPClient.attempts json_loads _parse_ratelimit_header).
Local Abbreviation defer_events := (Shape.defer_events _parse_ratelimit_header).
Local Abbreviation in_shape := (Shape.in_shape json_loads _parse_ratelimit_header).
Local Abbreviation delay_known := (Shape.delay_known _parse_ratelimit_header).

Lemma exec_bind {A B : Type} (e : env) (p : prog A) (f : A -> prog B) :
  forall n,
    exec e n (bind p f) =
      let r1 := exec e n p in
      let r2 := exec e (sent r1) (f (value r1)) in
      mkRun (trace r1 ++ trace r2) (value r2) (sent r2).
Proof.
  induction p; intros n0; simpl;
    try (rewrite ?H, ?IHp; reflexivity).
  destruct (exec e n0 (f a)); reflexivity.
Qed.

Lemma exec_exit e n maybe_lock :
  exec e n (MaybeUnlock.exit maybe_lock) = mkRun (exit_events maybe_lock) tt n.
Proof.
  unfold MaybeUnlock.exit, exit_events.
  destruct (MaybeUnlock._unlock maybe_lock); reflexivity.
Qed.

Lemma exec_request self route bypass kw e :
  let L := exec e 0 (attempts bypass (Route.method route) (Route.url route)
                       (send_kwargs_of self route kw) (HTTPClient.range 5)
                       (MaybeUnlock.init (lock_of e)) None) in
  exec e 0 (request self route bypass kw)
  = mkRun (entry_events e (Route.bucket route) ++ trace L
             ++ exit_events (fst (value L)))
          (snd (value L)) (sent L).
Proof.
  unfold HTTPClient.request, entry_events, lock_of.
  Opaque HTTPClient.attempts HTTPClient.range.
  destruct e as [el ef eg er]; simpl.
  destruct el as [l|], eg; simpl; unfold logged; simpl;
    rewrite exec_bind; simpl; rewrite exec_bind, exec_exit; simpl;
    rewrite <- ?app_assoc, ?app_nil_r; reflexivity.
  Transparent HTTPClient.attempts HTTPClient.range.
Qed.

Section Loop.

Variable bypass : option Q.
Variables (method url : string) (kw : send_kwargs).
Variable e : env.

Local Abbreviation loop := (attempts bypass method url kw).
Local Abbreviation body := (try_block bypass).

Lemma ratelimit_check_sent n r mu :
  sent (exec e n (ratelimit_check bypass r mu)) = n.
Proof.
  unfold HTTPClient.ratelimit_check, HTTPClient.release_delay.
  repeat match goal with
         | |- context [match ?x with _ => _ end] => destruct x
         | |- context [if ?x then _ else _] => destruct x
         end; reflexivity.
Qed.

Lemma try_block_sent n tries r mu : sent (exec e n (body tries r mu)) = n.
Proof.
  unfold HTTPClient.try_block.
  destruct (json_or_text r); [|reflexivity].
  rewrite exec_bind. cbv zeta. simpl sent. rewrite ratelimit_check_sent.
  unfold HTTPClient.status_dispatch, HTTPClient.rate_limited.
  repeat match goal with
         | |- context [match ?x with _ => _ end] => destruct x
         | |- context [if ?x then _ else _] => destruct x
         end; reflexivity.
Qed.

(** One iteration of the [for] loop. *)
Lemma attempts_cons n tries rest mu last :
  exec e n (loop (tries :: rest) mu last) =
    match e_replies e n with
    | Raise ex => mkRun [EvRequest method url kw (Raise ex)] (mu, Raise ex) (S n)
    | Ok r =>
        let T := exec e (S n) (body tries r mu) in
        match snd (value T) with
        | HTTPClient.Return d =>
            mkRun (EvRequest method url kw (Ok r) :: trace T ++ [EvRespRelease r])
                  (fst (value T), Ok d) (S n)
        | HTTPClient.Throw x =>
            mkRun (EvRequest method url kw (Ok r) :: trace T ++ [EvRespRelease r])
                  (fst (value T), Raise x) (S n)
        | HTTPClient.Continue d =>
            let L := exec e (S n) (loop rest (fst (value T)) (Some (r, d))) in
            mkRun (EvRequest method url kw (Ok r) :: trace T
                     ++ EvRespRelease r :: trace L)
                  (value L) (sent L)
        end
    end.
Proof.
  simpl. destruct (e_replies e n) as [r|ex]; [|reflexivity].
  unfold logged. rewrite exec_bind. cbv zeta.
  pose proof (try_block_sent (S n) tries r mu) as Hs.
  destruct (exec e (S n) (body tries r mu)) as [tr [mu' c] s]. simpl in *. subst s.
  destruct c; reflexivity.
Qed.

Lemma attempts_nil n mu last :
  exec e n (loop [] mu last) =
    mkRun [] (mu, Raise (match last with
                         | Some (r, data) => HTTPException r data
                         | None => UnboundLocalError
                         end)) n.
Proof. reflexivity. Qed.

Lemma attempts_sent range :
  forall n mu last,
    (n <= sent (exec e n (loop range mu last)) <= n + List.length range)%nat
    /\ (range <> [] -> n < sent (exec e n (loop range mu last)))%nat.
Proof.
  induction range as [|tries rest IH]; intros n mu last.
  - rewrite attempts_nil. simpl. split; [lia|congruence].
  - rewrite attempts_cons. cbn [List.length].
    destruct (e_replies e n) as [r|ex]; cbn [sent]; [|lia].
    destruct (snd (value (exec e (S n) (body tries r mu)))); cbn [sent]; try lia.
    destruct (IH (S n) (fst (value (exec e (S n) (body tries r mu))))
                (Some (r, data))) as [IH1 _].
    cbv zeta. cbn [sent]. lia.
Qed.

(** The lock of [maybe_lock] never changes, and once release is deferred
    it stays deferred. *)
Lemma try_block_lock n tries r mu :
  let T := exec e n (body tries r mu) in
  MaybeUnlock.lock (fst (value T)) = MaybeUnlock.lock mu
  /\ (MaybeUnlock._unlock mu = false -> MaybeUnlock._unlock (fst (value T)) = false)
  /\ existsb is_release (trace T) = false
  /\ filter is_request (trace T) = [].
Proof.
  unfold HTTPClient.try_block, HTTPClient.ratelimit_check,
    HTTPClient.release_delay, HTTPClient.status_dispatch,
    HTTPClient.rate_limited.
  repeat match goal with
         | |- context [match ?x with _ => _ end] => destruct x
         | |- context [if ?x then _ else _] => destruct x
         end; simpl; auto.
Qed.

(** Every attempt of a run of the loop is the first iteration of a run of
    the loop over the rest of the range. *)
Lemma attempts_from range :
  forall n mu last i,
    (n <= i < sent (exec e n (loop range mu last)))%nat ->
    exists pre mu' last',
      let L := exec e n (loop range mu last) in
      let L' := exec e i (loop (skipn (i - n) range) mu' last') in
      trace L = pre ++ trace L' /\ value L = value L' /\ sent L = sent L'
      /\ count_requests pre = (i - n)%nat
      /\ MaybeUnlock.lock mu' = MaybeUnlock.lock mu.
Proof.
  induction range as [|tries rest IH]; intros n mu last i Hi.
  - simpl in Hi. lia.
  - destruct (Nat.eq_dec i n) as [->|Hne].
    + exists [], mu, last. rewrite Nat.sub_diag. simpl skipn. cbv zeta. auto.
    + revert Hi. rewrite attempts_cons.
      destruct (e_replies e n) as [r|ex]; simpl; [|lia].
      pose proof (try_block_lock (S n) tries r mu) as (Hl & _ & _ & Hz).
      destruct (exec e (S n) (body tries r mu)) as [tr [mu1 c] s]. simpl in *.
      destruct c; simpl; try lia.
      intros Hi.
      destruct (IH (S n) mu1 (Some (r, data)) i) as (pre & mu' & last' & H1 & H2 & H3 & H4 & H5);
        [lia|].
      exists (EvRequest method url kw (Ok r) :: tr ++ EvRespRelease r :: pre), mu', last'.
      replace (i - n)%nat with (S (i - S n)) by lia. simpl skipn.
      cbv zeta in *. rewrite H1, H2, H3. simpl.
      split; [now rewrite <- app_assoc|]. split; [reflexivity|]. split; [reflexivity|].
      split; [|congruence].
      unfold count_requests in *. simpl. rewrite filter_app. simpl.
      rewrite length_app. rewrite H4.
      rewrite Hz. simpl. lia.
Qed.


Lemma attempts_head n tries rest mu last :
  exists tl,
    trace (exec e n (loop (tries :: rest) mu last))
    = EvRequest method url kw (e_replies e n) :: tl.
Proof.
  rewrite attempts_cons. destruct (e_replies e n) as [r|ex];
    [|eexists; reflexivity].
  cbv zeta. destruct (snd (value (exec e (S n) (body tries r mu))));
    eexists; reflexivity.
Qed.

Lemma exec_ratelimit_check n r mu :
  delay_known bypass r = true ->
  exec e n (ratelimit_check bypass r mu) =
    mkRun (defer_events bypass r (MaybeUnlock.lock mu)) (Ok (after_check r mu)) n.
Proof.
  unfold HTTPClient.ratelimit_check, Shape.defer_events, Shape.delay_known,
    after_check.
  destruct (HTTPClient.bucket_exhausted r); [|reflexivity].
  destruct (HTTPClient.release_delay _ _ r); [reflexivity|discriminate].
Qed.

(** The check of an exhausted bucket whose delay is not to be had raises
    and does nothing. *)
Lemma exec_ratelimit_check_raises n r mu x :
  HTTPClient.bucket_exhausted r = true ->
  HTTPClient.release_delay _parse_ratelimit_header bypass r = Raise x ->
  exec e n (ratelimit_check bypass r mu) = mkRun [] (Raise x) n.
Proof.
  intros Hx Hd. unfold HTTPClient.ratelimit_check. now rewrite Hx, Hd.
Qed.

Lemma status_dispatch_sent n tries r data mu :
  sent (exec e n (HTTPClient.status_dispatch tries r data mu)) = n.
Proof.
  unfold HTTPClient.status_dispatch, HTTPClient.rate_limited.
  repeat match goal with
         | |- context [match ?x with _ => _ end] => destruct x
         | |- context [if ?x then _ else _] => destruct x
         end; reflexivity.
Qed.

(** The body of [try:] for a response whose body decodes: the rate limit
    header check, then what the status decides. *)
Lemma exec_try_block n tries r mu data :
  json_or_text r = Ok data ->
  delay_known bypass r = true ->
  exec e n (body tries r mu) =
    let D := exec e n (HTTPClient.status_dispatch tries r data (after_check r mu)) in
    mkRun (defer_events bypass r (MaybeUnlock.lock mu) ++ trace D) (value D) n.
Proof.
  intros Hd Hk. unfold HTTPClient.try_block. rewrite Hd, exec_bind. cbv zeta.
  rewrite exec_ratelimit_check by assumption. cbn [trace value sent].
  now rewrite status_dispatch_sent.
Qed.

(** The body of [try:] for a response whose body decodes and whose rate
    limit header check raises: the exception leaves the [try] at once. *)
Lemma exec_try_block_raises n tries r mu data x :
  json_or_text r = Ok data ->
  HTTPClient.bucket_exhausted r = true ->
  HTTPClient.release_delay _parse_ratelimit_header bypass r = Raise x ->
  exec e n (body tries r mu) = mkRun [] (mu, HTTPClient.Throw x) n.
Proof.
  intros Hd Hx Hr. unfold HTTPClient.try_block. rewrite Hd, exec_bind. cbv zeta.
  rewrite (exec_ratelimit_check_raises _ _ _ x) by assumption. reflexivity.
Qed.

End Loop.

Lemma exec_rate_limited e n fields v d mu :
  Dict.get "retry_after" fields = Some v ->
  div_1000 v = Ok d ->
  exec e n (HTTPClient.rate_limited (JObj fields) mu)
  = mkRun (global_window (is_global fields) d)
          (mu, HTTPClient.Continue (JObj fields)) n.
Proof.
  intros Hq Hd. unfold HTTPClient.rate_limited, global_window, is_global.
  cbn [subscript get_or_false]. rewrite Hq, Hd.
  destruct (Dict.get "global" fields) as [g|]; cbn [py_truthy];
    [destruct (py_truthy g)|]; reflexivity.
Qed.

(** A [retry_after] that is missing or cannot be divided ends the handling
    of the 429 with the exception, before any sleep. *)
Lemma exec_rate_limited_raises e n data x mu :
  match subscript data "retry_after" with
  | Ok v => div_1000 v
  | Raise y => Raise y
  end = Raise x ->
  exec e n (HTTPClient.rate_limited data mu) = mkRun [] (mu, HTTPClient.Throw x) n.
Proof. intros H. unfold HTTPClient.rate_limited. now rewrite H. Qed.

(** A 429 does not count as an exhausted bucket. *)
Lemma rate_limited_delay_known bypass r :
  status r = 429 -> delay_known bypass r = true.
Proof.
  intros Hs. unfold Shape.delay_known, HTTPClient.bucket_exhausted.
  rewrite Hs. cbn. now rewrite andb_false_r.
Qed.

Lemma range_from (i : nat) :
  (i < 5)%nat ->
  skipn i (HTTPClient.range 5) = Z.of_nat i :: skipn (S i) (HTTPClient.range 5).
Proof.
  intros Hi. do 5 (destruct i as [|i]; [reflexivity|]). lia.
Qed.

Lemma entry_no_request e bucket : count_requests (entry_events e bucket) = O.
Proof.
  unfold entry_events, count_requests.
  destruct (e_lock e), (e_flag e); reflexivity.
Qed.

Lemma count_requests_app a b :
  count_requests (a ++ b) = (count_requests a + count_requests b)%nat.
Proof. unfold count_requests. now rewrite filter_app, length_app. Qed.

Lemma request_sent self route bypass kw e :
  (1 <= sent (exec e 0 (request self route bypass kw)) <= 5)%nat.
Proof.
  rewrite exec_request. cbv zeta. cbn [sent].
  match goal with
  | |- context [exec e 0 (attempts ?b ?m ?u ?k ?rg ?mu ?l)] =>
      destruct (attempts_sent b m u k e rg 0 mu l) as [H1 H2]
  end.
  change (List.length (HTTPClient.range 5)) with 5%nat in H1.
  specialize (H2 ltac:(discriminate)). lia.
Qed.

(** Every attempt a request makes is one iteration of its loop: what
    happens from attempt [i] on is a run of the loop over the tries that are
    left, on the lock of the request. *)
Lemma request_attempt self route bypass kw e i :
  let R := exec e 0 (request self route bypass kw) in
  (i < sent R)%nat ->
  exists pre mu last,
    let L := exec e i (attempts bypass (Route.method route) (Route.url route)
                         (send_kwargs_of self route kw)
                         (Z.of_nat i :: skipn (S i) (HTTPClient.range 5)) mu last) in
    trace R = pre ++ trace L ++ exit_events (fst (value L))
    /\ value R = snd (value L) /\ sent R = sent L
    /\ count_requests pre = i
    /\ MaybeUnlock.lock mu = lock_of e
    /\ (i < 5)%nat.
Proof.
  cbv zeta. intros Hi.
  pose proof (request_sent self route bypass kw e) as Hs.
  revert Hi. rewrite exec_request. cbv zeta. cbn [sent trace value]. intros Hi.
  destruct (attempts_from bypass (Route.method route) (Route.url route)
              (send_kwargs_of self route kw) e (HTTPClient.range 5) 0
              (MaybeUnlock.init (lock_of e)) None i)
    as (pre & mu & last & H1 & H2 & H3 & H4 & H5); [lia|].
  assert (Hi5 : (i < 5)%nat).
  { rewrite exec_request in Hs. cbv zeta in Hs. cbn [sent] in Hs. lia. }
  rewrite Nat.sub_0_r in *. rewrite range_from in * by assumption.
  exists (entry_events e (Route.bucket route) ++ pre), mu, last.
  rewrite H1, H2, H3. rewrite <- !app_assoc.
  repeat split; auto.
  rewrite count_requests_app, entry_no_request. simpl. exact H4.
Qed.

Lemma request_attempt_response self route bypass kw e i r :
  let R := exec e 0 (request self route bypass kw) in
  (i < sent R)%nat -> e_replies e i = Ok r ->
  exists pre mu,
    MaybeUnlock.lock mu = lock_of e /\ count_requests pre = i /\ (i < 5)%nat
    /\ attempt_decides e i (Route.method route) (Route.url route)
         (send_kwargs_of self route kw) R r pre
         (exec e (S i) (try_block bypass (Z.of_nat i) r mu)).
Proof.
  cbv zeta. intros Hi Hr.
  destruct (request_attempt self route bypass kw e i Hi)
    as (pre & mu & last & H1 & H2 & H3 & H4 & H5 & H6).
  exists pre, mu. repeat split; auto.
  revert H1 H2 H3. rewrite attempts_cons, Hr. cbv zeta.
  unfold attempt_decides.
  destruct (snd (value (exec e (S i) (try_block bypass (Z.of_nat i) r mu)))) as [d|d|x];
    cbn [trace value sent fst snd]; intros H1 H2 H3.
  - rewrite H1. cbn. rewrite <- app_assoc. auto.
  - match type of H1 with
    | context [trace (exec e (S i) (attempts ?b ?m ?u ?k ?rg ?mu' ?l))] =>
        set (L := exec e (S i) (attempts b m u k rg mu' l)) in *;
        pose proof (attempts_sent b m u k e rg (S i) mu' l) as Hs;
        pose proof (try_block_lock b e (S i) (Z.of_nat i) r mu) as Ht
    end.
    exists (trace L ++ exit_events (fst (value L))).
    split; [rewrite H1; cbn; now rewrite <- !app_assoc|].
    split.
    + intros Hlt.
      assert (Hk : skipn (S i) (HTTPClient.range 5)
                   = Z.of_nat (S i) :: skipn (S (S i)) (HTTPClient.range 5))
        by (apply range_from; lia).
      subst L. rewrite Hk in *.
      split; [destruct Hs as [_ Hs]; specialize (Hs ltac:(discriminate)); lia|].
      match goal with
      | |- context [trace (exec e (S i) (attempts ?b ?m ?u ?k (?t :: ?rs) ?mu' ?l))] =>
          destruct (attempts_head b m u k e (S i) t rs mu' l) as [tl Htl]
      end.
      rewrite Htl. eexists. reflexivity.
    + intros ->. subst L. simpl in *. rewrite H2, H3. auto.
  - rewrite H1. cbn. rewrite <- app_assoc. auto.
Qed.

(** A failure of the transport ends the request at that attempt. *)
Lemma request_attempt_failure self route bypass kw e i ex :
  let R := exec e 0 (request self route bypass kw) in
  (i < sent R)%nat -> e_replies e i = Raise ex ->
  value R = Raise ex /\ sent R = S i
  /\ exists pre mu,
       MaybeUnlock.lock mu = lock_of e /\ count_requests pre = i
       /\ trace R = pre ++ EvRequest (Route.method route) (Route.url route)
                            (send_kwargs_of self route kw) (Raise ex)
                       :: exit_events mu.
Proof.
  cbv zeta. intros Hi Hr.
  destruct (request_attempt self route bypass kw e i Hi)
    as (pre & mu & last & H1 & H2 & H3 & H4 & H5 & H6).
  revert H1 H2 H3. rewrite attempts_cons, Hr. cbn. intros H1 H2 H3.
  split; [assumption|]. split; [assumption|]. eauto.
Qed.

(** *** The lock across the loop *)

Lemma exhausted_iff r :
  HTTPClient.bucket_exhausted r = true
  <-> hdr_get "X-Ratelimit-Remaining" (headers r) = Some "0"%string /\ status r <> 429.
Proof.
  unfold HTTPClient.bucket_exhausted.
  destruct (hdr_get _ (headers r)) as [v|]; simpl.
  - rewrite andb_true_iff, negb_true_iff, String.eqb_eq, Z.eqb_neq.
    split; [intros [-> H]; auto | intros [[= ->] H]; auto].
  - split; [discriminate | intros [[=] _]].
Qed.

(** The body of [try:] when the bucket is not exhausted leaves
    [maybe_lock] alone and schedules nothing. *)
Lemma try_block_not_exhausted bypass e n tries r mu :
  HTTPClient.bucket_exhausted r = false ->
  let T := exec e n (try_block bypass tries r mu) in
  fst (value T) = mu /\ existsb is_call_later (trace T) = false.
Proof.
  intros Hx. unfold HTTPClient.try_block, HTTPClient.ratelimit_check,
    HTTPClient.status_dispatch, HTTPClient.rate_limited.
  rewrite Hx.
  repeat match goal with
         | |- context [match ?x with _ => _ end] => destruct x
         | |- context [if ?x then _ else _] => destruct x
         end; simpl; auto.
Qed.

(** The body of [try:] when the bucket is exhausted and the body decodes:
    the release is scheduled first and [maybe_lock] is deferred. *)
Lemma try_block_exhausted bypass e n tries r mu data delta :
  json_or_text r = Ok data ->
  HTTPClient.bucket_exhausted r = true ->
  HTTPClient.release_delay _parse_ratelimit_header bypass r = Ok delta ->
  let T := exec e n (try_block bypass tries r mu) in
  MaybeUnlock._unlock (fst (value T)) = false
  /\ exists tl, trace T = EvCallLater delta (MaybeUnlock.lock mu) :: tl.
Proof.
  intros Hd Hx Hdelta. cbv zeta.
  assert (Hk : delay_known bypass r = true).
  { unfold Shape.delay_known. rewrite Hdelta. apply orb_true_r. }
  rewrite (exec_try_block bypass e n tries r mu data Hd Hk).
  unfold Shape.defer_events, after_check. rewrite Hx, Hdelta.
  cbv zeta. cbn [value trace fst snd app].
  unfold HTTPClient.status_dispatch, HTTPClient.rate_limited.
  repeat match goal with
         | |- context [match ?x with _ => _ end] => destruct x
         | |- context [if ?x then _ else _] => destruct x
         end; simpl; eauto.
Qed.

Lemma attempts_release bypass m u skw e range :
  forall n mu last,
    let L := exec e n (attempts bypass m u skw range mu last) in
    existsb is_release (trace L) = false
    /\ MaybeUnlock.lock (fst (value L)) = MaybeUnlock.lock mu
    /\ (MaybeUnlock._unlock mu = false ->
        MaybeUnlock._unlock (fst (value L)) = false).
Proof.
  induction range as [|tries rest IH]; intros n mu last; cbv zeta.
  - rewrite attempts_nil. simpl. auto.
  - rewrite attempts_cons. destruct (e_replies e n) as [r|ex]; [|simpl; auto].
    cbv zeta.
    pose proof (try_block_lock bypass e (S n) tries r mu) as (Hl & Hu & Hr & _).
    destruct (exec e (S n) (try_block bypass tries r mu)) as [tr [mu1 c] s].
    cbn [value trace fst snd] in *.
    destruct c; cbn [value trace fst snd existsb is_release];
      rewrite existsb_app; cbn [existsb is_release]; rewrite Hr; simpl; auto.
    destruct (IH (S n) mu1 (Some (r, data))) as (I1 & I2 & I3).
    rewrite I1, I2. auto.
Qed.

Lemma attempts_not_exhausted bypass m u skw e range :
  forall n mu last,
    let L := exec e n (attempts bypass m u skw range mu last) in
    (forall i r, (n <= i < sent L)%nat -> e_replies e i = Ok r ->
                 HTTPClient.bucket_exhausted r = false) ->
    fst (value L) = mu /\ existsb is_call_later (trace L) = false.
Proof.
  induction range as [|tries rest IH]; intros n mu last; cbv zeta.
  - rewrite attempts_nil. simpl. auto.
  - pose proof (attempts_sent bypass m u skw e (tries :: rest) n mu last) as [_ Hs].
    specialize (Hs ltac:(discriminate)). revert Hs.
    rewrite attempts_cons. destruct (e_replies e n) as [r|ex] eqn:Hr; [|simpl; auto].
    cbv zeta. intros Hs H.
    assert (Hx : HTTPClient.bucket_exhausted r = false) by (apply (H n); [lia|auto]).
    pose proof (try_block_not_exhausted bypass e (S n) tries r mu Hx) as (Hm & Hc).
    destruct (exec e (S n) (try_block bypass tries r mu)) as [tr [mu1 c] s].
    cbn [value trace fst snd] in *. subst mu1.
    destruct c; cbn [value trace fst snd sent existsb is_call_later] in *;
      rewrite existsb_app; cbn [existsb is_call_later]; rewrite Hc; simpl; auto.
    destruct (IH (S n) mu (Some (r, data))) as (I1 & I2).
    + intros i r' Hi. apply H. lia.
    + rewrite I1, I2. auto.
Qed.

Lemma entry_no_release e bucket :
  existsb is_release (entry_events e bucket) = false
  /\ existsb is_call_later (entry_events e bucket) = false.
Proof. unfold entry_events. destruct (e_lock e), (e_flag e); auto. Qed.

(** A decoded response of an exhausted bucket whose delay
    [utils._parse_ratelimit_header] fails to give ends the request with
    that exception; nothing is scheduled for it. *)
Lemma attempt_check_raises self route bypass kw e i r data x :
  let R := exec e 0 (request self route bypass kw) in
  (i < sent R)%nat -> e_replies e i = Ok r ->
  json_or_text r = Ok data ->
  HTTPClient.bucket_exhausted r = true ->
  HTTPClient.release_delay _parse_ratelimit_header bypass r = Raise x ->
  value R = Raise x /\ sent R = S i.
Proof.
  intros R Hi Hr Hd Hx Hdelta.
  destruct (request_attempt_response self route bypass kw e i r Hi Hr)
    as (pre & mu & _ & _ & _ & Hdec).
  fold R in Hdec. unfold attempt_decides in Hdec.
  rewrite (exec_try_block_raises bypass e (S i) (Z.of_nat i) r mu data x Hd Hx Hdelta)
    in Hdec.
  cbn [value snd] in Hdec. tauto.
Qed.


(** *** What the status decides *)

Lemma dispatch_success tries r data mu :
  200 <= status r < 300 ->
  HTTPClient.status_dispatch tries r data mu = Ret (mu, HTTPClient.Return data).
Proof.
  intros H. unfold HTTPClient.status_dispatch.
  destruct (Z.leb_spec 200 (status r)), (Z.ltb_spec (status r) 300);
    try lia; reflexivity.
Qed.

Lemma dispatch_rate_limited tries r data mu :
  status r = 429 ->
  HTTPClient.status_dispatch tries r data mu = HTTPClient.rate_limited data mu.
Proof. intros H. unfold HTTPClient.status_dispatch. rewrite H. reflexivity. Qed.

Lemma dispatch_server_error tries r data mu :
  status r = 500 \/ status r = 502 ->
  HTTPClient.status_dispatch tries r data mu
  = Sleep (inject_Z (1 + tries * 2)) (Ret (mu, HTTPClient.Continue data)).
Proof.
  intros [H|H]; unfold HTTPClient.status_dispatch; rewrite H; reflexivity.
Qed.

Lemma dispatch_error tries r data mu :
  ~ 200 <= status r < 300 ->
  status r <> 429 -> status r <> 500 -> status r <> 502 ->
  HTTPClient.status_dispatch tries r data mu
  = Ret (mu, HTTPClient.Throw
               (if Z.eqb (status r) 403 then Forbidden r data
                else if Z.eqb (status r) 404 then NotFound r data
                else HTTPException r data)).
Proof.
  intros H1 H2 H3 H4. unfold HTTPClient.status_dispatch.
  destruct (Z.leb_spec 200 (status r)), (Z.ltb_spec (status r) 300);
    try lia; simpl;
    rewrite (proj2 (Z.eqb_neq _ _) H2), (proj2 (Z.eqb_neq _ _) H3),
      (proj2 (Z.eqb_neq _ _) H4); simpl;
    destruct (Z.eqb (status r) 403), (Z.eqb (status r) 404); reflexivity.
Qed.

Lemma json_or_text_cases r data :
  json_or_text r = Ok data ->
  exists ct,
    hdr_get "content-type" (headers r) = Some ct
    /\ (ct = "application/json"%string -> json_loads (body r) = Some data)
    /\ (ct <> "application/json"%string -> data = JStr (body r)).
Proof.
  unfold HTTPClient.json_or_text.
  destruct (hdr_get "content-type" (headers r)) as [ct|]; [|discriminate].
  intros H. exists ct. split; [reflexivity|].
  destruct (String.eqb_spec ct "application/json").
  - destruct (json_loads (body r)); [|discriminate]. injection H as ->.
    split; [reflexivity|contradiction].
  - injection H as <-. split; [contradiction|reflexivity].
Qed.

(** A decoded response with a status outside [200,300) that is not
    retried ends the request with the error of its status, when its rate
    limit header check does not raise. *)
Lemma attempt_error self route bypass kw e i r data :
  let R := exec e 0 (request self route bypass kw) in
  (i < sent R)%nat -> e_replies e i = Ok r ->
  json_or_text r = Ok data ->
  delay_known bypass r = true ->
  ~ 200 <= status r < 300 ->
  status r <> 429 -> status r <> 500 -> status r <> 502 ->
  value R = Raise (if Z.eqb (status r) 403 then Forbidden r data
                   else if Z.eqb (status r) 404 then NotFound r data
                   else HTTPException r data)
  /\ sent R = S i.
Proof.
  intros R Hi Hr Hd Hk H1 H2 H3 H4.
  destruct (request_attempt_response self route bypass kw e i r Hi Hr)
    as (pre & mu & _ & _ & _ & Hdec).
  fold R in Hdec. unfold attempt_decides in Hdec.
  rewrite (exec_try_block bypass e (S i) (Z.of_nat i) r mu data Hd Hk) in Hdec.
  cbv zeta in Hdec. cbn [value trace] in Hdec.
  rewrite dispatch_error in Hdec by assumption.
  cbn [exec value snd] in Hdec. tauto.
Qed.

(** A response whose body does not decode ends the request with the
    exception of [json_or_text]; nothing is scheduled for it. *)
Lemma undecoded_response_raises self route bypass kw e i r x :
  let R := exec e 0 (request self route bypass kw) in
  (i < sent R)%nat -> e_replies e i = Ok r ->
  json_or_text r = Raise x ->
  value R = Raise x /\ sent R = S i.
Proof.
  intros R Hi Hr Hd.
  destruct (request_attempt_response self route bypass kw e i r Hi Hr)
    as (pre & mu & _ & _ & _ & Hdec).
  fold R in Hdec. unfold attempt_decides, HTTPClient.try_block in Hdec.
  rewrite Hd in Hdec. cbn [exec value snd] in Hdec. tauto.
Qed.


(** The attempt answered by a 429 whose body carries a [retry_after] that
    the float division accepts. *)
Lemma rate_limited_attempt self route bypass kw e i r fields v d :
  let R := exec e 0 (request self route bypass kw) in
  (i < sent R)%nat -> e_replies e i = Ok r -> status r = 429 ->
  json_or_text r = Ok (JObj fields) ->
  Dict.get "retry_after" fields = Some v ->
  div_1000 v = Ok d ->
  exists pre post,
    trace R = pre ++ EvRequest (Route.method route) (Route.url route)
                        (send_kwargs_of self route kw) (Ok r)
                   :: global_window (is_global fields) d
                   ++ EvRespRelease r :: post
    /\ count_requests pre = i
    /\ ((i < 4)%nat ->
        (S i < sent R)%nat
        /\ exists tl,
             post = EvRequest (Route.method route) (Route.url route)
                      (send_kwargs_of self route kw) (e_replies e (S i)) :: tl)
    /\ (i = 4%nat ->
        value R = Raise (HTTPException r (JObj fields)) /\ sent R = 5%nat).
Proof.
  intros R Hi Hr Hs Hd Hq Hdiv.
  destruct (request_attempt_response self route bypass kw e i r Hi Hr)
    as (pre & mu & _ & Hc & _ & Hdec).
  fold R in Hdec. unfold attempt_decides in Hdec.
  rewrite (exec_try_block bypass e (S i) (Z.of_nat i) r mu _ Hd
             (rate_limited_delay_known bypass r Hs)) in Hdec.
  cbv zeta in Hdec. cbn [value trace] in Hdec.
  rewrite dispatch_rate_limited, (exec_rate_limited _ _ _ v d) in Hdec by assumption.
  unfold Shape.defer_events in Hdec.
  assert (Hx : HTTPClient.bucket_exhausted r = false).
  { destruct (HTTPClient.bucket_exhausted r) eqn:E; [|reflexivity].
    apply exhausted_iff in E. tauto. }
  rewrite Hx in Hdec. cbn [value trace fst snd app] in Hdec.
  destruct Hdec as (post & Ht & Hlt & H4).
  exists pre, post. split; [exact Ht|]. split; [exact Hc|].
  split; [exact Hlt|]. intros E. destruct (H4 E) as (V & S5 & _). auto.
Qed.

(** The attempt answered by a 429 whose body has no [retry_after] that can
    be divided: the exception ends the request, with no sleep. *)
Lemma rate_limited_attempt_raises self route bypass kw e i r data x :
  let R := exec e 0 (request self route bypass kw) in
  (i < sent R)%nat -> e_replies e i = Ok r -> status r = 429 ->
  json_or_text r = Ok data ->
  match subscript data "retry_after" with
  | Ok v => div_1000 v
  | Raise y => Raise y
  end = Raise x ->
  value R = Raise x /\ sent R = S i.
Proof.
  intros R Hi Hr Hs Hd Hx.
  destruct (request_attempt_response self route bypass kw e i r Hi Hr)
    as (pre & mu & _ & Hc & _ & Hdec).
  fold R in Hdec. unfold attempt_decides in Hdec.
  rewrite (exec_try_block bypass e (S i) (Z.of_nat i) r mu _ Hd
             (rate_limited_delay_known bypass r Hs)) in Hdec.
  cbv zeta in Hdec. cbn [value trace] in Hdec.
  rewrite dispatch_rate_limited, (exec_rate_limited_raises _ _ _ x) in Hdec
    by assumption.
  cbn [value snd] in Hdec. tauto.
Qed.



(** *** Failures of the transport, and what a caller can receive *)

Lemma try_block_in_shape bypass e n tries r mu :
  in_shape bypass r ->
  match snd (value (exec e n (try_block bypass tries r mu))) with
  | HTTPClient.Throw x => api_error x = true
  | _ => True
  end.
Proof.
  intros (data & Hd & Hk & H429).
  rewrite (exec_try_block bypass e n tries r mu data Hd Hk).
  cbv zeta. cbn [value].
  unfold HTTPClient.status_dispatch.
  destruct (Z.leb 200 (status r) && Z.ltb (status r) 300)%bool; [exact I|].
  destruct (Z.eqb_spec (status r) 429) as [E|_].
  - destruct (H429 E) as (fields & v & q & -> & Hv & Hq).
    unfold HTTPClient.rate_limited. simpl. rewrite Hv, Hq.
    destruct (Dict.get "global" fields) as [g|]; simpl;
      [destruct (py_truthy g)|]; exact I.
  - destruct (Z.eqb (status r) 500 || Z.eqb (status r) 502)%bool; [exact I|].
    destruct (Z.eqb (status r) 403); [reflexivity|].
    destruct (Z.eqb (status r) 404); reflexivity.
Qed.

Lemma attempts_in_shape bypass m u skw e range :
  forall n mu last,
    let L := exec e n (attempts bypass m u skw range mu last) in
    (range = [] -> last <> None) ->
    (forall i, (n <= i < sent L)%nat ->
               exists r, e_replies e i = Ok r /\ in_shape bypass r) ->
    match snd (value L) with
    | Ok _ => True
    | Raise x => api_error x = true
    end.
Proof.
  induction range as [|tries rest IH]; intros n mu last; cbv zeta.
  - rewrite attempts_nil. simpl. intros H _.
    destruct last as [[r d]|]; [reflexivity|]. now specialize (H eq_refl).
  - pose proof (attempts_sent bypass m u skw e (tries :: rest) n mu last) as [_ Hs].
    specialize (Hs ltac:(discriminate)). revert Hs.
    rewrite attempts_cons. intros Hs _ H.
    destruct (H n) as (r & Hr & Hshape); [lia|].
    revert Hs H. rewrite Hr. cbv zeta. intros Hs H.
    pose proof (try_block_in_shape bypass e (S n) tries r mu Hshape) as Ht.
    destruct (snd (value (exec e (S n) (try_block bypass tries r mu)))) as [d|d|x];
      cbn [value snd sent] in *; auto.
    apply IH; [discriminate|]. intros i Hi. apply H. lia.
Qed.


(** *** The headers of a request *)

Lemma guild_is_unbound route :
  HTTPClient.name_lookup (HTTPClient.request_locals route) "guild" = None.
Proof. reflexivity. Qed.

Lemma header_creation_referer route :
  Dict.get "referer" (HTTPClient.header_creation (HTTPClient.request_locals route))
  = Some (referer route).
Proof.
  unfold HTTPClient.header_creation, HTTPClient.guild_referer.
  rewrite guild_is_unbound. cbn [HTTPClient.obind].
  unfold HTTPClient.channel_referer, referer.
  change (HTTPClient.name_lookup (HTTPClient.request_locals route) "channel")
    with (Some (Route.channel route)).
  cbn [HTTPClient.obind].
  destruct (py_getattr (Route.channel route) "guild") as [g|]; [|reflexivity].
  cbn [HTTPClient.obind].
  destruct (py_getattr g "id") as [gid|]; [|reflexivity].
  cbn [HTTPClient.obind].
  destruct (py_getattr (Route.channel route) "id") as [cid|]; reflexivity.
Qed.

Lemma send_kwargs_referer self route kw :
  Dict.get "referer" (sk_headers (send_kwargs_of self route kw))
  = Some (referer route).
Proof.
  unfold HTTPClient.send_kwargs_of.
  destruct (HTTPClient.token self), (HTTPClient.kw_json kw),
    (HTTPClient.kw_reason kw) as [reason|];
    cbn [sk_headers]; try destruct (String.eqb reason EmptyString);
    rewrite ?get_set_other by reflexivity; apply header_creation_referer.
Qed.

Lemma attempts_requests bypass m u skw e range :
  forall n mu last m' u' skw' reply,
    In (EvRequest m' u' skw' reply)
       (trace (exec e n (attempts bypass m u skw range mu last))) ->
    m' = m /\ u' = u /\ skw' = skw.
Proof.
  induction range as [|tries rest IH]; intros n mu last m' u' skw' reply.
  - rewrite attempts_nil. intros [].
  - rewrite attempts_cons.
    assert (Hnone : forall T : run (MaybeUnlock.t * HTTPClient.ctl),
               filter is_request (trace T) = [] ->
               ~ In (EvRequest m' u' skw' reply) (trace T)).
    { intros T HT Hin.
      assert (Hf : In (EvRequest m' u' skw' reply) (filter is_request (trace T)))
        by (apply filter_In; auto).
      rewrite HT in Hf. exact Hf. }
    destruct (e_replies e n) as [r|ex].
    + cbv zeta.
      pose proof (try_block_lock bypass e (S n) tries r mu) as (_ & _ & _ & Hz).
      specialize (Hnone _ Hz).
      destruct (snd (value (exec e (S n) (try_block bypass tries r mu))));
        cbn [trace]; intros [E|Hin];
        try (injection E as <- <- <- _; auto);
        apply in_app_or in Hin as [Hin|Hin];
        try (now apply Hnone in Hin);
        try (destruct Hin as [E|Hin]; [discriminate|]);
        try (destruct Hin; fail).
      eapply IH; eassumption.
    + cbn [trace]. intros [E|[]]. injection E as <- <- <- _. auto.
Qed.

(** C10.  Every request a call sends carries the same [referer]: the
    channel address when the channel of the route has a [guild] with an
    [id] and an [id] of its own, and the [@me] address otherwise.  The
    second f-string reads the name [guild], which is bound neither locally
    nor in the module, so it never yields a header; a route without a
    channel, whatever its [guild_id], gets [@me]. *)
Theorem referer_is_channel_or_me :
  forall self route bypass kw e,
    let R := exec e 0 (request self route bypass kw) in
    (1 <= count_requests (trace R))%nat
    /\ (forall m u skw reply,
          In (EvRequest m u skw reply) (trace R) ->
          Dict.get "referer" (sk_headers skw) = Some (referer route))
    /\ (forall guild gid cid,
          py_getattr (Route.channel route) "guild" = Some guild ->
          py_getattr guild "id" = Some gid ->
          py_getattr (Route.channel route) "id" = Some cid ->
          referer route
          = ("https://canary.discordapp.com/channels/" ++ py_str gid ++ "/"
               ++ py_str cid)%string)
    /\ (py_getattr (Route.channel route) "guild" = None
        \/ (forall guild, py_getattr (Route.channel route) "guild" = Some guild ->
                          py_getattr guild "id" = None)
        \/ py_getattr (Route.channel route) "id" = None ->
        referer route = "https://canary.discordapp.com/channels/@me"%string)
    /\ HTTPClient.name_lookup (HTTPClient.request_locals route) "guild" = None
    /\ HTTPClient.guild_referer (HTTPClient.request_locals route) = None
    /\ (Route.channel route = PNone ->
        referer route = "https://canary.discordapp.com/channels/@me"%string).
Proof.
  intros self route bypass kw e R.
  split; [|split; [|split; [|split; [|split; [|split]]]]].
  - pose proof (request_sent self route bypass kw e) as Hs. fold R in Hs.
    destruct (request_attempt self route bypass kw e 0) as
      (pre & mu & last & H1 & _); [fold R; lia|].
    fold R in H1. rewrite H1.
    match type of H1 with
    | context [exec e 0 (attempts ?b ?m ?u ?k (?t :: ?rs) ?mu' ?l)] =>
        destruct (attempts_head b m u k e 0%nat t rs mu' l) as [tl Htl]
    end.
    rewrite Htl. rewrite !count_requests_app. unfold count_requests at 2.
    simpl. lia.
  - intros m u skw reply. subst R. rewrite exec_request. cbv zeta. cbn [trace].
    intros Hin. apply in_app_or in Hin as [Hin|Hin].
    + exfalso. unfold entry_events in Hin.
      destruct (e_lock e), (e_flag e); simpl in Hin;
        repeat (destruct Hin as [Hin|Hin]; [discriminate|]); exact Hin.
    + apply in_app_or in Hin as [Hin|Hin].
      * apply attempts_requests in Hin as (_ & _ & ->). apply send_kwargs_referer.
      * exfalso. unfold exit_events in Hin.
        destruct (MaybeUnlock._unlock _); simpl in Hin;
          repeat (destruct Hin as [Hin|Hin]; [discriminate|]); exact Hin.
  - intros guild gid cid Hg Hgi Hci. unfold referer. now rewrite Hg, Hgi, Hci.
  - unfold referer. intros [H|[H|H]].
    + now rewrite H.
    + destruct (py_getattr (Route.channel route) "guild") as [g|]; [|reflexivity].
      now rewrite (H g eq_refl).
    + rewrite H. destruct (py_getattr (Route.channel route) "guild") as [g|];
        [destruct (py_getattr g "id")|]; reflexivity.
  - reflexivity.
  - reflexivity.
  - intros H. unfold referer. now rewrite H.
Qed.

(** *** Logging in *)

Section StaticLogin.

Variables Forbidden_derives NotFound_derives : bool.

Local Abbreviation static_login :=
  (HTTPClient.static_login json_loads _parse_ratelimit_header to_json
     Forbidden_derives NotFound_derives).
Local Abbreviation is_HTTPException :=
  (HTTPClient.is_HTTPException Forbidden_derives NotFound_derives).

Lemma exec_static_login self token bot e :
  let self1 := HTTPClient._token self (Some token) bot in
  let R := exec e 0 (request self1 HTTPClient.users_me None HTTPClient.no_kwargs) in
  exec e 0 (static_login self token bot) =
    mkRun (trace R)
      (match value R with
       | Ok data => (self1, Ok data)
       | Raise ex =>
           if is_HTTPException ex then
             (HTTPClient._token self1 (HTTPClient.token self) (HTTPClient.bot_token self),
              if HTTPClient.status_is ex 401 then Raise (login_failure ex)
              else Raise ex)
           else (self1, Raise ex)
       end) (sent R).
Proof.
  cbv zeta. unfold HTTPClient.static_login. rewrite exec_bind. cbv zeta.
  destruct (value (exec e 0 _)) as [data|ex]; cbn [exec trace value sent].
  - now rewrite app_nil_r.
  - destruct (is_HTTPException ex); [destruct (HTTPClient.status_is ex 401)|];
      cbn [exec trace value sent]; now rewrite app_nil_r.
Qed.


End StaticLogin.

End RequestRuns.


(** C3 on the code, at the failing input: a 204 with
    [X-Ratelimit-Remaining: 0] and no content type, whatever
    [header_bypass_delay] the caller gave and whatever the library
    functions do.  [json_or_text] subscripts the headers for the content
    type and raises [KeyError] before the rate limit header is looked at:
    no release is scheduled, the request ends with the [KeyError], and
    [__exit__] releases the lock at once, although the response says that
    the bucket is exhausted. *)
Theorem undecoded_exhausted_response_releases_at_once :
  forall json_loads _parse_ratelimit_header to_json bypass,
    let R := exec (Sample.always (Ok Runs.no_content)) 0
               (HTTPClient.request json_loads _parse_ratelimit_header to_json
                  Sample.client Runs.me bypass HTTPClient.no_kwargs) in
    hdr_get "X-Ratelimit-Remaining" (headers Runs.no_content) = Some "0"
    /\ status Runs.no_content <> 429
    /\ HTTPClient.bucket_exhausted Runs.no_content = true
    /\ value R = Raise (KeyError "content-type")
    /\ existsb is_call_later (trace R) = false
    /\ trace R = [EvLocksGet "GET:None:None:/users/@me" None; EvNewLock 0;
                  EvLocksSet "GET:None:None:/users/@me" 0; EvGlobalIsSet true;
                  EvAcquire 0; Runs.sent_to_me (Ok Runs.no_content);
                  EvRespRelease Runs.no_content; EvRelease 0].
Proof. intros. repeat split. discriminate. Qed.




(** C6 on the code, at the failing input: a 204 without a content type,
    whatever the library functions do.  The status is in [200,300) and the
    content type is not [application/json], so the claim has the request
    return the text of the body; [json_or_text] subscripts the headers for
    the content type instead of reaching its own [return text], and the
    request raises [KeyError] at the first attempt. *)
Theorem response_without_content_type_raises :
  forall json_loads _parse_ratelimit_header to_json bypass,
    let R := exec (Sample.always (Ok Runs.no_content)) 0
               (HTTPClient.request json_loads _parse_ratelimit_header to_json
                  Sample.client Runs.me bypass HTTPClient.no_kwargs) in
    200 <= status Runs.no_content < 300
    /\ hdr_get "content-type" (headers Runs.no_content) = None
    /\ HTTPClient.json_or_text json_loads Runs.no_content
       = Raise (KeyError "content-type")
    /\ value R = Raise (KeyError "content-type")
    /\ value R <> Ok (JStr (body Runs.no_content))
    /\ sent R = 1%nat.
Proof. intros. repeat split; try discriminate; simpl; lia. Qed.


(** C7 on the code, at the failing input: a 502 without a content type
    and without a body, whatever the library functions do.  The body is
    decoded before the status is looked at, [json_or_text] raises
    [KeyError] on the missing content type, and the request ends with it at
    the first attempt: there is no sleep and no retry, and no
    [HTTPException]. *)
Theorem bare_server_error_is_not_retried :
  forall json_loads _parse_ratelimit_header to_json bypass,
    let R := exec (Sample.always (Ok Runs.bad_gateway_bare)) 0
               (HTTPClient.request json_loads _parse_ratelimit_header to_json
                  Sample.client Runs.me bypass HTTPClient.no_kwargs) in
    status Runs.bad_gateway_bare = 502
    /\ value R = Raise (KeyError "content-type")
    /\ sent R = 1%nat
    /\ existsb (fun ev => match ev with EvSleep _ => true | _ => false end)
         (trace R) = false.
Proof. intros. repeat split. Qed.



Lemma referer_is_channel_or_me_witness :
  let channel := PObj "<TextChannel>"
                   [("id", PInt 111); ("guild", PObj "<Guild>" [("id", PInt 7)])] in
  exists route,
    Route.init Format.format "POST" "/channels/{channel.id}/typing"
      [("channel", channel)] = Some route
    /\ referer route = "https://canary.discordapp.com/channels/7/111".
Proof.
  intros channel. eexists. split; [reflexivity|].
  match goal with
  | |- referer ?route = _ =>
      exact (proj1 (proj2 (proj2 (referer_is_channel_or_me
               Sample.json_loads Sample._parse_ratelimit_header Sample.to_json
               Sample.client route None HTTPClient.no_kwargs
               (Sample.always (Ok Runs.user_200)))))
             (PObj "<Guild>" [("id", PInt 7)]) (PInt 7) (PInt 111)
             eq_refl eq_refl eq_refl)
  end.
Defined.



(** ** The event loop *)

Section EventLoop.

Variable json_loads : string -> option json.
Variable _parse_ratelimit_header : response -> result Q.
Variable to_json : json -> string.

Local Abbreviation json_or_text := (HTTPClient.json_or_text json_loads).
Local Abbreviation request :=
  (HTTPClient.request json_loads _parse_ratelimit_header to_json).
Local Abbreviation try_block := (HTTPClient.try_block json_loads _parse_ratelimit_header).
Local Abbreviation attempts := (HTTPClient.attempts json_loads _parse_ratelimit_header).
Local Abbreviation held := (with_lock json_loads _parse_ratelimit_header to_json).
Local Abbreviation step := (Loop.step json_loads _parse_ratelimit_header to_json).
Local Abbreviation steps := (Loop.steps json_loads _parse_ratelimit_header to_json).

Lemma settle_tasks {A : Type} (p : prog A) :
  forall w, Loop.tasks (fst (Loop.settle w p)) = Loop.tasks w.
Proof.
  induction p; intros w; simpl; auto;
    try (rewrite ?H, ?IHp; reflexivity).
  - destruct (Loop.global_over w); [rewrite IHp|]; reflexivity.
  - destruct (Loop.is_locked lock w); [|rewrite IHp]; reflexivity.
Qed.

Lemma nth_error_replace_other {A : Type} (l : list A) :
  forall i j x, i <> j ->
    nth_error (Loop.replace_nth j x l) i = nth_error l i.
Proof.
  induction l as [|y l IH]; intros i j x Hij; simpl.
  - destruct j; reflexivity.
  - destruct j, i; simpl; auto; congruence.
Qed.

Lemma nth_error_replace_same {A : Type} (l : list A) :
  forall i x y, nth_error l i = Some y ->
    nth_error (Loop.replace_nth i x l) i = Some x.
Proof.
  induction l as [|z l IH]; intros [|i] x y Hi; simpl in *;
    try discriminate; eauto.
Qed.

Lemma nth_error_app_len {A : Type} (l r : list A) (x : A) :
  nth_error (l ++ x :: r) (List.length l) = Some x.
Proof. induction l; simpl; auto. Qed.

Lemma replace_nth_app_len {A : Type} (l r : list A) (x y : A) :
  Loop.replace_nth (List.length l) x (l ++ y :: r) = l ++ x :: r.
Proof. induction l; simpl; congruence. Qed.

Lemma remove_nth_app_len {A : Type} (l r : list A) (x : A) :
  Loop.remove_nth (List.length l) (l ++ x :: r) = l ++ r.
Proof. induction l; simpl; congruence. Qed.

Lemma continue_task_other i j t w p tk :
  i <> j -> nth_error (Loop.tasks w) i = Some tk ->
  nth_error (Loop.tasks (Loop.continue_task j t w p)) i = Some tk.
Proof.
  intros Hij Hi. unfold Loop.continue_task.
  pose proof (settle_tasks p w) as Hs.
  destruct (Loop.settle w p) as [w' p']. simpl in *.
  rewrite nth_error_replace_other by assumption. now rewrite Hs.
Qed.

Lemma continue_task_same i t w p tk :
  nth_error (Loop.tasks w) i = Some tk ->
  nth_error (Loop.tasks (Loop.continue_task i t w p)) i
  = Some (Loop.suspended (Loop.t_bucket t) (fst (Loop.settle w p))
            (snd (Loop.settle w p))).
Proof.
  intros Hi. unfold Loop.continue_task.
  pose proof (settle_tasks p w) as Hs.
  destruct (Loop.settle w p) as [w' p']. simpl in *.
  apply nth_error_replace_same with (y := tk). now rewrite Hs.
Qed.

Lemma settle_bind {A B : Type} (p : prog A) (f : A -> prog B) :
  forall w,
    Loop.settle w (bind p f)
    = match Loop.settle w p with
      | (w', Ret a) => Loop.settle w' (f a)
      | (w', p') => (w', bind p' f)
      end.
Proof.
  induction p; intros w; simpl; auto.
  - destruct (Loop.global_over w); auto.
  - destruct (Loop.is_locked lock w); auto.
Qed.

(** [request], with the part under the lock folded. *)
Lemma request_unfold self route bypass kw :
  request self route bypass kw
  = LocksGet (Route.bucket route) (fun found =>
      (lock <- match found with
               | Some lock => Ret lock
               | None => NewLock (fun lock =>
                           LocksSet (Route.bucket route) lock (Ret lock))
               end ;;
       GlobalIsSet (fun is_set =>
         (if is_set then Ret tt else GlobalWait (Ret tt)) ;;;
         Acquire lock (held self route bypass kw lock)))%prog).
Proof. reflexivity. Qed.

(** The first thing the loop does is to send the request. *)
Lemma with_lock_sends self route bypass kw l :
  exists k,
    held self route bypass kw l
    = SessionRequest (Route.method route) (Route.url route)
        (HTTPClient.send_kwargs_of to_json self route kw) k
    /\ forall r,
         k (Ok r)
         = (x <- (y <- try_block bypass 0 r (MaybeUnlock.init l) ;;
                  RespRelease r
                    match snd y with
                    | HTTPClient.Return data => Ret (fst y, Ok data)
                    | HTTPClient.Throw ex => Ret (fst y, Raise ex)
                    | HTTPClient.Continue data =>
                        attempts bypass (Route.method route) (Route.url route)
                          (HTTPClient.send_kwargs_of to_json self route kw)
                          (map Z.of_nat (seq 1 4)) (fst y) (Some (r, data))
                    end) ;;
            MaybeUnlock.exit (fst x) ;;;
            Ret (snd x))%prog.
Proof. eexists. split; reflexivity. Qed.

(** ** The code under the lock never looks at the flag *)

Lemma past_flag_bind {A B : Type} (p : prog A) (f : A -> prog B) :
  past_flag p -> (forall a, past_flag (f a)) -> past_flag (bind p f).
Proof. induction p; simpl; intros Hp Hf; auto; contradiction. Qed.

Lemma past_flag_try_block bypass tries r mu :
  past_flag (try_block bypass tries r mu).
Proof.
  unfold HTTPClient.try_block, HTTPClient.ratelimit_check,
    HTTPClient.status_dispatch, HTTPClient.rate_limited.
  repeat match goal with
         | |- context [match ?x with _ => _ end] => destruct x; simpl
         | |- context [if ?x then _ else _] => destruct x; simpl
         end; exact I.
Qed.

Lemma past_flag_attempts bypass m u skw range :
  forall mu last, past_flag (attempts bypass m u skw range mu last).
Proof.
  induction range as [|tries rest IH]; intros mu last; simpl; [exact I|].
  intros [r|x]; [|exact I].
  apply past_flag_bind; [apply past_flag_try_block|].
  intros y. simpl. destruct (snd y); simpl; auto.
Qed.

Lemma past_flag_with_lock self route bypass kw l :
  past_flag (held self route bypass kw l).
Proof.
  unfold with_lock. apply past_flag_bind; [apply past_flag_attempts|].
  intros x. unfold MaybeUnlock.exit.
  destruct (MaybeUnlock._unlock (fst x)); exact I.
Qed.

Lemma past_flag_exec {A : Type} (e : env) (p : prog A) :
  past_flag p -> forall n, existsb reads_flag (trace (exec e n p)) = false.
Proof.
  induction p; simpl; intros Hp n0; auto; contradiction.
Qed.

Lemma past_flag_settle {A : Type} (p : prog A) :
  past_flag p -> forall w, past_flag (snd (Loop.settle w p)).
Proof.
  induction p; simpl; intros Hp w; auto; try contradiction.
  destruct (Loop.is_locked lock w); simpl; auto.
Qed.

(** A call made while the global flag is clear stops at the wait for the
    flag, with the acquisition of its lock and the loop still to come: it
    has taken no lock, scheduled nothing and sent nothing. *)
Lemma spawn_while_flag_clear self route bypass kw w :
  Loop.global_over w = false ->
  let l := lock_for (Route.bucket route) w in
  exists w' t,
    step (Loop.Spawn self route bypass kw) w = Some w'
    /\ Loop.tasks w' = Loop.tasks w ++ [t]
    /\ Loop.t_code t = GlobalWait (Acquire l (held self route bypass kw l))
    /\ Loop.t_bucket t = Route.bucket route
    /\ Loop.locked w' = Loop.locked w
    /\ Loop.timers w' = Loop.timers w
    /\ Loop.global_over w' = false.
Proof.
  intros Hf. cbv zeta. unfold lock_for, Loop.step. rewrite request_unfold.
  Opaque with_lock.
  cbn [Loop.settle].
  destruct (Dict.get (Route.bucket route) (Loop.locks w)) as [l|];
    cbn [bind Loop.settle Loop.bump_fresh Loop.set_locks Loop.global_over
         Loop.fresh Loop.locks];
    rewrite Hf;
    cbn [bind Loop.settle Loop.bump_fresh Loop.set_locks Loop.global_over];
    rewrite Hf; do 2 eexists; (split; [reflexivity|]); cbn; auto 10.
  Transparent with_lock.
Qed.

(** While the flag is clear, no step of the loop moves a coroutine that
    waits for it. *)
Lemma waiting_for_flag_is_held a w w' i t :
  Loop.global_over w = false ->
  nth_error (Loop.tasks w) i = Some t ->
  Loop.at_global_wait (Loop.t_code t) = true ->
  step a w = Some w' ->
  nth_error (Loop.tasks w') i = Some t.
Proof.
  intros Hf Hi Hw Hstep. destruct a as [self route bypass kw|j|j reply|j|tm];
    unfold Loop.step in Hstep.
  - pose proof (settle_tasks (request self route bypass kw) w) as Hs.
    destruct (Loop.settle w (request self route bypass kw)) as [w1 p1].
    injection Hstep as <-. cbn [Loop.tasks Loop.set_tasks fst] in *. rewrite Hs.
    rewrite nth_error_app1; [assumption|].
    apply nth_error_Some. congruence.
  - destruct (nth_error (Loop.tasks w) j) as [tj|] eqn:Hj; [|discriminate].
    assert (Hij : i <> j).
    { intros ->. rewrite Hi in Hj. injection Hj as <-.
      destruct (Loop.t_code t); try discriminate.
      rewrite Hf in Hstep. discriminate. }
    destruct (Loop.t_code tj); try discriminate.
    + rewrite Hf in Hstep. discriminate.
    + destruct (Loop.is_locked lock w); [discriminate|].
      injection Hstep as <-. now apply continue_task_other.
    + destruct (Qle_bool (Loop.t_wake tj) (Loop.now w)); [|discriminate].
      injection Hstep as <-. now apply continue_task_other.
  - destruct (nth_error (Loop.tasks w) j) as [tj|] eqn:Hj; [|discriminate].
    assert (Hij : i <> j).
    { intros ->. rewrite Hi in Hj. injection Hj as <-.
      destruct (Loop.t_code t); discriminate. }
    destruct (Loop.t_code tj); try discriminate.
    injection Hstep as <-. now apply continue_task_other.
  - destruct (nth_error (Loop.timers w) j) as [[due l]|]; [|discriminate].
    destruct (Qle_bool due (Loop.now w)); [|discriminate].
    injection Hstep as <-. exact Hi.
  - destruct (Qle_bool (Loop.now w) tm && Loop.nothing_due_before tm w)%bool;
      [|discriminate].
    injection Hstep as <-. exact Hi.
Qed.

(** Whatever the loop does, a coroutine that waits for the flag is where it
    was unless the flag has been set on the way. *)
Lemma waits_until_flag_is_set acts :
  forall w w' i t,
    nth_error (Loop.tasks w) i = Some t ->
    Loop.at_global_wait (Loop.t_code t) = true ->
    steps acts w = Some w' ->
    nth_error (Loop.tasks w') i = Some t
    \/ exists acts1 acts2 w1,
         acts = acts1 ++ acts2 /\ steps acts1 w = Some w1
         /\ Loop.global_over w1 = true.
Proof.
  induction acts as [|a acts IH]; intros w w' i t Hi Hw Hs.
  - injection Hs as <-. now left.
  - destruct (Loop.global_over w) eqn:Hf.
    + right. exists [], (a :: acts), w. auto.
    + cbn [Loop.steps] in Hs.
      destruct (step a w) as [w1|] eqn:Ha; [|discriminate].
      pose proof (waiting_for_flag_is_held a w w1 i t Hf Hi Hw Ha) as Hi1.
      destruct (IH w1 w' i t Hi1 Hw Hs) as [H|(a1 & a2 & w2 & E & S1 & F)];
        [now left|].
      right. exists (a :: a1), a2, w2. subst acts.
      cbn [Loop.steps app]. rewrite Ha. auto.
Qed.

(** Once the flag is set, the loop can run a call that waited for it: the
    call goes on to its lock, and sends its request when the lock is
    free. *)
Lemma resumed_after_flag_is_set self route bypass kw l w i t :
  nth_error (Loop.tasks w) i = Some t ->
  Loop.t_code t = GlobalWait (Acquire l (held self route bypass kw l)) ->
  Loop.global_over w = true ->
  exists w' t',
    step (Loop.Resume i) w = Some w'
    /\ nth_error (Loop.tasks w') i = Some t'
    /\ Loop.global_over w' = true
    /\ if Loop.is_locked l w
       then Loop.t_code t' = Acquire l (held self route bypass kw l)
            /\ Loop.locked w' = Loop.locked w
       else (exists k,
               Loop.t_code t'
               = SessionRequest (Route.method route) (Route.url route)
                   (HTTPClient.send_kwargs_of to_json self route kw) k)
            /\ Loop.locked w' = l :: Loop.locked w.
Proof.
  intros Hi Hc Hf.
  destruct (with_lock_sends self route bypass kw l) as (k & Hk & _).
  cbn [Loop.step]. rewrite Hi, Hc, Hf.
  do 2 eexists. split; [reflexivity|].
  split; [apply (continue_task_same i t w _ t Hi)|].
  unfold Loop.continue_task. cbn [Loop.settle].
  destruct (Loop.is_locked l w) eqn:Hl.
  - cbn. auto.
  - rewrite Hk. cbn. split; [assumption|]. split; [eauto|reflexivity].
Qed.

(** A coroutine past the flag stays past it, whatever the loop does. *)
Lemma past_flag_kept a w w' i t :
  nth_error (Loop.tasks w) i = Some t ->
  past_flag (Loop.t_code t) ->
  step a w = Some w' ->
  exists t', nth_error (Loop.tasks w') i = Some t' /\ past_flag (Loop.t_code t').
Proof.
  intros Hi Hp Hstep. destruct a as [self route bypass kw|j|j reply|j|tm];
    unfold Loop.step in Hstep.
  - pose proof (settle_tasks (request self route bypass kw) w) as Hs.
    destruct (Loop.settle w (request self route bypass kw)) as [w1 p1].
    injection Hstep as <-. cbn [Loop.tasks Loop.set_tasks fst] in *. rewrite Hs.
    exists t. split; [|assumption].
    rewrite nth_error_app1; [assumption|].
    apply nth_error_Some. congruence.
  - destruct (nth_error (Loop.tasks w) j) as [tj|] eqn:Hj; [|discriminate].
    destruct (Nat.eq_dec i j) as [<-|Hij].
    + rewrite Hi in Hj. injection Hj as <-.
      destruct (Loop.t_code t) eqn:Hc; try discriminate.
      * contradiction.
      * destruct (Loop.is_locked lock w); [discriminate|].
        injection Hstep as <-. eexists.
        split; [apply (continue_task_same i t _ _ t); exact Hi|].
        cbn [Loop.suspended Loop.t_code]. now apply past_flag_settle.
      * destruct (Qle_bool (Loop.t_wake t) (Loop.now w)); [|discriminate].
        injection Hstep as <-. eexists.
        split; [apply (continue_task_same i t _ _ t); exact Hi|].
        cbn [Loop.suspended Loop.t_code]. now apply past_flag_settle.
    + exists t. split; [|assumption].
      destruct (Loop.t_code tj); try discriminate.
      * destruct (Loop.global_over w); [|discriminate].
        injection Hstep as <-. now apply continue_task_other.
      * destruct (Loop.is_locked lock w); [discriminate|].
        injection Hstep as <-. now apply continue_task_other.
      * destruct (Qle_bool (Loop.t_wake tj) (Loop.now w)); [|discriminate].
        injection Hstep as <-. now apply continue_task_other.
  - destruct (nth_error (Loop.tasks w) j) as [tj|] eqn:Hj; [|discriminate].
    destruct (Nat.eq_dec i j) as [<-|Hij].
    + rewrite Hi in Hj. injection Hj as <-.
      destruct (Loop.t_code t) eqn:Hc; try discriminate.
      injection Hstep as <-. eexists.
      split; [apply (continue_task_same i t _ _ t); exact Hi|].
      cbn [Loop.suspended Loop.t_code]. apply past_flag_settle. apply Hp.
    + exists t. split; [|assumption].
      destruct (Loop.t_code tj); try discriminate.
      injection Hstep as <-. now apply continue_task_other.
  - destruct (nth_error (Loop.timers w) j) as [[due l]|]; [|discriminate].
    destruct (Qle_bool due (Loop.now w)); [|discriminate].
    injection Hstep as <-. eauto.
  - destruct (Qle_bool (Loop.now w) tm && Loop.nothing_due_before tm w)%bool;
      [|discriminate].
    injection Hstep as <-. eauto.
Qed.

(** Whether the loop can run a coroutine past the flag, or hand it a reply,
    does not depend on the flag. *)
Lemma past_flag_runs_regardless a w i t b :
  nth_error (Loop.tasks w) i = Some t ->
  past_flag (Loop.t_code t) ->
  a = Loop.Resume i \/ (exists reply, a = Loop.Reply i reply) ->
  step a (Loop.set_global b w) = None <-> step a w = None.
Proof.
  intros Hi Hp [->|[reply ->]]; cbn [Loop.step Loop.set_global Loop.tasks];
    rewrite Hi; destruct (Loop.t_code t); try tauto; try contradiction.
  - change (Loop.is_locked lock (Loop.set_global b w)) with (Loop.is_locked lock w).
    destruct (Loop.is_locked lock w); split; intros H;
      cbv beta iota in H |- *; (reflexivity || discriminate H).
  - change (Loop.now (Loop.set_global b w)) with (Loop.now w).
    destruct (Qle_bool (Loop.t_wake t) (Loop.now w));
      split; intros H; cbv beta iota in H |- *;
      (reflexivity || discriminate H).
  - split; discriminate.
Qed.


End EventLoop.

Example add_reaction_route :
  Concurrent.add_reaction = Some Concurrent.reaction
  /\ Route.bucket Concurrent.reaction
     = "PUT:111:None:/channels/{channel.id}/messages/{message_id}/reactions/{emoji}/@me".
Proof. split; reflexivity. Qed.



(** C2 on the code, at the failing input: two calls of [add_reaction] on
    one channel.  The first is answered 502 with
    [X-Ratelimit-Remaining: 0]: it schedules the release of the bucket lock
    a quarter of a second later and backs off for one second, still inside
    the loop.  The timer releases the lock, the second call takes it and
    sends its request, and at time 1 the first call sends its next attempt:
    two attempts of one bucket are in flight. *)
Theorem deferred_release_overlaps_attempts :
  let reaction := Route.bucket Concurrent.reaction in
  Concurrent.look (firstn 3 Concurrent.overlap)
  = Some (true, [(reaction, Loop.Asleep (0 + inject_Z (1 + 0 * 2)));
                 (reaction, Loop.ForLock 0)])
  /\ Concurrent.look Concurrent.overlap
     = Some (true, [(reaction, Loop.InFlight); (reaction, Loop.InFlight)])
  /\ option_map (Loop.in_flight_on reaction)
       (Sample.steps Concurrent.overlap Loop.initial) = Some 2%nat.
Proof. repeat split; vm_compute; reflexivity. Qed.

(** * Further properties of the module *)

(** ** The request loop: what every call does *)

Section EveryCall.

Variable json_loads : string -> option json.
Variable _parse_ratelimit_header : response -> result Q.
Variable to_json : json -> string.

Local Abbreviation json_or_text := (HTTPClient.json_or_text json_loads).
Local Abbreviation request := (HTTPClient.request json_loads _parse_ratelimit_header to_json).
Local Abbreviation send_kwargs_of := (HTTPClient.send_kwargs_of to_json).
Local Abbreviation try_block := (HTTPClient.try_block json_loads _parse_ratelimit_header).
Local Abbreviation attempts := (HTTPClient.attempts json_loads _parse_ratelimit_header).
Local Abbreviation release_delay := (HTTPClient.release_delay _parse_ratelimit_header).
Local Abbreviation defer_events := (Shape.defer_events _parse_ratelimit_header).

Lemma received_app a b : received (a ++ b) = received a ++ received b.
Proof.
  induction a as [|ev a IH]; [reflexivity|].
  destruct ev; simpl; auto. destruct reply; simpl; now rewrite ?IH.
Qed.

Lemma released_app a b : released (a ++ b) = released a ++ released b.
Proof.
  induction a as [|ev a IH]; [reflexivity|].
  destruct ev; simpl; auto. now rewrite IH.
Qed.

Lemma inner_events tr :
  forallb inner tr = true ->
  received tr = [] /\ released tr = [] /\ filter is_acquire tr = []
  /\ filter is_request tr = [] /\ existsb is_release tr = false.
Proof.
  induction tr as [|ev tr IH]; [auto|].
  destruct ev; simpl; try discriminate; auto.
Qed.

Lemma entry_events_quiet e bucket :
  received (entry_events e bucket) = []
  /\ released (entry_events e bucket) = []
  /\ filter is_acquire (entry_events e bucket) = [EvAcquire (lock_of e)]
  /\ existsb touches_flag (entry_events e bucket) = false.
Proof. unfold entry_events. destruct (e_lock e), (e_flag e); auto. Qed.

Lemma exit_events_quiet mu :
  received (exit_events mu) = [] /\ released (exit_events mu) = []
  /\ filter is_acquire (exit_events mu) = []
  /\ filter is_request (exit_events mu) = []
  /\ filter is_call_later (exit_events mu) = []
  /\ existsb touches_flag (exit_events mu) = false.
Proof. unfold exit_events. destruct (MaybeUnlock._unlock mu); auto 10. Qed.

(** The body of [try:] for one response: the events are those of the rate
    limit check and of the back-off, a release is scheduled exactly for a
    decoded response of an exhausted bucket whose delay is known, and the
    flag is written only for a 429. *)
Lemma try_block_events bypass e n tries r mu :
  let T := exec e n (try_block bypass tries r mu) in
  forallb inner (trace T) = true
  /\ filter is_call_later (trace T)
     = (if decodes json_loads r then defer_events bypass r (MaybeUnlock.lock mu)
        else [])
  /\ MaybeUnlock._unlock (fst (value T))
     = (MaybeUnlock._unlock mu && negb (existsb is_call_later (trace T)))%bool
  /\ (existsb touches_flag (trace T) = true -> status r = 429).
Proof.
  unfold HTTPClient.try_block, decodes, HTTPClient.ratelimit_check,
    Shape.defer_events, HTTPClient.release_delay,
    HTTPClient.status_dispatch, HTTPClient.rate_limited.
  destruct (json_or_text r) as [data|x]; cbn [andb negb];
    [|simpl; rewrite andb_true_r; repeat split; auto; discriminate].
  destruct (HTTPClient.bucket_exhausted r); cbn [andb negb bind];
    [destruct bypass as [given|]; [|destruct (_parse_ratelimit_header r)]|];
    cbn [bind];
    destruct (Z.eqb_spec (status r) 429) as [E|E];
    repeat match goal with
           | |- context [match ?x with _ => _ end] => destruct x
           | |- context [if ?x then _ else _] => destruct x
           end; simpl; rewrite ?andb_true_r, ?andb_false_r;
    repeat split; auto; discriminate.
Qed.

Section Loop.

Variable bypass : option Q.
Variables (method url : string) (kw : send_kwargs).
Variable e : env.

Local Abbreviation loop := (attempts bypass method url kw).

(** The responses of the loop are released as they were received, and the
    requests of the loop are counted by [sent]. *)
Lemma attempts_responses range :
  forall n mu last,
    let L := exec e n (loop range mu last) in
    released (trace L) = received (trace L)
    /\ (n + count_requests (trace L))%nat = sent L
    /\ filter is_acquire (trace L) = [].
Proof.
  induction range as [|tries rest IH]; intros n mu last; cbv zeta.
  - rewrite attempts_nil. simpl. auto.
  - rewrite attempts_cons. destruct (e_replies e n) as [r|ex]; [|simpl; auto with arith].
    cbv zeta.
    destruct (try_block_events bypass e (S n) tries r mu) as (Hin & _).
    apply inner_events in Hin. destruct Hin as (H1 & H2 & H3 & H4 & _).
    destruct (exec e (S n) (try_block bypass tries r mu)) as [tr [mu1 c] s].
    cbn [value trace fst snd] in *.
    unfold count_requests in *.
    destruct c; cbn [trace sent received released filter is_request is_acquire List.length];
      rewrite ?received_app, ?released_app, ?filter_app, ?H1, ?H2, ?H3, ?H4;
      cbn [app received released filter is_request is_acquire List.length];
      try (repeat split; auto; lia).
    destruct (IH (S n) mu1 (Some (r, data))) as (I1 & I2 & I3).
    rewrite I1, I3. repeat split; auto. lia.
Qed.

(** The releases the loop schedules, and whether [maybe_lock] still
    unlocks on exit. *)
Lemma attempts_deferred range :
  forall n mu last,
    let L := exec e n (loop range mu last) in
    filter is_call_later (trace L)
    = flat_map (fun r => if decodes json_loads r
                         then defer_events bypass r (MaybeUnlock.lock mu)
                         else [])
        (received (trace L))
    /\ MaybeUnlock._unlock (fst (value L))
       = (MaybeUnlock._unlock mu && negb (existsb is_call_later (trace L)))%bool.
Proof.
  induction range as [|tries rest IH]; intros n mu last; cbv zeta.
  - rewrite attempts_nil. simpl. now rewrite andb_true_r.
  - rewrite attempts_cons.
    destruct (e_replies e n) as [r|ex]; [|simpl; now rewrite andb_true_r].
    cbv zeta.
    destruct (try_block_events bypass e (S n) tries r mu) as (Hin & Hc & Hu & _).
    pose proof (try_block_lock json_loads _parse_ratelimit_header bypass e (S n) tries r mu)
      as (Hl & _).
    apply inner_events in Hin. destruct Hin as (H1 & _).
    destruct (exec e (S n) (try_block bypass tries r mu)) as [tr [mu1 c] s].
    cbn [value trace fst snd] in *.
    destruct c; cbn [trace value fst filter is_call_later is_request received existsb];
      rewrite ?received_app, ?filter_app, ?existsb_app, ?H1;
      cbn [app received filter is_call_later existsb flat_map orb];
      rewrite ?orb_false_r, ?app_nil_r.
    + rewrite Hc, Hu. auto.
    + destruct (IH (S n) mu1 (Some (r, data))) as (I1 & I2).
      rewrite I1, I2, Hc, Hu, Hl, negb_orb, andb_assoc. auto.
    + rewrite Hc, Hu. auto.
Qed.

(** The loop writes the global flag only for a response of status 429. *)
Lemma attempts_flag range :
  forall n mu last,
    existsb touches_flag (trace (exec e n (loop range mu last))) = true ->
    exists r, In r (received (trace (exec e n (loop range mu last))))
              /\ status r = 429.
Proof.
  induction range as [|tries rest IH]; intros n mu last.
  - rewrite attempts_nil. discriminate.
  - rewrite attempts_cons. destruct (e_replies e n) as [r|ex]; [|discriminate].
    cbv zeta.
    destruct (try_block_events bypass e (S n) tries r mu) as (_ & _ & _ & Hf).
    destruct (exec e (S n) (try_block bypass tries r mu)) as [tr [mu1 c] s].
    cbn [value trace fst snd] in *.
    destruct c; cbn [trace existsb touches_flag received orb];
      rewrite ?existsb_app; cbn [existsb touches_flag orb];
      rewrite ?orb_false_r; intros H.
    + exists r. split; [now left|auto].
    + apply orb_true_iff in H as [H|H].
      * exists r. split; [now left|auto].
      * destruct (IH _ _ _ H) as (r' & Hin & Hs).
        exists r'. split; [|assumption].
        right. rewrite received_app. apply in_or_app. right. exact Hin.
    + exists r. split; [now left|auto].
Qed.

End Loop.

(** X1.  Whatever the transport answers, a call of [request] sends at least
    one and at most five requests, and the log of the run holds exactly
    these. *)
Theorem request_sends_one_to_five :
  forall self route bypass kw e,
    let R := exec e 0 (request self route bypass kw) in
    (1 <= sent R <= 5)%nat /\ count_requests (trace R) = sent R.
Proof.
  intros self route bypass kw e R. split.
  - apply request_sent.
  - subst R. rewrite exec_request. cbv zeta. cbn [trace sent].
    rewrite !count_requests_app, entry_no_request.
    match goal with
    | |- context [exec e 0 (attempts ?b ?m ?u ?k ?rg ?mu ?l)] =>
        destruct (attempts_responses b m u k e rg 0 mu l) as (_ & H & _);
        destruct (exit_events_quiet (fst (value (exec e 0 (attempts b m u k rg mu l)))))
          as (_ & _ & _ & Hq & _)
    end.
    unfold count_requests at 2. rewrite Hq. cbn [List.length]. lia.
Qed.

(** X2.  The [finally] clause: every response the transport gave to a call
    is released, once and in the order of arrival, whether its attempt
    returned, raised or went on to the next attempt. *)
Theorem every_response_is_released :
  forall self route bypass kw e,
    let R := exec e 0 (request self route bypass kw) in
    released (trace R) = received (trace R)
    /\ (List.length (received (trace R)) <= sent R)%nat.
Proof.
  intros self route bypass kw e R. subst R.
  rewrite exec_request. cbv zeta. cbn [trace sent].
  rewrite !received_app, !released_app.
  destruct (entry_events_quiet e (Route.bucket route)) as (E1 & E2 & _).
  match goal with
  | |- context [exec e 0 (attempts ?b ?m ?u ?k ?rg ?mu ?l)] =>
      destruct (attempts_responses b m u k e rg 0 mu l) as (H1 & H2 & _);
      destruct (exit_events_quiet (fst (value (exec e 0 (attempts b m u k rg mu l)))))
        as (X1 & X2 & _);
      set (L := exec e 0 (attempts b m u k rg mu l)) in *
  end.
  rewrite E1, E2, X1, X2, H1, app_nil_r. split; [reflexivity|].
  cbn [app]. rewrite <- H2. cbn [Nat.add].
  unfold count_requests. generalize (trace L). intros tr.
  induction tr as [|ev tr IH]; [simpl; lia|].
  destruct ev; simpl; auto. destruct reply; simpl; lia.
Qed.

(** The requests in the log of a call. *)
Lemma request_events self route bypass kw e m u skw reply :
  In (EvRequest m u skw reply) (trace (exec e 0 (request self route bypass kw))) ->
  m = Route.method route /\ u = Route.url route
  /\ skw = send_kwargs_of self route kw.
Proof.
  rewrite exec_request. cbv zeta. cbn [trace]. intros Hin.
  apply in_app_or in Hin as [Hin|Hin].
  - unfold entry_events in Hin.
    destruct (e_lock e), (e_flag e); simpl in Hin;
      repeat (destruct Hin as [Hin|Hin]; [discriminate|]); destruct Hin.
  - apply in_app_or in Hin as [Hin|Hin].
    + eapply attempts_requests. exact Hin.
    + unfold exit_events in Hin.
      destruct (MaybeUnlock._unlock _); simpl in Hin;
        repeat (destruct Hin as [Hin|Hin]; [discriminate|]); destruct Hin.
Qed.

(** X3.  Every attempt of a call sends the same request: the method and
    the URL of the route and the keyword arguments built before the loop. *)
Theorem retries_repeat_the_request :
  forall self route bypass kw e,
    let R := exec e 0 (request self route bypass kw) in
    Forall (fun ev =>
              match ev with
              | EvRequest m u skw _ =>
                  m = Route.method route /\ u = Route.url route
                  /\ skw = send_kwargs_of self route kw
              | _ => True
              end) (trace R).
Proof.
  intros self route bypass kw e R. subst R. apply Forall_forall.
  intros ev Hin. destruct ev; try exact I.
  eapply request_events. exact Hin.
Qed.

(** X4.  A call looks up the lock of its bucket, makes and registers one
    when the table has none, and takes that lock once, before it sends
    anything; it takes no other lock and never takes it again. *)
Theorem lock_is_taken_once_before_sending :
  forall self route bypass kw e,
    let R := exec e 0 (request self route bypass kw) in
    exists pre post,
      trace R = pre ++ EvAcquire (lock_of e) :: post
      /\ count_requests pre = 0%nat
      /\ filter is_acquire (pre ++ post) = []
      /\ In (EvLocksGet (Route.bucket route) (e_lock e)) pre
      /\ match e_lock e with
         | Some l => lock_of e = l
         | None =>
             lock_of e = e_fresh e
             /\ In (EvLocksSet (Route.bucket route) (e_fresh e)) pre
         end.
Proof.
  intros self route bypass kw e R. subst R.
  rewrite exec_request. cbv zeta. cbn [trace].
  match goal with
  | |- context [exec e 0 (attempts ?b ?m ?u ?k ?rg ?mu ?l)] =>
      destruct (attempts_responses b m u k e rg 0 mu l) as (_ & _ & H3);
      destruct (exit_events_quiet (fst (value (exec e 0 (attempts b m u k rg mu l)))))
        as (_ & _ & X3 & _);
      set (L := exec e 0 (attempts b m u k rg mu l)) in *
  end.
  unfold entry_events, lock_of.
  destruct (e_lock e) as [l|], (e_flag e); cbn [app].
  - exists [EvLocksGet (Route.bucket route) (Some l); EvGlobalIsSet true],
      (trace L ++ exit_events (fst (value L))).
    cbn [app filter is_acquire]. rewrite filter_app, H3, X3. simpl. auto 10.
  - exists [EvLocksGet (Route.bucket route) (Some l); EvGlobalIsSet false; EvGlobalWait],
      (trace L ++ exit_events (fst (value L))).
    cbn [app filter is_acquire]. rewrite filter_app, H3, X3. simpl. auto 10.
  - exists [EvLocksGet (Route.bucket route) None; EvNewLock (e_fresh e);
            EvLocksSet (Route.bucket route) (e_fresh e); EvGlobalIsSet true],
      (trace L ++ exit_events (fst (value L))).
    cbn [app filter is_acquire]. rewrite filter_app, H3, X3. simpl. auto 10.
  - exists [EvLocksGet (Route.bucket route) None; EvNewLock (e_fresh e);
            EvLocksSet (Route.bucket route) (e_fresh e); EvGlobalIsSet false;
            EvGlobalWait],
      (trace L ++ exit_events (fst (value L))).
    cbn [app filter is_acquire]. rewrite filter_app, H3, X3. simpl. auto 10.
Qed.

(** X5.  The releases a call schedules with [call_later] are exactly one
    for each response whose body decoded, whose bucket is exhausted and
    whose delay is known: given by the caller, or returned by
    [utils._parse_ratelimit_header].  They come in the order of the
    responses, each on the lock of the call and after the delay of its
    response; a response for which the helper raises schedules none.  A
    call whose retried responses are all of the first kind schedules the
    release of its one lock several times. *)
Theorem one_scheduled_release_per_exhausted_response :
  forall self route bypass kw e,
    let R := exec e 0 (request self route bypass kw) in
    filter is_call_later (trace R)
    = flat_map (fun r =>
                  if (decodes json_loads r && HTTPClient.bucket_exhausted r)%bool
                  then match release_delay bypass r with
                       | Ok delta => [EvCallLater delta (lock_of e)]
                       | Raise _ => []
                       end
                  else [])
        (received (trace R)).
Proof.
  intros self route bypass kw e R. subst R.
  rewrite exec_request. cbv zeta. cbn [trace].
  rewrite !filter_app, !received_app.
  destruct (entry_events_quiet e (Route.bucket route)) as (E1 & _).
  destruct (entry_no_release e (Route.bucket route)) as (_ & E2).
  match goal with
  | |- context [exec e 0 (attempts ?b ?m ?u ?k ?rg ?mu ?l)] =>
      destruct (attempts_deferred b m u k e rg 0 mu l) as (H1 & _);
      destruct (exit_events_quiet (fst (value (exec e 0 (attempts b m u k rg mu l)))))
        as (X1 & _ & _ & _ & X5 & _);
      set (L := exec e 0 (attempts b m u k rg mu l)) in *
  end.
  assert (E3 : filter is_call_later (entry_events e (Route.bucket route)) = []).
  { revert E2. generalize (entry_events e (Route.bucket route)).
    induction l as [|ev l IH]; [reflexivity|].
    simpl. destruct (is_call_later ev); simpl; [discriminate|auto]. }
  rewrite E1, E3, X1, X5, H1, !app_nil_r. cbn [app MaybeUnlock.init MaybeUnlock.lock].
  generalize (received (trace L)). intros rs.
  induction rs as [|r rs IH]; [reflexivity|].
  cbn [flat_map]. rewrite IH. f_equal. unfold Shape.defer_events.
  destruct (decodes json_loads r), (HTTPClient.bucket_exhausted r); reflexivity.
Qed.

(** X6.  [MaybeUnlock]: a call releases its lock itself exactly when it
    scheduled no release, and then as its last act; it never does both and
    never releases twice. *)
Theorem lock_is_released_at_exit_unless_deferred :
  forall self route bypass kw e,
    let R := exec e 0 (request self route bypass kw) in
    exists body,
      trace R = body ++ (if existsb is_call_later body then []
                         else [EvRelease (lock_of e)])
      /\ existsb is_release body = false.
Proof.
  intros self route bypass kw e R. subst R.
  rewrite exec_request. cbv zeta. cbn [trace].
  destruct (entry_no_release e (Route.bucket route)) as (E1 & E2).
  match goal with
  | |- context [exec e 0 (attempts ?b ?m ?u ?k ?rg ?mu ?l)] =>
      destruct (attempts_deferred b m u k e rg 0 mu l) as (_ & H2);
      destruct (attempts_release json_loads _parse_ratelimit_header
                  b m u k e rg 0 mu l) as (R1 & R2 & _);
      set (L := exec e 0 (attempts b m u k rg mu l)) in *
  end.
  exists (entry_events e (Route.bucket route) ++ trace L).
  rewrite !existsb_app, E1, E2, R1. cbn [orb].
  split; [|reflexivity].
  rewrite <- app_assoc. do 2 f_equal.
  unfold exit_events. rewrite H2, R2. cbn [MaybeUnlock.init MaybeUnlock._unlock
    MaybeUnlock.lock andb].
  destruct (existsb is_call_later (trace L)); reflexivity.
Qed.

(** X7.  A call writes the global flag only when a response of status 429
    has arrived: without one it neither clears nor sets the flag. *)
Theorem flag_is_written_only_for_429 :
  forall self route bypass kw e,
    let R := exec e 0 (request self route bypass kw) in
    existsb touches_flag (trace R) = true ->
    exists r, In r (received (trace R)) /\ status r = 429.
Proof.
  intros self route bypass kw e R. subst R.
  rewrite exec_request. cbv zeta. cbn [trace].
  rewrite !existsb_app, !received_app.
  destruct (entry_events_quiet e (Route.bucket route)) as (E1 & _ & _ & E4).
  match goal with
  | |- context [exec e 0 (attempts ?b ?m ?u ?k ?rg ?mu ?l)] =>
      pose proof (attempts_flag b m u k e rg 0 mu l) as H;
      destruct (exit_events_quiet (fst (value (exec e 0 (attempts b m u k rg mu l)))))
        as (X1 & _ & _ & _ & _ & X6);
      set (L := exec e 0 (attempts b m u k rg mu l)) in *
  end.
  rewrite E1, E4, X1, X6, orb_false_r, app_nil_r. exact H.
Qed.

End EveryCall.

(** ** The headers and the body of a request *)

Section Headers.

Variable to_json : json -> string.

Local Abbreviation send_kwargs_of := (HTTPClient.send_kwargs_of to_json).

Lemma header_creation_keys route k :
  String.eqb k "User-Agent" = false ->
  String.eqb k "referer" = false ->
  String.eqb k "x-super-properties" = false ->
  Dict.get k (HTTPClient.header_creation (HTTPClient.request_locals route)) = None.
Proof.
  intros H1 H2 H3. unfold HTTPClient.header_creation.
  destruct (HTTPClient.channel_referer _); [|destruct (HTTPClient.guild_referer _)];
    simpl; now rewrite H1, H2, H3.
Qed.

Lemma header_creation_fixed route :
  Dict.get "User-Agent" (HTTPClient.header_creation (HTTPClient.request_locals route))
  = Some HTTPClient.USER_AGENT
  /\ Dict.get "x-super-properties"
       (HTTPClient.header_creation (HTTPClient.request_locals route))
     = Some HTTPClient.SUPER_PROPERTIES.
Proof.
  unfold HTTPClient.header_creation.
  destruct (HTTPClient.channel_referer _); [|destruct (HTTPClient.guild_referer _)];
    split; reflexivity.
Qed.

(** X8.  The credentials of a request: with a token the [Authorization]
    header is the token, after the word [Bot] for a bot account, and
    without a token there is no such header; the [User-Agent] and
    [x-super-properties] headers are the fixed ones whatever the token and
    the keyword arguments. *)
Theorem authorization_header_follows_the_token :
  forall self route kw,
    let h := sk_headers (send_kwargs_of self route kw) in
    Dict.get "Authorization" h
    = match HTTPClient.token self with
      | Some tok =>
          Some (if HTTPClient.bot_token self then ("Bot " ++ tok)%string else tok)
      | None => None
      end
    /\ Dict.get "User-Agent" h = Some HTTPClient.USER_AGENT
    /\ Dict.get "x-super-properties" h = Some HTTPClient.SUPER_PROPERTIES.
Proof.
  intros self route kw. cbv zeta. unfold HTTPClient.send_kwargs_of.
  destruct (header_creation_fixed route) as [Hua Hsp].
  destruct (HTTPClient.token self) as [tok|], (HTTPClient.kw_json kw),
    (HTTPClient.kw_reason kw) as [reason|];
    cbn [sk_headers]; try destruct (String.eqb reason EmptyString);
    repeat split;
    rewrite ?get_set_other by reflexivity;
    rewrite ?get_set_same, ?Hua, ?Hsp;
    try reflexivity;
    apply header_creation_keys; reflexivity.
Qed.

(** X9.  A [json=] argument is serialised into [data], replacing a [data]
    the caller passed, and announced by [Content-Type: application/json];
    without it no content type is set and [data] is the caller's. *)
Theorem json_argument_becomes_the_body :
  forall self route kw,
    let skw := send_kwargs_of self route kw in
    Dict.get "Content-Type" (sk_headers skw)
    = match HTTPClient.kw_json kw with
      | Some _ => Some "application/json"%string
      | None => None
      end
    /\ Dict.get "data" (sk_other skw)
       = match HTTPClient.kw_json kw with
         | Some payload => Some (to_json payload)
         | None => Dict.get "data" (HTTPClient.kw_other kw)
         end.
Proof.
  intros self route kw. cbv zeta. unfold HTTPClient.send_kwargs_of.
  destruct (HTTPClient.token self) as [tok|], (HTTPClient.kw_json kw),
    (HTTPClient.kw_reason kw) as [reason|];
    cbn [sk_headers sk_other]; try destruct (String.eqb reason EmptyString);
    split;
    rewrite ?get_set_other by reflexivity;
    rewrite ?get_set_same;
    try reflexivity;
    apply header_creation_keys; reflexivity.
Qed.

(** X10.  A [reason=] argument that is a non-empty string is sent as the
    [X-Audit-Log-Reason] header, percent-encoded but for [/] and the
    space; an empty reason, [None] or no reason at all gives no header. *)
Theorem reason_becomes_the_audit_log_header :
  forall self route kw,
    Dict.get "X-Audit-Log-Reason" (sk_headers (send_kwargs_of self route kw))
    = match HTTPClient.kw_reason kw with
      | Some reason =>
          if String.eqb reason EmptyString then None
          else Some (Str.quote "/ " reason)
      | None => None
      end.
Proof.
  intros self route kw. unfold HTTPClient.send_kwargs_of.
  destruct (HTTPClient.token self) as [tok|], (HTTPClient.kw_json kw),
    (HTTPClient.kw_reason kw) as [reason|];
    cbn [sk_headers]; try destruct (String.eqb reason EmptyString);
    rewrite ?get_set_same; try reflexivity;
    rewrite ?get_set_other by reflexivity;
    apply header_creation_keys; reflexivity.
Qed.

End Headers.

(** ** [static_login] and [_token] *)

(** X11.  [static_login] goes through [_token], which forgets the
    acknowledgement token: whatever the outcome of the login check, and
    also when the old token and bot flag are put back, the client is left
    without an acknowledgement token; the proxy settings are untouched. *)
Theorem static_login_forgets_the_ack_token :
  forall json_loads _parse_ratelimit_header to_json Forbidden_derives NotFound_derives
         self token bot e,
    let S := exec e 0 (HTTPClient.static_login json_loads _parse_ratelimit_header
                         to_json Forbidden_derives NotFound_derives self token bot) in
    HTTPClient._ack_token (fst (value S)) = None
    /\ HTTPClient.proxy (fst (value S)) = HTTPClient.proxy self
    /\ HTTPClient.proxy_auth (fst (value S)) = HTTPClient.proxy_auth self.
Proof.
  intros. subst S. rewrite exec_static_login. cbv zeta. cbn [value].
  destruct (value (exec e 0 _)) as [data|ex]; [repeat split|].
  destruct (HTTPClient.is_HTTPException _ _ ex); repeat split.
Qed.

(** ** [get_attachment] *)

(** X12.  [get_attachment] sends one GET to the address it is given and
    never retries; the request carries none of the client's headers, so no
    [Authorization], and no proxy; no lock is taken and the global flag is
    not looked at; the response, when there is one, is released whatever
    its status. *)
Theorem get_attachment_is_one_bare_request :
  forall self url e n,
    let G := exec e n (Endpoints.get_attachment self url) in
    sent G = S n
    /\ filter is_request (trace G)
       = [EvRequest "GET" url Endpoints.bare (e_replies e n)]
    /\ Dict.get "Authorization" (sk_headers Endpoints.bare) = None
    /\ sk_proxy Endpoints.bare = None
    /\ released (trace G) = received (trace G)
    /\ forallb (fun ev => match ev with
                          | EvRequest _ _ _ _ | EvRespRelease _ => true
                          | _ => false
                          end) (trace G) = true.
Proof.
  intros self url e n. cbv zeta. unfold Endpoints.get_attachment. simpl.
  destruct (e_replies e n) as [resp|ex]; simpl; repeat split; reflexivity.
Qed.

(** X13.  The outcome of [get_attachment]: it returns exactly when the
    answer has status 200, and then the body; it raises what the transport
    raised, or for an answer of another status [NotFound] for 404,
    [Forbidden] for 403 and [HTTPException] for everything else, another
    2xx and the retry statuses 429, 500 and 502 of [request] included. *)
Theorem get_attachment_returns_only_on_200 :
  forall self url e n,
    let G := exec e n (Endpoints.get_attachment self url) in
    (forall b, value G = Ok b
               <-> exists resp, e_replies e n = Ok resp
                                /\ status resp = 200 /\ b = body resp)
    /\ (forall x, value G = Raise x
                  <-> e_replies e n = Raise x
                      \/ exists resp,
                           e_replies e n = Ok resp /\ status resp <> 200
                           /\ x = if Z.eqb (status resp) 404
                                  then NotFound resp (JStr "attachment not found")
                                  else if Z.eqb (status resp) 403
                                  then Forbidden resp
                                         (JStr "cannot retrieve attachment")
                                  else HTTPException resp
                                         (JStr "failed to get attachment")).
Proof.
  intros self url e n. cbv zeta. unfold Endpoints.get_attachment. simpl.
  destruct (e_replies e n) as [resp|ex]; simpl.
  - destruct (Z.eqb_spec (status resp) 200) as [E|E]; split.
    + intros b. split; [intros [= <-]; eauto|].
      intros (resp' & [= <-] & _ & ->). reflexivity.
    + intros x. split; [discriminate|].
      intros [H|(resp' & [= <-] & Hs & _)]; [discriminate|contradiction].
    + intros b. split.
      * destruct (Z.eqb (status resp) 404); [discriminate|].
        destruct (Z.eqb (status resp) 403); discriminate.
      * intros (resp' & [= <-] & Hs & _). contradiction.
    + intros x. split.
      * intros H. right. exists resp. split; [reflexivity|]. split; [assumption|].
        destruct (Z.eqb (status resp) 404); [now injection H|].
        destruct (Z.eqb (status resp) 403); now injection H.
      * intros [H|(resp' & [= <-] & _ & ->)]; [discriminate|].
        destruct (Z.eqb (status resp) 404); [reflexivity|].
        destruct (Z.eqb (status resp) 403); reflexivity.
  - split.
    + intros b. split; [discriminate|]. intros (resp' & [=] & _).
    + intros x. split.
      * intros [= <-]. now left.
      * intros [[= <-]|(resp' & [=] & _)]. reflexivity.
Qed.

Lemma get_attachment_returns_only_on_200_witness :
  value (exec (Sample.always (Ok Runs.bad_gateway)) 0
           (Endpoints.get_attachment Sample.client "https://cdn.discordapp.com/a.png"))
  = Raise (HTTPException Runs.bad_gateway (JStr "failed to get attachment")).
Proof.
  apply (proj2 (get_attachment_returns_only_on_200 Sample.client
                  "https://cdn.discordapp.com/a.png"
                  (Sample.always (Ok Runs.bad_gateway)) 0%nat)).
  right. exists Runs.bad_gateway.
  split; [reflexivity|]. split; [discriminate|reflexivity].
Defined.

(** ** [get_gateway] and [get_bot_gateway] *)

Lemma append_nil_r (s : string) : (s ++ EmptyString)%string = s.
Proof. induction s as [|c s IH]; simpl; now rewrite ?IH. Qed.

Lemma append_assoc (a b c : string) :
  ((a ++ b) ++ c)%string = (a ++ b ++ c)%string.
Proof. induction a as [|x a IH]; simpl; now rewrite ?IH. Qed.

Section Gateway.

Variable json_loads : string -> option json.
Variable _parse_ratelimit_header : response -> result Q.
Variable to_json : json -> string.
Variables Forbidden_derives NotFound_derives : bool.
Variable py_repr : json -> string.

Local Abbreviation json_or_text := (HTTPClient.json_or_text json_loads).
Local Abbreviation request := (HTTPClient.request json_loads _parse_ratelimit_header to_json).
Local Abbreviation try_block := (HTTPClient.try_block json_loads _parse_ratelimit_header).
Local Abbreviation delay_known := (Shape.delay_known _parse_ratelimit_header).
Local Abbreviation is_HTTPException :=
  (HTTPClient.is_HTTPException Forbidden_derives NotFound_derives).
Local Abbreviation gateway_data :=
  (Endpoints.gateway_data json_loads _parse_ratelimit_header to_json
     Forbidden_derives NotFound_derives).
Local Abbreviation handled :=
  (@Endpoints.handled Forbidden_derives NotFound_derives).
Local Abbreviation get_gateway :=
  (Endpoints.get_gateway json_loads _parse_ratelimit_header to_json
     Forbidden_derives NotFound_derives py_repr).
Local Abbreviation get_bot_gateway :=
  (Endpoints.get_bot_gateway json_loads _parse_ratelimit_header to_json
     Forbidden_derives NotFound_derives py_repr).

Lemma exec_gateway_data {A : Type} self route (k : json -> Endpoints.outcome A) e :
  let R := exec e 0 (request self route None HTTPClient.no_kwargs) in
  exec e 0 (gateway_data self route k)
  = mkRun (trace R) (handled k (value R)) (sent R).
Proof.
  cbv zeta. unfold Endpoints.gateway_data. rewrite exec_bind. cbv zeta.
  cbn [exec trace value sent]. now rewrite app_nil_r.
Qed.

(** A decoded response with a status in [200,300) ends the request with
    the decoded body, when its rate limit header check does not raise. *)
Lemma attempt_returns self route bypass kw e i r data :
  let R := exec e 0 (request self route bypass kw) in
  (i < sent R)%nat -> e_replies e i = Ok r ->
  json_or_text r = Ok data -> delay_known bypass r = true ->
  200 <= status r < 300 ->
  value R = Ok data /\ sent R = S i.
Proof.
  intros R Hi Hr Hd Hk Hs.
  destruct (request_attempt_response json_loads _parse_ratelimit_header to_json
              self route bypass kw e i r Hi Hr)
    as (pre & mu & _ & _ & _ & Hdec).
  fold R in Hdec. unfold attempt_decides in Hdec.
  rewrite (exec_try_block json_loads _parse_ratelimit_header bypass e (S i)
             (Z.of_nat i) r mu data Hd Hk) in Hdec.
  cbv zeta in Hdec. cbn [value trace] in Hdec.
  rewrite dispatch_success in Hdec by assumption.
  simpl in Hdec. tauto.
Qed.

(** The fifth attempt answered by a decoded 500 or 502 ends the request
    with [HTTPException], when its rate limit header check does not
    raise. *)
Lemma attempt_gives_up self route bypass kw e r data :
  let R := exec e 0 (request self route bypass kw) in
  (4 < sent R)%nat -> e_replies e 4 = Ok r ->
  json_or_text r = Ok data -> delay_known bypass r = true ->
  status r = 500 \/ status r = 502 ->
  value R = Raise (HTTPException r data).
Proof.
  intros R Hi Hr Hd Hk Hs.
  destruct (request_attempt_response json_loads _parse_ratelimit_header to_json
              self route bypass kw e 4 r Hi Hr)
    as (pre & mu & _ & _ & _ & Hdec).
  fold R in Hdec. unfold attempt_decides in Hdec.
  rewrite (exec_try_block json_loads _parse_ratelimit_header bypass e 5
             (Z.of_nat 4) r mu data Hd Hk) in Hdec.
  cbv zeta in Hdec. cbn [value trace] in Hdec.
  rewrite dispatch_server_error in Hdec by assumption.
  cbn [exec value snd logged] in Hdec.
  destruct Hdec as (post & _ & _ & H). now destruct (H eq_refl).
Qed.

Lemma json_or_text_raises r x :
  json_or_text r = Raise x -> is_HTTPException x = false.
Proof.
  unfold HTTPClient.json_or_text.
  destruct (hdr_get "content-type" (headers r)) as [ct|]; [|intros [= <-]; reflexivity].
  destruct (String.eqb ct "application/json"); [|discriminate].
  destruct (json_loads (body r)); [discriminate|intros [= <-]; reflexivity].
Qed.





End Gateway.

(** ** The methods that prepare a call of [request] *)

Section Methods.

Variable json_loads : string -> option json.
Variable _parse_ratelimit_header : response -> result Q.
Variable to_json : json -> string.

Local Abbreviation send :=
  (Endpoints.send json_loads _parse_ratelimit_header to_json).

Lemma mem_app c a b : Str.mem c (a ++ b)%string = (Str.mem c a || Str.mem c b)%bool.
Proof.
  induction a as [|x a IH]; [reflexivity|].
  simpl. rewrite IH. now rewrite orb_assoc.
Qed.

(** The two digits of an escape are hexadecimal digits. *)
Lemma hex_digits_of (a : ascii) :
  let n := nat_of_ascii a in
  Str.mem (Str.hex_digit (n / 16)) "0123456789ABCDEF" = true
  /\ Str.mem (Str.hex_digit (n mod 16)) "0123456789ABCDEF" = true.
Proof.
  destruct a as [[] [] [] [] [] [] [] []]; vm_compute; split; reflexivity.
Qed.

Lemma quote_writes safe s c :
  Str.mem c (Str.quote safe s) = true -> unreserved safe c = true.
Proof.
  induction s as [|a s IH]; [discriminate|].
  cbn [Str.quote].
  destruct (Str.is_alpha a || Str.is_digit a || Str.mem a "_.-~" || Str.mem a safe)%bool
    eqn:Ha; cbv zeta; cbn [Str.mem].
  - destruct (Ascii.eqb_spec c a) as [->|_]; cbn [orb]; [|exact IH].
    intros _. unfold unreserved. now rewrite Ha.
  - destruct (hex_digits_of a) as [H1 H2]. cbv zeta in H1, H2.
    assert (Hhex : forall d, Str.mem d "0123456789ABCDEF" = true ->
                             Ascii.eqb c d = true -> unreserved safe c = true).
    { intros d Hd Hc. apply Ascii.eqb_eq in Hc. subst d. unfold unreserved.
      cbn [Str.mem] in Hd.
      repeat match type of Hd with
             | (Ascii.eqb c ?k || _)%bool = true =>
                 destruct (Ascii.eqb_spec c k) as [->|_]; [reflexivity|cbn [orb] in Hd]
             end.
      discriminate. }
    destruct (Ascii.eqb_spec c "%") as [->|_]; cbn [orb].
    { intros _. unfold unreserved. rewrite Ascii.eqb_refl. now rewrite !orb_true_r. }
    destruct (Ascii.eqb c (Str.hex_digit (nat_of_ascii a / 16))) eqn:E1; cbn [orb].
    { intros _. exact (Hhex _ H1 E1). }
    destruct (Ascii.eqb c (Str.hex_digit (nat_of_ascii a mod 16))) eqn:E2; cbn [orb].
    { intros _. exact (Hhex _ H2 E2). }
    exact IH.
Qed.

Lemma route_of_ids method path ps :
  py_getattr (py_get "channel" ps) "id" = None ->
  Dict.is_empty ps = false ->
  Endpoints.Route_ method path ps
  = option_map (fun url =>
                  {| Route.path := path; Route.method := method; Route.url := url;
                     Route.channel := py_get "channel" ps;
                     Route.channel_id := py_get "channel_id" ps;
                     Route.guild_id := py_get "guild_id" ps |})
      (Format.format (Route.BASE ++ path) (Route.quote_values ps)).
Proof.
  intros Hc He. unfold Endpoints.Route_, Route.init, Route.with_channel_id.
  rewrite Hc, He. destruct (Format.format _ _); reflexivity.
Qed.

Lemma quoted_value v :
  py_str match v with PStr s => PStr (Str.quote "/" s) | _ => v end = in_url v.
Proof. destruct v; reflexivity. Qed.

Lemma kick_route user_id guild_id :
  Endpoints.Route_ "DELETE" "/guilds/{guild_id}/members/{user_id}"
    [("guild_id", guild_id); ("user_id", user_id)]
  = Some {| Route.path := "/guilds/{guild_id}/members/{user_id}";
            Route.method := "DELETE";
            Route.url := (Route.BASE ++ "/guilds/" ++ in_url guild_id
                            ++ "/members/" ++ in_url user_id)%string;
            Route.channel := PNone; Route.channel_id := PNone;
            Route.guild_id := guild_id |}.
Proof.
  rewrite route_of_ids by reflexivity.
  rewrite <- (append_nil_r (in_url user_id)).
  destruct guild_id, user_id; reflexivity.
Qed.

(** X18.  [kick] writes a non-empty reason into the query string of the
    URL, percent-encoded, and hands no [reason] to [request]: every request
    of the call goes to that URL and carries no [X-Audit-Log-Reason]
    header.  The bucket of the call is that of the guild, whatever the
    member and the reason. *)
Theorem kick_reason_goes_into_the_url :
  forall self user_id guild_id reason e,
    reason <> EmptyString ->
    exists c,
      Endpoints.kick user_id guild_id (Some reason) = Some c
      /\ Route.url (Endpoints.c_route c)
         = (Route.BASE ++ "/guilds/" ++ in_url guild_id ++ "/members/"
              ++ in_url user_id ++ "?reason=" ++ Str.quote "/" reason)%string
      /\ Route.bucket (Endpoints.c_route c)
         = ("DELETE:None:" ++ py_str guild_id
              ++ ":/guilds/{guild_id}/members/{user_id}")%string
      /\ Forall (fun ev =>
                   match ev with
                   | EvRequest _ u skw _ =>
                       u = Route.url (Endpoints.c_route c)
                       /\ Dict.get "X-Audit-Log-Reason" (sk_headers skw) = None
                   | _ => True
                   end) (trace (exec e 0 (send self c))).
Proof.
  intros self user_id guild_id reason e Hne.
  unfold Endpoints.kick. rewrite kick_route.
  destruct (String.eqb_spec reason EmptyString) as [E|_]; [contradiction|].
  eexists. split; [reflexivity|]. cbn [Endpoints.c_route Endpoints.set_url Route.url].
  split; [|split].
  - now rewrite !append_assoc.
  - reflexivity.
  - apply Forall_forall. intros ev Hin. destruct ev; try exact I.
    unfold Endpoints.send in Hin. cbn [Endpoints.c_route Endpoints.c_bypass
      Endpoints.c_kwargs] in Hin.
    apply request_events in Hin. destruct Hin as (_ & -> & ->).
    split; [reflexivity|].
    unfold HTTPClient.send_kwargs_of. cbn [HTTPClient.kw_json HTTPClient.kw_reason
      HTTPClient.no_kwargs].
    destruct (HTTPClient.token self); cbn [sk_headers];
      rewrite ?get_set_other by reflexivity;
      apply header_creation_keys; reflexivity.
Qed.

Lemma only_keys_restricted valid_keys options :
  restricted valid_keys options (Endpoints.only_keys valid_keys options).
Proof.
  intros k. unfold Endpoints.only_keys.
  induction options as [|[k' v] options IH]; simpl.
  - now destruct (existsb (String.eqb k) valid_keys).
  - destruct (String.eqb_spec k k') as [->|Hne].
    + destruct (existsb (String.eqb k') valid_keys) eqn:E; simpl.
      * now rewrite String.eqb_refl.
      * exact IH.
    + destruct (existsb (String.eqb k') valid_keys) eqn:E; simpl.
      * destruct (String.eqb_spec k k'); [contradiction|]. exact IH.
      * exact IH.
Qed.

(** X19.  [edit_group], [edit_channel], [edit_guild] and [edit_role] send
    as JSON the options whose key is one of the method's valid keys, with
    their values and in their order, and drop every other option. *)
Theorem edit_methods_send_valid_keys_only :
  forall channel guild_id role_id reason options,
    (forall c, Endpoints.edit_group channel options = Some c ->
       exists payload,
         HTTPClient.kw_json (Endpoints.c_kwargs c) = Some (JObj payload)
         /\ restricted ["name"; "icon"]%string options payload)
    /\ (forall c, Endpoints.edit_channel channel reason options = Some c ->
          exists payload,
            HTTPClient.kw_json (Endpoints.c_kwargs c) = Some (JObj payload)
            /\ HTTPClient.kw_reason (Endpoints.c_kwargs c) = reason
            /\ restricted ["name"; "parent_id"; "topic"; "bitrate"; "nsfw";
                           "user_limit"; "position";
                           "permission_overwrites"]%string options payload)
    /\ (forall c, Endpoints.edit_guild guild_id reason options = Some c ->
          exists payload,
            HTTPClient.kw_json (Endpoints.c_kwargs c) = Some (JObj payload)
            /\ HTTPClient.kw_reason (Endpoints.c_kwargs c) = reason
            /\ restricted ["name"; "region"; "icon"; "afk_timeout"; "owner_id";
                           "afk_channel_id"; "splash"; "verification_level";
                           "system_channel_id"]%string options payload)
    /\ (forall c, Endpoints.edit_role guild_id role_id reason options = Some c ->
          exists payload,
            HTTPClient.kw_json (Endpoints.c_kwargs c) = Some (JObj payload)
            /\ HTTPClient.kw_reason (Endpoints.c_kwargs c) = reason
            /\ restricted ["name"; "permissions"; "color"; "hoist";
                           "mentionable"]%string options payload).
Proof.
  intros channel guild_id role_id reason options.
  unfold Endpoints.edit_group, Endpoints.edit_channel, Endpoints.edit_guild,
    Endpoints.edit_role.
  repeat split; intros c H;
    match type of H with
    | match ?r with _ => _ end = _ => destruct r; [|discriminate]
    end;
    injection H as <-; eexists; cbn [Endpoints.c_kwargs Endpoints.json_kwargs
      HTTPClient.kw_json HTTPClient.kw_reason];
    repeat split; apply only_keys_restricted.
Qed.

(** X20.  The payload of [send_message] holds no value that is false
    under [if]: [content], [embed] and [nonce] are sent as given exactly
    when they are true, and [tts] is sent, as [true], exactly when it is;
    the call passes no reason and no bypass delay. *)
Theorem send_message_sends_no_false_field :
  forall channel content tts embed nonce c,
    Endpoints.send_message channel content tts embed nonce = Some c ->
    exists payload,
      HTTPClient.kw_json (Endpoints.c_kwargs c) = Some (JObj payload)
      /\ Forall (fun kv => py_truthy (snd kv) = true) payload
      /\ Dict.get "content" payload
         = (if py_truthy content then Some content else None)
      /\ Dict.get "tts" payload
         = (if py_truthy tts then Some (JBool true) else None)
      /\ Dict.get "embed" payload = (if py_truthy embed then Some embed else None)
      /\ Dict.get "nonce" payload = (if py_truthy nonce then Some nonce else None)
      /\ HTTPClient.kw_reason (Endpoints.c_kwargs c) = None
      /\ Endpoints.c_bypass c = None.
Proof.
  intros channel content tts embed nonce c. unfold Endpoints.send_message.
  destruct (Endpoints.Route_ _ _ _); [|discriminate].
  intros [= <-]. eexists. split; [reflexivity|].
  unfold Endpoints.message_payload.
  destruct (py_truthy content) eqn:H1, (py_truthy tts) eqn:H2,
    (py_truthy embed) eqn:H3, (py_truthy nonce) eqn:H4;
    cbn; repeat split; repeat constructor; assumption.
Qed.

Lemma numbered_files_names files :
  forall index,
    map Endpoints.f_name (Endpoints.numbered_files index files)
    = map (fun i => ("file" ++ Str.of_Z (Z.of_nat i))%string)
        (seq index (List.length files))
    /\ map Endpoints.f_value (Endpoints.numbered_files index files) = map fst files
    /\ map Endpoints.f_filename (Endpoints.numbered_files index files)
       = map (fun fp => Some (snd fp)) files.
Proof.
  induction files as [|[buffer filename] files IH]; intros index; [auto|].
  destruct (IH (S index)) as (H1 & H2 & H3).
  simpl. now rewrite H1, H2, H3.
Qed.

Lemma file_names_distinct n :
  forall index,
    NoDup (map (fun i => ("file" ++ Str.of_Z (Z.of_nat i))%string) (seq index n)).
Proof.
  induction n as [|n IH]; intros index; simpl; constructor; [|apply IH].
  intros Hin. apply in_map_iff in Hin. destruct Hin as (j & Hj & Hin).
  injection Hj as Hj. apply of_Z_inj in Hj. apply in_seq in Hin. lia.
Qed.

(** X21.  The form of [send_files] starts with the field [payload_json]
    and then holds every file once, in the order given, with its content
    and its name; the names of the fields are pairwise different: [file]
    for a single file and [file0], [file1], ... otherwise.  The payload
    always carries [tts]. *)
Theorem files_form_attaches_every_file_once :
  forall files content tts embed nonce,
    let form := Endpoints.files_form to_json files content tts embed nonce in
    NoDup (map Endpoints.f_name form)
    /\ map Endpoints.f_name (firstn 1 form) = ["payload_json"%string]
    /\ map Endpoints.f_value (skipn 1 form) = map fst files
    /\ map Endpoints.f_filename (skipn 1 form) = map (fun fp => Some (snd fp)) files
    /\ map Endpoints.f_name (skipn 1 form)
       = match files with
         | [_] => ["file"%string]
         | _ => map (fun i => ("file" ++ Str.of_Z (Z.of_nat i))%string)
                  (seq 0 (List.length files))
         end
    /\ Dict.get "tts" (Endpoints.files_payload content tts embed nonce) = Some tts.
Proof.
  intros files content tts embed nonce form. subst form.
  unfold Endpoints.files_form.
  assert (Htts : Dict.get "tts" (Endpoints.files_payload content tts embed nonce)
                 = Some tts).
  { unfold Endpoints.files_payload.
    destruct (py_truthy content), (py_truthy embed), (py_truthy nonce); reflexivity. }
  assert (Hpayload : forall n index,
             ~ In "payload_json"%string
                 (map (fun i => ("file" ++ Str.of_Z (Z.of_nat i))%string) (seq index n))).
  { intros n index Hin. apply in_map_iff in Hin. destruct Hin as (j & Hj & _).
    discriminate. }
  destruct files as [|fp [|fp' files]].
  - simpl. repeat split; auto. repeat constructor; simpl; tauto.
  - simpl. repeat split; auto.
    repeat constructor; simpl; [intros [H|[]]; discriminate|tauto].
  - destruct (numbered_files_names (fp :: fp' :: files) 0) as (H1 & H2 & H3).
    cbn [firstn skipn map Endpoints.f_name]. rewrite H1, H2, H3.
    repeat split; auto.
    constructor; [apply Hpayload|apply file_names_distinct].
Qed.

Lemma invite_route invite_id :
  Endpoints.Route_ "GET" "/invite/{invite_id}" [("invite_id", invite_id)]
  = Some {| Route.path := "/invite/{invite_id}"; Route.method := "GET";
            Route.url := (Route.BASE ++ "/invite/" ++ in_url invite_id)%string;
            Route.channel := PNone; Route.channel_id := PNone;
            Route.guild_id := PNone |}.
Proof.
  rewrite route_of_ids by reflexivity.
  rewrite <- (append_nil_r (in_url invite_id)).
  destruct invite_id; reflexivity.
Qed.

(** X22.  A string parameter of a route is percent-encoded when it is
    written into the URL, the slash excepted: the URL of [get_invite] for a
    code that is a string is the invite address followed by the encoded
    code, and it contains no question mark, no number sign and no space
    whatever the code; the bucket does not depend on the code. *)
Theorem string_parameter_is_percent_encoded :
  forall code,
    exists c,
      Endpoints.get_invite (PStr code) = Some c
      /\ Route.url (Endpoints.c_route c)
         = ("https://discordapp.com/api/v7/invite/" ++ Str.quote "/" code)%string
      /\ Str.mem "?" (Route.url (Endpoints.c_route c)) = false
      /\ Str.mem "#" (Route.url (Endpoints.c_route c)) = false
      /\ Str.mem " " (Route.url (Endpoints.c_route c)) = false
      /\ Route.bucket (Endpoints.c_route c) = "GET:None:None:/invite/{invite_id}"%string.
Proof.
  intros code. unfold Endpoints.get_invite. rewrite invite_route.
  eexists. split; [reflexivity|].
  cbn [Endpoints.c_route Route.url in_url].
  assert (Hq : forall ch, unreserved "/" ch = false ->
                          Str.mem ch (Str.quote "/" code) = false).
  { intros ch Hch. destruct (Str.mem ch (Str.quote "/" code)) eqn:E; [|reflexivity].
    apply quote_writes in E. congruence. }
  split; [reflexivity|].
  repeat split;
    try (change (Route.BASE ++ "/invite/" ++ Str.quote "/" code)%string
           with ("https://discordapp.com/api/v7/invite/" ++ Str.quote "/" code)%string;
         rewrite mem_app, Hq by reflexivity; reflexivity).
Qed.

End Methods.

(** ** The bucket lock between calls *)

Section Buckets.

Variable json_loads : string -> option json.
Variable _parse_ratelimit_header : response -> result Q.
Variable to_json : json -> string.

Local Abbreviation json_or_text := (HTTPClient.json_or_text json_loads).
Local Abbreviation request := (HTTPClient.request json_loads _parse_ratelimit_header to_json).
Local Abbreviation try_block := (HTTPClient.try_block json_loads _parse_ratelimit_header).
Local Abbreviation attempts := (HTTPClient.attempts json_loads _parse_ratelimit_header).
Local Abbreviation release_delay := (HTTPClient.release_delay _parse_ratelimit_header).
Local Abbreviation delay_known := (Shape.delay_known _parse_ratelimit_header).
Local Abbreviation held := (with_lock json_loads _parse_ratelimit_header to_json).
Local Abbreviation step := (Loop.step json_loads _parse_ratelimit_header to_json).
Local Abbreviation steps := (Loop.steps json_loads _parse_ratelimit_header to_json).

(** A call made while the flag is set: it registers a lock for its bucket
    when there is none, and then either takes the lock and sends, or waits
    for the lock. *)
Lemma spawn_with_flag_set self route bypass kw w :
  Loop.global_over w = true ->
  let b := Route.bucket route in
  let l := lock_for b w in
  exists w' t,
    step (Loop.Spawn self route bypass kw) w = Some w'
    /\ Loop.tasks w' = Loop.tasks w ++ [t]
    /\ Loop.t_bucket t = b
    /\ Dict.get b (Loop.locks w') = Some l
    /\ Loop.global_over w' = true
    /\ Loop.timers w' = Loop.timers w
    /\ Loop.now w' = Loop.now w
    /\ if Loop.is_locked l w
       then Loop.t_code t = Acquire l (held self route bypass kw l)
            /\ Loop.locked w' = Loop.locked w
       else Loop.t_code t = held self route bypass kw l
            /\ Loop.locked w' = l :: Loop.locked w.
Proof.
  intros Hf. cbv zeta. unfold lock_for, Loop.step.
  rewrite (request_unfold json_loads _parse_ratelimit_header to_json).
  destruct (with_lock_sends json_loads _parse_ratelimit_header to_json self route bypass kw
              match Dict.get (Route.bucket route) (Loop.locks w) with
              | Some l => l
              | None => Loop.fresh w
              end) as (k & Hk & _).
  Opaque with_lock.
  cbn [Loop.settle].
  destruct (Dict.get (Route.bucket route) (Loop.locks w)) as [l|] eqn:Hl.
  - cbn [bind Loop.settle]. rewrite Hf. cbn [bind Loop.settle].
    destruct (Loop.is_locked l w) eqn:Hlk.
    + do 2 eexists. split; [reflexivity|]. cbn. split; [reflexivity|]. cbn. auto 10.
    + rewrite Hk. cbn [Loop.settle].
      do 2 eexists. split; [reflexivity|]. cbn. split; [reflexivity|]. cbn. auto 10.
  - cbn [bind Loop.settle Loop.bump_fresh Loop.set_locks Loop.global_over
         Loop.fresh Loop.locks].
    rewrite Hf. cbn [bind Loop.settle].
    match goal with
    | |- context [Loop.is_locked (Loop.fresh w) ?w1] =>
        change (Loop.is_locked (Loop.fresh w) w1) with (Loop.is_locked (Loop.fresh w) w)
    end.
    destruct (Loop.is_locked (Loop.fresh w) w) eqn:Hlk.
    + do 2 eexists. split; [reflexivity|]. cbn. split; [reflexivity|]. cbn.
      rewrite get_set_same. auto 10.
    + rewrite Hk. cbn [Loop.settle].
      do 2 eexists. split; [reflexivity|]. cbn. split; [reflexivity|]. cbn.
      rewrite get_set_same. auto 10.
  Transparent with_lock.
Qed.

Lemma release_free l ls :
  existsb (Nat.eqb l) ls = false ->
  filter (fun x => negb (Nat.eqb x l)) (l :: ls) = ls.
Proof.
  intros H. simpl. rewrite Nat.eqb_refl. simpl.
  induction ls as [|x ls IH]; [reflexivity|].
  simpl in *. apply orb_false_iff in H as [H1 H2].
  rewrite Nat.eqb_sym, H1. simpl. now rewrite IH.
Qed.

(** The body of [try:] for a decoded response with a status in
    [200,300), in the event loop. *)
Lemma settle_try_block_success bypass tries r mu data w :
  json_or_text r = Ok data -> 200 <= status r < 300 ->
  Loop.settle w (try_block bypass tries r mu)
  = if HTTPClient.bucket_exhausted r
    then match release_delay bypass r with
         | Ok delta =>
             (Loop.set_timers
                (Loop.timers w ++ [((Loop.now w + delta)%Q, MaybeUnlock.lock mu)]) w,
              Ret (MaybeUnlock.defer mu, HTTPClient.Return data))
         | Raise x => (w, Ret (mu, HTTPClient.Throw x))
         end
    else (w, Ret (mu, HTTPClient.Return data)).
Proof.
  intros Hd Hs. unfold HTTPClient.try_block, HTTPClient.ratelimit_check.
  rewrite Hd.
  destruct (HTTPClient.bucket_exhausted r);
    [destruct (release_delay bypass r)|]; cbn [bind Loop.settle];
    rewrite ?dispatch_success by assumption; reflexivity.
Qed.

(** Two calls on one bucket, made one after the other while the flag is
    set and the lock of the bucket is free. *)
Lemma two_calls self1 self2 route1 route2 bypass1 bypass2 kw1 kw2 w :
  Route.bucket route2 = Route.bucket route1 ->
  Loop.global_over w = true ->
  let b := Route.bucket route1 in
  let l := lock_for b w in
  Loop.is_locked l w = false ->
  exists w2 t1 t2,
    steps [Loop.Spawn self1 route1 bypass1 kw1;
           Loop.Spawn self2 route2 bypass2 kw2] w = Some w2
    /\ Loop.tasks w2 = Loop.tasks w ++ [t1; t2]
    /\ Loop.t_bucket t1 = b /\ Loop.t_bucket t2 = b
    /\ Loop.t_code t1 = held self1 route1 bypass1 kw1 l
    /\ Loop.t_code t2 = Acquire l (held self2 route2 bypass2 kw2 l)
    /\ Loop.locked w2 = l :: Loop.locked w
    /\ Loop.timers w2 = Loop.timers w
    /\ Loop.now w2 = Loop.now w
    /\ Loop.global_over w2 = true.
Proof.
  intros Hb Hf b l Hfree.
  destruct (spawn_with_flag_set self1 route1 bypass1 kw1 w Hf)
    as (w1 & t1 & S1 & T1 & B1 & L1 & F1 & M1 & N1 & C1).
  fold b l in S1, B1, L1, C1. rewrite Hfree in C1. destruct C1 as [C1 K1].
  destruct (spawn_with_flag_set self2 route2 bypass2 kw2 w1 F1)
    as (w2 & t2 & S2 & T2 & B2 & L2 & F2 & M2 & N2 & C2).
  rewrite Hb in B2, L2, C2. fold b in B2, L2, C2.
  assert (Hl : lock_for b w1 = l) by (unfold lock_for; now rewrite L1).
  rewrite Hl in *.
  assert (Hlk : Loop.is_locked l w1 = true).
  { unfold Loop.is_locked. rewrite K1. simpl. now rewrite Nat.eqb_refl. }
  rewrite Hlk in C2. destruct C2 as [C2 K2].
  exists w2, t1, t2. cbn [Loop.steps]. rewrite S1, S2.
  split; [reflexivity|]. rewrite T2, T1, <- app_assoc.
  repeat split; auto; congruence.
Qed.

Lemma picture_app w ts :
  map (fun t => (Loop.t_bucket t, Loop.state_of t)) (Loop.tasks w ++ ts)
  = Loop.picture w ++ map (fun t => (Loop.t_bucket t, Loop.state_of t)) ts.
Proof. unfold Loop.picture. now rewrite map_app. Qed.

Lemma in_flight_app b (ts us : list Loop.task) :
  List.length (filter (fun t => (String.eqb (Loop.t_bucket t) b
                                 && Loop.in_flight (Loop.t_code t))%bool) (ts ++ us))
  = (List.length (filter (fun t => (String.eqb (Loop.t_bucket t) b
                                    && Loop.in_flight (Loop.t_code t))%bool) ts)
     + List.length (filter (fun t => (String.eqb (Loop.t_bucket t) b
                                      && Loop.in_flight (Loop.t_code t))%bool) us))%nat.
Proof. now rewrite filter_app, length_app. Qed.


Lemma steps_app acts acts' w :
  steps (acts ++ acts') w
  = match steps acts w with
    | Some w' => steps acts' w'
    | None => None
    end.
Proof.
  revert w. induction acts as [|a acts IH]; intros w; [reflexivity|].
  simpl. destruct (step a w); auto.
Qed.

(** The first of the two calls is answered by a decoded response with a
    status in [200,300): it returns, and its lock is released at once or,
    for an exhausted bucket with the delay [d], by a timer. *)
Lemma first_call_returns self1 self2 route1 route2 bypass1 bypass2 kw1 kw2 w r data d :
  Route.bucket route2 = Route.bucket route1 ->
  Loop.global_over w = true ->
  let b := Route.bucket route1 in
  let l := lock_for b w in
  Loop.is_locked l w = false ->
  json_or_text r = Ok data -> 200 <= status r < 300 ->
  (HTTPClient.bucket_exhausted r = true -> release_delay bypass1 r = Ok d) ->
  exists w3 t1 t2,
    steps [Loop.Spawn self1 route1 bypass1 kw1;
           Loop.Spawn self2 route2 bypass2 kw2;
           Loop.Reply (List.length (Loop.tasks w)) (Ok r)] w = Some w3
    /\ Loop.tasks w3 = Loop.tasks w ++ [t1; t2]
    /\ Loop.t_bucket t1 = b /\ Loop.t_bucket t2 = b
    /\ Loop.t_code t1 = Ret (Ok data)
    /\ Loop.t_code t2 = Acquire l (held self2 route2 bypass2 kw2 l)
    /\ Loop.now w3 = Loop.now w
    /\ if HTTPClient.bucket_exhausted r
       then Loop.locked w3 = l :: Loop.locked w
            /\ Loop.timers w3 = Loop.timers w ++ [((Loop.now w + d)%Q, l)]
       else Loop.locked w3 = Loop.locked w /\ Loop.timers w3 = Loop.timers w.
Proof.
  intros Hb Hf b l Hfree Hd Hs Hdelay.
  destruct (two_calls self1 self2 route1 route2 bypass1 bypass2 kw1 kw2 w Hb Hf Hfree)
    as (w2 & t1 & t2 & St & T & B1 & B2 & C1 & C2 & K & M & N & _).
  fold b l in B1, B2, C1, C2, K.
  destruct (with_lock_sends json_loads _parse_ratelimit_header to_json
              self1 route1 bypass1 kw1 l) as (k & Hk & Hk').
  rewrite Hk in C1.
  change [Loop.Spawn self1 route1 bypass1 kw1; Loop.Spawn self2 route2 bypass2 kw2;
          Loop.Reply (List.length (Loop.tasks w)) (Ok r)]
    with ([Loop.Spawn self1 route1 bypass1 kw1; Loop.Spawn self2 route2 bypass2 kw2]
            ++ [Loop.Reply (List.length (Loop.tasks w)) (Ok r)]).
  rewrite steps_app, St. cbn [Loop.steps Loop.step].
  rewrite T, nth_error_app_len, C1. unfold Loop.continue_task.
  rewrite Hk', !settle_bind, (settle_try_block_success _ _ _ _ _ _ Hd Hs).
  destruct (HTTPClient.bucket_exhausted r).
  - rewrite (Hdelay eq_refl).
    cbn [Loop.settle fst snd MaybeUnlock.exit MaybeUnlock.defer MaybeUnlock._unlock
         MaybeUnlock.lock MaybeUnlock.init bind].
    do 3 eexists. split; [reflexivity|].
    cbn [Loop.tasks Loop.set_tasks Loop.set_timers]. rewrite T, replace_nth_app_len.
    split; [reflexivity|]. cbn. rewrite B1, B2, C2, K, M, N. auto 10.
  - cbn [Loop.settle fst snd MaybeUnlock.exit MaybeUnlock.defer MaybeUnlock._unlock
         MaybeUnlock.lock MaybeUnlock.init bind].
    do 3 eexists. split; [reflexivity|].
    cbn [Loop.tasks Loop.set_tasks Loop.release Loop.set_locked].
    rewrite T, replace_nth_app_len.
    split; [reflexivity|]. cbn. rewrite B1, B2, C2, K, M, N.
    rewrite release_free by exact Hfree. auto 10.
Qed.


(** The clock of the loop: running a coroutine does not move it, and no
    step moves it back. *)
Lemma settle_now {A : Type} (p : prog A) :
  forall w, Loop.now (fst (Loop.settle w p)) = Loop.now w.
Proof.
  induction p; intros w; simpl; auto;
    try (rewrite ?H, ?IHp; reflexivity).
  - destruct (Loop.global_over w); [rewrite IHp|]; reflexivity.
  - destruct (Loop.is_locked lock w); [|rewrite IHp]; reflexivity.
Qed.

Lemma continue_task_now i t w p :
  Loop.now (Loop.continue_task i t w p) = Loop.now w.
Proof.
  unfold Loop.continue_task. pose proof (settle_now p w) as H.
  destruct (Loop.settle w p) as [w' p']. exact H.
Qed.

Lemma step_now a w w' : step a w = Some w' -> (Loop.now w <= Loop.now w')%Q.
Proof.
  destruct a as [self route bypass kw|j|j reply|j|tm]; unfold Loop.step.
  - pose proof (settle_now (request self route bypass kw) w) as H.
    destruct (Loop.settle w (request self route bypass kw)) as [w1 p1].
    intros [= <-]. cbn in *. rewrite H. apply Qle_refl.
  - destruct (nth_error (Loop.tasks w) j) as [t|]; [|discriminate].
    destruct (Loop.t_code t); try discriminate;
      match goal with |- context [if ?c then _ else _] => destruct c end;
      try discriminate; intros [= <-]; rewrite continue_task_now; apply Qle_refl.
  - destruct (nth_error (Loop.tasks w) j) as [t|]; [|discriminate].
    destruct (Loop.t_code t); try discriminate.
    intros [= <-]. rewrite continue_task_now. apply Qle_refl.
  - destruct (nth_error (Loop.timers w) j) as [[due l]|]; [|discriminate].
    destruct (Qle_bool due (Loop.now w)); [|discriminate].
    intros [= <-]. apply Qle_refl.
  - destruct (Qle_bool (Loop.now w) tm) eqn:E; [|discriminate].
    destruct (Loop.nothing_due_before tm w); [|discriminate].
    intros [= <-]. now apply Qle_bool_iff.
Qed.

Lemma steps_now acts :
  forall w w', steps acts w = Some w' -> (Loop.now w <= Loop.now w')%Q.
Proof.
  induction acts as [|a acts IH]; intros w w'; cbn [Loop.steps].
  - intros [= <-]. apply Qle_refl.
  - destruct (step a w) as [w1|] eqn:Ha; [|discriminate]. intros Hs.
    apply Qle_trans with (Loop.now w1); [now apply step_now with a|now apply IH].
Qed.

(** A call that has returned, a call that waits for the lock [l], and one
    timer that will release [l] at [due]: as long as no new call is made
    and the clock has not reached [due], every step leaves all of this as
    it is. *)
Lemma closed_until_due a w w' t1 t2 due l out k :
  is_spawn a = false ->
  Loop.tasks w = [t1; t2] ->
  Loop.t_code t1 = Ret out -> Loop.t_code t2 = Acquire l k ->
  Loop.timers w = [(due, l)] -> Loop.is_locked l w = true ->
  step a w = Some w' -> (Loop.now w' < due)%Q ->
  Loop.tasks w' = [t1; t2] /\ Loop.timers w' = [(due, l)]
  /\ Loop.is_locked l w' = true.
Proof.
  intros Hsp HT C1 C2 HM HL Hstep Hnow.
  destruct a as [self route bypass kw|j|j reply|j|tm];
    [discriminate| | | |]; cbn [Loop.step] in Hstep.
  - rewrite HT in Hstep. destruct j as [|[|j]]; cbn [nth_error] in Hstep.
    + rewrite C1 in Hstep. discriminate.
    + rewrite C2, HL in Hstep. discriminate.
    + destruct j; discriminate.
  - rewrite HT in Hstep. destruct j as [|[|j]]; cbn [nth_error] in Hstep.
    + rewrite C1 in Hstep. discriminate.
    + rewrite C2 in Hstep. discriminate.
    + destruct j; discriminate.
  - rewrite HM in Hstep. destruct j as [|j]; cbn [nth_error] in Hstep.
    + destruct (Qle_bool due (Loop.now w)) eqn:E; [|discriminate].
      injection Hstep as <-. apply Qle_bool_iff in E. cbn in Hnow.
      exfalso. apply (Qlt_irrefl due). now apply Qle_lt_trans with (Loop.now w).
    + destruct j; discriminate.
  - destruct (Qle_bool (Loop.now w) tm && Loop.nothing_due_before tm w)%bool;
      [|discriminate].
    injection Hstep as <-. auto.
Qed.

Lemma closed_until_due_steps acts t1 t2 due l out k :
  forall w w',
    existsb is_spawn acts = false ->
    Loop.tasks w = [t1; t2] ->
    Loop.t_code t1 = Ret out -> Loop.t_code t2 = Acquire l k ->
    Loop.timers w = [(due, l)] -> Loop.is_locked l w = true ->
    steps acts w = Some w' -> (Loop.now w' < due)%Q ->
    Loop.tasks w' = [t1; t2] /\ Loop.timers w' = [(due, l)]
    /\ Loop.is_locked l w' = true.
Proof.
  induction acts as [|a acts IH]; intros w w' Hsp HT C1 C2 HM HL Hs Hnow.
  - injection Hs as <-. auto.
  - cbn [existsb] in Hsp. apply orb_false_iff in Hsp as [Ha Hsp].
    cbn [Loop.steps] in Hs.
    destruct (step a w) as [w1|] eqn:Hstep; [|discriminate].
    assert (Hnow1 : (Loop.now w1 < due)%Q).
    { apply Qle_lt_trans with (Loop.now w'); [|assumption].
      now apply steps_now with acts. }
    destruct (closed_until_due a w w1 t1 t2 due l out k Ha HT C1 C2 HM HL Hstep Hnow1)
      as (HT1 & HM1 & HL1).
    now apply (IH w1 w').
Qed.

(** X25.  Two calls on one bucket of a client with no other call and no
    pending timer; the first is answered by a decoded response with a
    status in [200,300) that says the bucket is exhausted, and the delay
    [d] of the release is known (given by the caller, or returned by
    [utils._parse_ratelimit_header]).  The first call returns the decoded
    body but leaves the lock held, with a timer set to release it [d]
    seconds later.  Whatever the loop does from there without a new call
    being made, as long as the clock has not reached that time the second
    call is still waiting for the lock and no request of the bucket is in
    flight.  When [d] is not negative, the clock reaches that time, the
    timer releases the lock, and the second call takes it and sends. *)
Theorem exhausted_bucket_stays_closed_until_the_timer :
  forall self1 self2 route1 route2 bypass1 bypass2 kw1 kw2 w r data d,
    Route.bucket route2 = Route.bucket route1 ->
    Loop.global_over w = true ->
    Loop.tasks w = [] -> Loop.timers w = [] ->
    let b := Route.bucket route1 in
    let l := lock_for b w in
    let due := (Loop.now w + d)%Q in
    Loop.is_locked l w = false ->
    json_or_text r = Ok data -> 200 <= status r < 300 ->
    HTTPClient.bucket_exhausted r = true ->
    release_delay bypass1 r = Ok d ->
    exists w3,
      steps [Loop.Spawn self1 route1 bypass1 kw1;
             Loop.Spawn self2 route2 bypass2 kw2;
             Loop.Reply 0 (Ok r)] w = Some w3
      /\ Loop.picture w3 = [(b, Loop.Done (Ok data)); (b, Loop.ForLock l)]
      /\ Loop.timers w3 = [(due, l)]
      /\ Loop.is_locked l w3 = true
      /\ (forall acts w',
            existsb is_spawn acts = false ->
            steps acts w3 = Some w' ->
            (Loop.now w' < due)%Q ->
            Loop.picture w' = [(b, Loop.Done (Ok data)); (b, Loop.ForLock l)]
            /\ Loop.in_flight_on b w' = 0%nat
            /\ Loop.is_locked l w' = true
            /\ step (Loop.Resume 1) w' = None)
      /\ ((0 <= d)%Q ->
          exists w5,
            steps [Loop.Tick due; Loop.Fire 0; Loop.Resume 1] w3 = Some w5
            /\ Loop.picture w5 = [(b, Loop.Done (Ok data)); (b, Loop.InFlight)]
            /\ Loop.in_flight_on b w5 = 1%nat
            /\ Loop.timers w5 = []).
Proof.
  intros self1 self2 route1 route2 bypass1 bypass2 kw1 kw2 w r data d
    Hb Hf Hnone Hidle b l due Hfree Hd Hs Hx Hdelay.
  destruct (first_call_returns self1 self2 route1 route2 bypass1 bypass2 kw1 kw2
              w r data d Hb Hf Hfree Hd Hs (fun _ => Hdelay))
    as (w3 & t1 & t2 & St & T & B1 & B2 & C1 & C2 & N & HL).
  fold b l in St, B1, B2, C2, HL. rewrite Hx in HL. destruct HL as [K M].
  fold due in M. rewrite Hnone in St, T. rewrite Hidle in M.
  cbn [List.length app] in St, T, M.
  destruct (with_lock_sends json_loads _parse_ratelimit_header to_json
              self2 route2 bypass2 kw2 l) as (k & Hk & _).
  assert (Hlk : Loop.is_locked l w3 = true).
  { unfold Loop.is_locked. rewrite K. simpl. now rewrite Nat.eqb_refl. }
  assert (Hpic : forall w', Loop.tasks w' = [t1; t2] ->
            Loop.picture w' = [(b, Loop.Done (Ok data)); (b, Loop.ForLock l)]
            /\ Loop.in_flight_on b w' = 0%nat).
  { intros w' HT. unfold Loop.picture, Loop.in_flight_on, Loop.state_of.
    rewrite HT. cbn [map filter]. rewrite B1, B2, C1, C2, String.eqb_refl.
    split; reflexivity. }
  exists w3. split; [exact St|].
  split; [apply (Hpic w3 T)|]. split; [exact M|]. split; [exact Hlk|]. split.
  - intros acts w' Hsp Hsteps Hnow.
    destruct (closed_until_due_steps acts t1 t2 due l _ _ w3 w' Hsp T C1 C2 M Hlk
                Hsteps Hnow) as (HT' & HM' & HL').
    destruct (Hpic w' HT') as [P1 P2].
    repeat (split; [assumption|]).
    cbn [Loop.step]. rewrite HT'. cbn [nth_error]. now rewrite C2, HL'.
  - intros Hpos.
    assert (Hdue : Qle_bool due due = true) by (apply Qle_bool_iff, Qle_refl).
    assert (Hle : Qle_bool (Loop.now w3) due = true).
    { apply Qle_bool_iff. rewrite N. unfold due.
      rewrite <- (Qplus_0_r (Loop.now w)) at 1.
      apply Qplus_le_r. exact Hpos. }
    cbn [Loop.steps Loop.step]. unfold Loop.nothing_due_before.
    rewrite Hle, T, M. cbn [forallb fst]. rewrite C1, C2, Hdue.
    cbn [andb Loop.timers Loop.set_now Loop.now nth_error].
    rewrite M. cbn [nth_error]. rewrite Hdue.
    cbn [Loop.remove_nth Loop.tasks Loop.release Loop.set_locked Loop.set_timers
         Loop.locked Loop.set_now].
    rewrite T. cbn [nth_error]. rewrite C2.
    unfold Loop.is_locked.
    cbn [Loop.tasks Loop.release Loop.set_locked Loop.set_timers Loop.locked
         Loop.set_now].
    rewrite K, release_free by exact Hfree.
    unfold Loop.is_locked in Hfree. rewrite Hfree.
    unfold Loop.continue_task. rewrite Hk. cbn [Loop.settle].
    eexists. split; [reflexivity|].
    unfold Loop.picture, Loop.in_flight_on.
    cbn [Loop.tasks Loop.set_tasks Loop.acquire Loop.release Loop.set_locked
         Loop.locked Loop.timers Loop.set_timers Loop.set_now].
    rewrite T.
    cbn [Loop.replace_nth map filter Loop.suspended Loop.t_code Loop.t_bucket].
    unfold Loop.state_of. cbn [Loop.t_code Loop.t_bucket].
    rewrite B1, B2, C1, String.eqb_refl. cbn. repeat split; reflexivity.
Qed.

End Buckets.

(** ** The theorems at sample calls *)

Lemma flag_is_written_only_for_429_witness :
  exists r,
    In r (received (trace (Runs.run_of None
                             (Sample.script [Ok Concurrent.global_limit]
                                (Ok Runs.user_200)))))
    /\ status r = 429.
Proof.
  exact (flag_is_written_only_for_429
           Sample.json_loads Sample._parse_ratelimit_header Sample.to_json
           Sample.client Runs.me None HTTPClient.no_kwargs
           (Sample.script [Ok Concurrent.global_limit] (Ok Runs.user_200))
           eq_refl).
Defined.





Lemma kick_reason_goes_into_the_url_witness :
  exists c,
    Endpoints.kick (PInt 80351110224678912) (PInt 41771983423143937)
      (Some "spam links") = Some c
    /\ Route.url (Endpoints.c_route c)
       = "https://discordapp.com/api/v7/guilds/41771983423143937/members/80351110224678912?reason=spam%20links"
    /\ Route.bucket (Endpoints.c_route c)
       = "DELETE:None:41771983423143937:/guilds/{guild_id}/members/{user_id}".
Proof.
  destruct (kick_reason_goes_into_the_url
              Sample.json_loads Sample._parse_ratelimit_header Sample.to_json
              Sample.client (PInt 80351110224678912) (PInt 41771983423143937)
              "spam links" (Sample.always (Ok Runs.user_200))
              ltac:(discriminate))
    as (c & H1 & H2 & H3 & _).
  exists c. split; [exact H1|]. split; [exact H2|exact H3].
Defined.

Lemma edit_methods_send_valid_keys_only_witness :
  exists c payload,
    Endpoints.edit_channel Concurrent.channel (Some "tidy") Calls.options = Some c
    /\ HTTPClient.kw_json (Endpoints.c_kwargs c) = Some (JObj payload)
    /\ Dict.get "type" payload = None
    /\ Dict.get "topic" payload = Some (JStr "welcome").
Proof.
  eexists.
  destruct (proj1 (proj2 (edit_methods_send_valid_keys_only
                            Concurrent.channel (PInt 7) (PInt 9) (Some "tidy")
                            Calls.options))
              _ eq_refl) as (payload & H1 & _ & H3).
  exists payload. split; [reflexivity|]. split; [exact H1|].
  split; [exact (H3 "type")|exact (H3 "topic")].
Defined.

Lemma send_message_sends_no_false_field_witness :
  exists c payload,
    Endpoints.send_message Concurrent.channel (JStr "hello") (JBool false)
      JNull JNull = Some c
    /\ HTTPClient.kw_json (Endpoints.c_kwargs c) = Some (JObj payload)
    /\ Dict.get "content" payload = Some (JStr "hello")
    /\ Dict.get "tts" payload = None.
Proof.
  eexists.
  destruct (send_message_sends_no_false_field
              Concurrent.channel (JStr "hello") (JBool false) JNull JNull _ eq_refl)
    as (payload & H1 & _ & H3 & H4 & _).
  exists payload. split; [reflexivity|]. split; [exact H1|].
  split; [exact H3|exact H4].
Defined.



Lemma exhausted_bucket_stays_closed_until_the_timer_witness :
  let reaction := Route.bucket Concurrent.reaction in
  exists w3,
    Sample.steps (Calls.two_reactions Runs.ok_exhausted) Loop.initial = Some w3
    /\ Loop.picture w3
       = [(reaction, Loop.Done (Ok (JStr "ok"))); (reaction, Loop.ForLock 0)]
    /\ Loop.timers w3 = [((0 + (1 # 4))%Q, 0%nat)]
    /\ exists w5,
         Sample.steps [Loop.Tick (0 + (1 # 4)); Loop.Fire 0; Loop.Resume 1] w3
         = Some w5
         /\ Loop.picture w5
            = [(reaction, Loop.Done (Ok (JStr "ok"))); (reaction, Loop.InFlight)].
Proof.
  intros reaction.
  assert (Hs : 200 <= status Runs.ok_exhausted < 300) by (simpl; lia).
  assert (Hpos : (0 <= 1 # 4)%Q) by discriminate.
  destruct (exhausted_bucket_stays_closed_until_the_timer
              Sample.json_loads Sample._parse_ratelimit_header Sample.to_json
              Sample.client Sample.client Concurrent.reaction Concurrent.reaction
              (Some (1 # 4)) (Some (1 # 4)) HTTPClient.no_kwargs HTTPClient.no_kwargs
              Loop.initial Runs.ok_exhausted (JStr "ok") (1 # 4)
              eq_refl eq_refl eq_refl eq_refl eq_refl eq_refl Hs eq_refl eq_refl)
    as (w3 & H1 & H2 & H3 & _ & _ & H6).
  destruct (H6 Hpos) as (w5 & S5 & P5 & _).
  exists w3. split; [exact H1|]. split; [exact H2|]. split; [exact H3|].
  exists w5. split; [exact S5|exact P5].
Defined.
